(** * tools.js: the client-side TIFF / OME-TIFF metadata extractor

    A shallow embedding of [parseTiffMetadata], [getUint64] and the report
    builder of [handleFile], with the parts of the JavaScript platform they
    call ([DataView] reads, Number, String, RegExp), followed by the
    properties of the parser and the formatter.

    Conventions.
    - An [ArrayBuffer] is a [list byte]; a [DataView] over it is the same list.
    - Offsets, tags, counts and sizes are [Z].  The source computes them as
      doubles; all of them stay below 2^53, where double arithmetic on
      integers is exact, except the 64-bit IFD offset that [getUint64]
      returns: there the sum is rounded to the nearest double ([binary64]).
      An offset of 2^53 or more is rejected by the guard
      [firstIFDOffset + 2 > byteLength] with or without the rounding of that
      sum, a buffer being shorter than 2^53 bytes.
    - A JavaScript exception is the [Throw] outcome of the [completion] monad.
    - A JavaScript string is the list of its UTF-16 code units.
    - A Number that is not known to be an unsigned integer is a binary64
      [float]. *)

From Stdlib Require Import ZArith List Bool Lia String Ascii.
From Stdlib Require Import Strings.Byte.
From Stdlib Require Import Floats.
Import ListNotations.
Open Scope Z_scope.

(** ** Completions: normal return or a thrown exception *)

Inductive exn := RangeError.

Inductive completion (A : Type) : Type :=
| Ok (a : A)
| Throw (e : exn).
Arguments Ok {A} a.
Arguments Throw {A} e.

Definition bind {A B} (c : completion A) (k : A -> completion B) : completion B :=
  match c with
  | Ok a => k a
  | Throw e => Throw e
  end.

Notation "x <- c ;; k" := (bind c (fun x => k))
  (at level 61, c at next level, right associativity).

(** ** DataView *)

Definition ArrayBuffer := list byte.

Definition byteLength (view : ArrayBuffer) : Z := Z.of_nat (List.length view).

Definition u8 (b : byte) : Z := Z.of_N (Byte.to_N b).

(** GetViewValue: the index must be non-negative and the element must end
    inside the view, otherwise a RangeError is thrown. *)
Definition rawBytes (view : ArrayBuffer) (offset : Z) (n : nat) : completion (list Z) :=
  if (offset <? 0) || (offset + Z.of_nat n >? byteLength view) then Throw RangeError
  else Ok (map u8 (firstn n (skipn (Z.to_nat offset) view))).

(** Most significant byte first. *)
Definition numeric (bs : list Z) : Z := fold_left (fun acc b => acc * 256 + b) bs 0.

Definition getUint (n : nat) (view : ArrayBuffer) (offset : Z) (littleEndian : bool)
  : completion Z :=
  bs <- rawBytes view offset n ;;
  Ok (numeric (if littleEndian then rev bs else bs)).

Definition getUint8 (view : ArrayBuffer) (offset : Z) : completion Z :=
  getUint 1 view offset false.
Definition getUint16 := getUint 2.
Definition getUint32 := getUint 4.

(** The Number nearest to the non-negative integer [z], as an integer:
    binary64 keeps 53 significant bits and rounds to nearest, ties to even.
    Below 2^53 every integer is a Number; from there on the [e] bits below
    the 53 leading ones are rounded away.  (No integer met here reaches
    2^1024, where the result would be Infinity.) *)
Definition binary64 (z : Z) : Z :=
  let e := Z.log2 z - 52 in
  if e <=? 0 then z
  else
    let q := z / 2 ^ e in
    let r := z mod 2 ^ e in
    let half := 2 ^ (e - 1) in
    if (r <? half) || ((r =? half) && Z.even q) then q * 2 ^ e
    else (q + 1) * 2 ^ e.

(** [x * y] and [x + y] on Numbers that hold non-negative integers. *)
Definition numberMul (x y : Z) : Z := binary64 (x * y).
Definition numberAdd (x y : Z) : Z := binary64 (x + y).

(** Helper for reading 64-bit integers for BigTIFF *)
Definition getUint64 (view : ArrayBuffer) (offset : Z) (little : bool) : completion Z :=
  low <- getUint32 view offset little ;;
  high <- getUint32 view (offset + 4) little ;;
  Ok (if little then numberAdd (numberMul high 0x100000000) low
      else numberAdd (numberMul low 0x100000000) high).

(** ** Numbers *)

(** A 32-bit unsigned integer as a Number: exact. *)
Definition of_uint32 (n : Z) : float := PrimFloat.of_uint63 (Uint63.of_Z n).

(** ** parseTiffMetadata: the directory traversal *)

Definition jsstring := list Z.

Module Locals.
(** The [let] variables of the traversal; [None] is [undefined]. *)
Record t := mk {
  width : option Z;
  height : option Z;
  xRes : option float;
  yRes : option float;
  description : option jsstring
}.
Definition init : t := mk None None None None None.
End Locals.

(** [typeSizeMap[type] || 0] *)
Definition typeSize (type : Z) : Z :=
  match type with
  | 1 => 1 | 2 => 1 | 3 => 2 | 4 => 4 | 5 => 8 | 7 => 1 | 16 => 8
  | _ => 0
  end.

Section Traversal.
Variable view : ArrayBuffer.
Variable littleEndian : bool.
Variable firstIFDOffset : Z.

(** Where the value of an entry lives; [None] is the [continue] taken when
    the pointed value does not fit in the buffer. *)
Definition valueLocation (entryOffset size : Z) : completion (option Z) :=
  if size <=? 4 then Ok (Some (entryOffset + 8))
  else
    valueOffset <- getUint32 view (entryOffset + 8) littleEndian ;;
    if valueOffset + size >? byteLength view then Ok None
    else Ok (Some valueOffset).

Definition readDimension (type valueOffset : Z) : completion Z :=
  if type =? 3 then getUint16 view valueOffset littleEndian
  else getUint32 view valueOffset littleEndian.

(** [denom ? num / denom : undefined] *)
Definition readRational (valueOffset : Z) : completion (option float) :=
  num <- getUint32 view valueOffset littleEndian ;;
  denom <- getUint32 view (valueOffset + 4) littleEndian ;;
  Ok (if denom =? 0 then None else Some (of_uint32 num / of_uint32 denom)%float).

(** The inner [for (j ...)] loop over the description bytes.  [n] is the
    number of indices [j] with [j < len && valueOffset + j < byteLength]
    that remain. *)
Fixpoint readChars (valueOffset : Z) (n : nat) (j : Z) (chars : jsstring)
  : completion jsstring :=
  match n with
  | O => Ok chars
  | S n' =>
      c <- getUint8 view (valueOffset + j) ;;
      if c =? 0 then Ok chars
      else readChars valueOffset n' (j + 1) (chars ++ [c])
  end.

Definition readDescription (valueOffset len : Z) : completion jsstring :=
  readChars valueOffset (Z.to_nat (Z.min len (byteLength view - valueOffset))) 0 [].

(** One iteration of the [for (i ...)] loop. *)
Definition entryStep (st : Locals.t) (i : Z) : completion Locals.t :=
  let entryOffset := firstIFDOffset + 2 + i * 12 in
  if entryOffset + 12 >? byteLength view then Ok st
  else
    tag <- getUint16 view entryOffset littleEndian ;;
    type <- getUint16 view (entryOffset + 2) littleEndian ;;
    count <- getUint32 view (entryOffset + 4) littleEndian ;;
    let size := typeSize type * count in
    loc <- valueLocation entryOffset size ;;
    match loc with
    | None => Ok st
    | Some valueOffset =>
        let '(Locals.mk width height xRes yRes description) := st in
        if tag =? 0x0100 then
          w <- readDimension type valueOffset ;;
          Ok (Locals.mk (Some w) height xRes yRes description)
        else if tag =? 0x0101 then
          h <- readDimension type valueOffset ;;
          Ok (Locals.mk width (Some h) xRes yRes description)
        else if tag =? 0x011A then
          x <- readRational valueOffset ;;
          Ok (Locals.mk width height x yRes description)
        else if tag =? 0x011B then
          y <- readRational valueOffset ;;
          Ok (Locals.mk width height xRes y description)
        else if tag =? 0x010E then
          d <- readDescription valueOffset size ;;
          Ok (Locals.mk width height xRes yRes (Some d))
        else Ok st
    end.

(** [for (let i = from; i < from + n; i++)] *)
Fixpoint forEntries (n : nat) (i : Z) (st : Locals.t) : completion Locals.t :=
  match n with
  | O => Ok st
  | S n' => st' <- entryStep st i ;; forEntries n' (i + 1) st'
  end.
End Traversal.

(** ** parseTiffMetadata: the header

    The statements up to the loop: the byte order, the magic number, the
    offset of the first directory and its entry count.  [None] is one of the
    three [return {}]. *)
Definition readHeader (view : ArrayBuffer) : completion (option (bool * Z * Z)) :=
  if byteLength view <? 8 then Ok None
  else
    byteOrder1 <- getUint8 view 0 ;;
    byteOrder2 <- getUint8 view 1 ;;
    let littleEndian := (byteOrder1 =? 0x49) && (byteOrder2 =? 0x49) in
    magic <- getUint16 view 2 littleEndian ;;
    if negb (magic =? 42) && negb (magic =? 43) then Ok None
    else
      firstIFDOffset <-
        (if magic =? 42 then getUint32 view 4 littleEndian
         else getUint64 view 4 littleEndian) ;;
      if firstIFDOffset + 2 >? byteLength view then Ok None
      else
        numEntries <- getUint16 view firstIFDOffset littleEndian ;;
        Ok (Some (littleEndian, firstIFDOffset, numEntries)).

(** ** Strings *)

(** An ASCII literal as a JavaScript string. *)
Definition str (s : string) : jsstring :=
  map (fun a => Z.of_N (N_of_ascii a)) (list_ascii_of_string s).

(** WhiteSpace and LineTerminator code units: what [trim], [\s] and
    [parseFloat] skip. *)
Definition isWhiteSpace (c : Z) : bool :=
  existsb (Z.eqb c)
    [0x09; 0x0A; 0x0B; 0x0C; 0x0D; 0x20; 0xA0; 0x1680; 0x2028; 0x2029;
     0x202F; 0x205F; 0x3000; 0xFEFF]
  || ((0x2000 <=? c) && (c <=? 0x200A)).

Fixpoint trimStart (s : jsstring) : jsstring :=
  match s with
  | c :: s' => if isWhiteSpace c then trimStart s' else s
  | [] => []
  end.

Definition trim (s : jsstring) : jsstring := rev (trimStart (rev (trimStart s))).

Fixpoint startsWith (s prefix : jsstring) : bool :=
  match prefix, s with
  | [], _ => true
  | p :: prefix', c :: s' => (c =? p) && startsWith s' prefix'
  | _ :: _, [] => false
  end.

Definition jsstring_eqb (a b : jsstring) : bool :=
  (List.length a =? List.length b)%nat && startsWith a b.

(** ** Regular expressions

    The fragment the source uses: literals, character sets, greedy
    repetition of a set, sequence, alternation and capture groups, matched by
    backtracking with the leftmost start first. *)

Inductive regex :=
| Empty
| Lit (c : Z)
| OneOf (set : Z -> bool)
| StarOf (set : Z -> bool)
| Seq (r1 r2 : regex)
| Alt (r1 r2 : regex)
| Group (r : regex).

(** Canonicalize under the [i] flag.  Only the ASCII letters are folded: a
    code unit above 127 never canonicalizes to one below 128, and every
    literal of the source's patterns is ASCII. *)
Definition canonicalize (ignoreCase : bool) (c : Z) : Z :=
  if ignoreCase && (97 <=? c) && (c <=? 122) then c - 32 else c.

Section Matcher.
Variable ignoreCase : bool.
Context {R : Type}.

Fixpoint matcher (r : regex) (s : jsstring) (caps : list jsstring)
  (k : jsstring -> list jsstring -> option R) {struct r} : option R :=
  match r with
  | Empty => k s caps
  | Lit c =>
      match s with
      | x :: s' =>
          if canonicalize ignoreCase x =? canonicalize ignoreCase c then k s' caps
          else None
      | [] => None
      end
  | OneOf set =>
      match s with
      | x :: s' => if set x then k s' caps else None
      | [] => None
      end
  | StarOf set =>
      (fix star (s : jsstring) : option R :=
         match s with
         | x :: s' =>
             if set x then
               match star s' with
               | Some res => Some res
               | None => k s caps
               end
             else k s caps
         | [] => k s caps
         end) s
  | Seq r1 r2 => matcher r1 s caps (fun s' caps' => matcher r2 s' caps' k)
  | Alt r1 r2 =>
      match matcher r1 s caps k with
      | Some res => Some res
      | None => matcher r2 s caps k
      end
  | Group r' =>
      matcher r' s caps
        (fun s' caps' =>
           k s' (caps' ++ [firstn (List.length s - List.length s') s]))
  end.
End Matcher.

(** The result of [RegExp.prototype.exec]: the text before the match, the
    matched text, the text after it and the captures. *)
Record matchResult := {
  before : jsstring;
  matched : jsstring;
  after : jsstring;
  captures : list jsstring
}.

Definition matchAt (ignoreCase : bool) (r : regex) (pre s : jsstring) : option matchResult :=
  matcher ignoreCase r s []
    (fun s' caps =>
       Some {| before := pre;
               matched := firstn (List.length s - List.length s') s;
               after := s';
               captures := caps |}).

(** Start positions are tried from left to right, the end of the string
    included. *)
Fixpoint execFrom (ignoreCase : bool) (r : regex) (pre s : jsstring) : option matchResult :=
  match matchAt ignoreCase r pre s with
  | Some res => Some res
  | None =>
      match s with
      | c :: s' => execFrom ignoreCase r (pre ++ [c]) s'
      | [] => None
      end
  end.

Definition exec (ignoreCase : bool) (r : regex) (s : jsstring) : option matchResult :=
  execFrom ignoreCase r [] s.

(** [s.replace(r, replacement)] for a non-global [r] and a replacement
    without [$] patterns. *)
Definition replace (ignoreCase : bool) (r : regex) (replacement s : jsstring) : jsstring :=
  match exec ignoreCase r s with
  | Some res => before res ++ replacement ++ after res
  | None => s
  end.

Definition lits (s : string) : regex :=
  fold_right (fun c r => Seq (Lit c) r) Empty (str s).

Definition isDigit (c : Z) : bool := (48 <=? c) && (c <=? 57).
Definition isDigitOrDot (c : Z) : bool := isDigit c || (c =? 46).
Definition isColonOrEquals (c : Z) : bool := (c =? 58) || (c =? 61).

Definition seqs (rs : list regex) : regex := fold_right Seq Empty rs.

(** [x+] is [xx*]. *)
Definition PlusOf (set : Z -> bool) : regex := Seq (OneOf set) (StarOf set).

(** ** Numbers: parseFloat and Number::toString *)

Fixpoint span (p : Z -> bool) (s : jsstring) : jsstring * jsstring :=
  match s with
  | c :: s' => if p c then let (a, b) := span p s' in (c :: a, b) else ([], s)
  | [] => ([], [])
  end.

Definition digitsValue (ds : jsstring) : Z :=
  fold_left (fun acc d => acc * 10 + (d - 48)) ds 0.

(** The double nearest to [m * 10^e], ties to even, for [m >= 0]. *)
Definition decimalToNumber (m e : Z) : float :=
  SF2Prim
    (if m <=? 0 then S754_zero false
     else if 0 <=? e then binary_normalize prec emax (m * 10 ^ e) 0 false
     else SFdiv prec emax (S754_finite false (Z.to_pos m) 0)
                          (S754_finite false (Z.to_pos (10 ^ (- e))) 0)).

(** The value of the longest ExponentPart at the head of [s]; 0 without one. *)
Definition exponentPart (s : jsstring) : Z :=
  match s with
  | c :: r =>
      if (c =? 101) || (c =? 69) then
        match r with
        | sg :: r' =>
            if sg =? 43 then digitsValue (fst (span isDigit r'))
            else if sg =? 45 then - digitsValue (fst (span isDigit r'))
            else digitsValue (fst (span isDigit r))
        | [] => 0
        end
      else 0
  | [] => 0
  end.

(** The longest prefix that is a StrUnsignedDecimalLiteral, as a Number;
    NaN when there is none. *)
Definition unsignedDecimal (s : jsstring) : float :=
  if startsWith s (str "Infinity") then infinity
  else
    let (ip, r1) := span isDigit s in
    match r1 with
    | 46 :: r2 =>
        let (fp, r3) := span isDigit r2 in
        match ip ++ fp with
        | [] => nan
        | ds => decimalToNumber (digitsValue ds) (exponentPart r3 - Z.of_nat (List.length fp))
        end
    | _ =>
        match ip with
        | [] => nan
        | _ => decimalToNumber (digitsValue ip) (exponentPart r1)
        end
    end.

Definition parseFloat (s : jsstring) : float :=
  match trimStart s with
  | 45 :: r => (- unsignedDecimal r)%float
  | 43 :: r => unsignedDecimal r
  | t => unsignedDecimal t
  end.

Fixpoint uintChars (u : Decimal.uint) : jsstring :=
  match u with
  | Decimal.Nil => []
  | Decimal.D0 u => 48 :: uintChars u
  | Decimal.D1 u => 49 :: uintChars u
  | Decimal.D2 u => 50 :: uintChars u
  | Decimal.D3 u => 51 :: uintChars u
  | Decimal.D4 u => 52 :: uintChars u
  | Decimal.D5 u => 53 :: uintChars u
  | Decimal.D6 u => 54 :: uintChars u
  | Decimal.D7 u => 55 :: uintChars u
  | Decimal.D8 u => 56 :: uintChars u
  | Decimal.D9 u => 57 :: uintChars u
  end.

(** The decimal digits of a non-negative integer. *)
Definition decimalString (n : Z) : jsstring := uintChars (N.to_uint (Z.to_N n)).

Module ToString.
(** A positive finite double as an exact fraction. *)
Definition exact (x : float) : Z * Z :=
  match Prim2SF x with
  | S754_finite _ m e => if 0 <=? e then (Zpos m * 2 ^ e, 1) else (Zpos m, 2 ^ (- e))
  | _ => (0, 1)
  end.

(** [xn / xd < 10^n] *)
Definition below (xn xd n : Z) : bool :=
  if 0 <=? n then xn <? 10 ^ n * xd else xn * 10 ^ (- n) <? xd.

(** The least [n >= from] with [x < 10^n]; doubles lie between 10^-324 and
    10^309. *)
Fixpoint magnitude (steps : nat) (xn xd n : Z) : Z :=
  match steps with
  | O => n
  | S steps' => if below xn xd n then n else magnitude steps' xn xd (n + 1)
  end.

(** [x / 10^p] as a fraction. *)
Definition scaled (xn xd p : Z) : Z * Z :=
  if 0 <=? p then (xn, xd * 10 ^ p) else (xn * 10 ^ (- p), xd).

(** The [k]-digit decimal [s * 10^(n-k)] that reads back as [x] and is
    nearest to it, for the least [k] that has one. *)
Fixpoint shortest (steps : nat) (x : float) (xn xd n k : Z) : Z * Z * Z :=
  let p := n - k in
  let (a, b) := scaled xn xd p in
  let lo := a / b in
  let hi := lo + 1 in
  let lo_ok := (decimalToNumber lo p =? x)%float in
  let hi_ok := (decimalToNumber hi p =? x)%float in
  let pick (s : Z) := if s =? 10 ^ k then (1, 1, n + 1) else (s, k, n) in
  match steps with
  | O => pick lo
  | S steps' =>
      if lo_ok && hi_ok then
        match 2 * a ?= (2 * lo + 1) * b with
        | Lt => pick lo
        | Gt => pick hi
        | Eq => pick (if Z.even lo then lo else hi)
        end
      else if lo_ok then pick lo
      else if hi_ok then pick hi
      else shortest steps' x xn xd n (k + 1)
  end.

Definition zeros (n : Z) : jsstring := repeat 48 (Z.to_nat n).

Definition layout (s k n : Z) : jsstring :=
  let digits := decimalString s in
  if (k <=? n) && (n <=? 21) then digits ++ zeros (n - k)
  else if (0 <? n) && (n <=? 21) then
    firstn (Z.to_nat n) digits ++ str "." ++ skipn (Z.to_nat n) digits
  else if (-6 <? n) && (n <=? 0) then str "0." ++ zeros (- n) ++ digits
  else
    let e := n - 1 in
    let exponent := str (if e <? 0 then "e-" else "e+") ++ decimalString (Z.abs e) in
    if k =? 1 then digits ++ exponent
    else firstn 1 digits ++ str "." ++ skipn 1 digits ++ exponent.

Definition positive (x : float) : jsstring :=
  if is_infinity x then str "Infinity"
  else
    let (xn, xd) := exact x in
    let n := magnitude 640 xn xd (-324) in
    let '(s, k, n') := shortest 17 x xn xd n 1 in
    layout s k n'.
End ToString.

(** Number::toString(x), radix 10. *)
Definition numberToString (x : float) : jsstring :=
  if is_nan x then str "NaN"
  else if is_zero x then str "0"
  else if (x <? 0)%float then str "-" ++ ToString.positive (- x)%float
  else ToString.positive x.

(** ** The document tree returned by DOMParser *)

#[local] Unset Elimination Schemes.
Inductive Element :=
| element (tagName : jsstring) (attributes : list (jsstring * jsstring))
    (children : list Element).
#[local] Set Elimination Schemes.

Definition tagName (e : Element) : jsstring :=
  match e with element name _ _ => name end.

Definition attributes (e : Element) : list (jsstring * jsstring) :=
  match e with element _ attrs _ => attrs end.

(** The descendants of an element in document order. *)
Fixpoint descendants (e : Element) : list Element :=
  match e with
  | element _ _ cs => flat_map (fun c => c :: descendants c) cs
  end.

(** [xmlDoc.getElementsByTagName(name)], [root] being the document element. *)
Definition getElementsByTagName (root : Element) (name : jsstring) : list Element :=
  filter (fun e => jsstring_eqb (tagName e) name) (root :: descendants root).

(** [e.getAttribute(name)]; [None] is [null]. *)
Definition getAttribute (e : Element) (name : jsstring) : option jsstring :=
  option_map snd (find (fun a => jsstring_eqb (fst a) name) (attributes e)).

(** ** The metadata object *)

Record Meta := mkMeta {
  width : option Z;
  height : option Z;
  xResolution : option float;
  yResolution : option float;
  physicalSizeX : option float;
  physicalSizeY : option float;
  physicalSizeZ : option float;
  physicalSizeUnit : option jsstring;
  timeIncrement : option float;
  timeIncrementUnit : option jsstring;
  frameRate : option float
}.

(** The object [{}]: every property reads as [undefined]. *)
Definition emptyMeta : Meta :=
  mkMeta None None None None None None None None None None None.

Definition set_physicalSizeX (v : float) (m : Meta) : Meta :=
  mkMeta (width m) (height m) (xResolution m) (yResolution m) (Some v)
    (physicalSizeY m) (physicalSizeZ m) (physicalSizeUnit m) (timeIncrement m)
    (timeIncrementUnit m) (frameRate m).
Definition set_physicalSizeY (v : float) (m : Meta) : Meta :=
  mkMeta (width m) (height m) (xResolution m) (yResolution m) (physicalSizeX m)
    (Some v) (physicalSizeZ m) (physicalSizeUnit m) (timeIncrement m)
    (timeIncrementUnit m) (frameRate m).
Definition set_physicalSizeZ (v : float) (m : Meta) : Meta :=
  mkMeta (width m) (height m) (xResolution m) (yResolution m) (physicalSizeX m)
    (physicalSizeY m) (Some v) (physicalSizeUnit m) (timeIncrement m)
    (timeIncrementUnit m) (frameRate m).
Definition set_physicalSizeUnit (v : jsstring) (m : Meta) : Meta :=
  mkMeta (width m) (height m) (xResolution m) (yResolution m) (physicalSizeX m)
    (physicalSizeY m) (physicalSizeZ m) (Some v) (timeIncrement m)
    (timeIncrementUnit m) (frameRate m).
Definition set_timeIncrement (v : float) (m : Meta) : Meta :=
  mkMeta (width m) (height m) (xResolution m) (yResolution m) (physicalSizeX m)
    (physicalSizeY m) (physicalSizeZ m) (physicalSizeUnit m) (Some v)
    (timeIncrementUnit m) (frameRate m).
Definition set_timeIncrementUnit (v : jsstring) (m : Meta) : Meta :=
  mkMeta (width m) (height m) (xResolution m) (yResolution m) (physicalSizeX m)
    (physicalSizeY m) (physicalSizeZ m) (physicalSizeUnit m) (timeIncrement m)
    (Some v) (frameRate m).
Definition set_frameRate (v : float) (m : Meta) : Meta :=
  mkMeta (width m) (height m) (xResolution m) (yResolution m) (physicalSizeX m)
    (physicalSizeY m) (physicalSizeZ m) (physicalSizeUnit m) (timeIncrement m)
    (timeIncrementUnit m) (Some v).

(** ** parseTiffMetadata: the description *)

(** Truthiness of a string that may be [null] or [undefined]. *)
Definition truthyString (s : option jsstring) : bool :=
  match s with
  | Some (_ :: _) => true
  | _ => false
  end.

(** [if (attr) meta.field = f(attr)] *)
Definition whenTruthy {A} (attr : option jsstring) (f : jsstring -> A)
  (set : A -> Meta -> Meta) (meta : Meta) : Meta :=
  match attr with
  | Some (c :: s) => set (f (c :: s)) meta
  | _ => meta
  end.

Definition ws : regex := StarOf isWhiteSpace.
Definition number : regex := Group (PlusOf isDigitOrDot).

(** [/micronsPerPixelX\s*=\s*([0-9.]+)/i] and its three siblings. *)
Definition physicalSizeX_re : regex :=
  seqs [lits "micronsPerPixelX"; ws; Lit 61; ws; number].
Definition physicalSizeY_re : regex :=
  seqs [lits "micronsPerPixelY"; ws; Lit 61; ws; number].
Definition frameRate_re : regex :=
  seqs [lits "frame"; ws; lits "rate"; ws; OneOf isColonOrEquals; ws; number].
Definition timeIncrement_re : regex :=
  seqs [lits "time"; ws; lits "increment"; ws; OneOf isColonOrEquals; ws; number].

(** The [patterns] object, in property order; a key is the assignment
    [meta[key] = v].  All four carry the [i] flag. *)
Definition patterns : list ((float -> Meta -> Meta) * regex) :=
  [ (set_physicalSizeX, physicalSizeX_re);
    (set_physicalSizeY, physicalSizeY_re);
    (set_frameRate, frameRate_re);
    (set_timeIncrement, timeIncrement_re) ].

(** [match[1]]; a missing element reads as [undefined]. *)
Definition capture1 (m : matchResult) : jsstring :=
  nth 0 (captures m) (str "undefined").

(** [const match = description.match(patterns[key]);
     if (match) meta[key] = parseFloat(match[1]);] *)
Definition applyPattern (description : jsstring) (meta : Meta)
  (p : (float -> Meta -> Meta) * regex) : Meta :=
  match exec true (snd p) description with
  | Some m => fst p (parseFloat (capture1 m)) meta
  | None => meta
  end.

Definition interpretText (description : jsstring) (meta : Meta) : Meta :=
  fold_left (applyPattern description) patterns meta.

Definition interpretPixels (pixels : Element) (meta : Meta) : Meta :=
  let physX := getAttribute pixels (str "PhysicalSizeX") in
  let physY := getAttribute pixels (str "PhysicalSizeY") in
  let physZ := getAttribute pixels (str "PhysicalSizeZ") in
  let physUnit :=
    if truthyString (getAttribute pixels (str "PhysicalSizeXUnit"))
    then getAttribute pixels (str "PhysicalSizeXUnit")
    else getAttribute pixels (str "PhysicalSizeYUnit") in
  let timeInc := getAttribute pixels (str "TimeIncrement") in
  let timeUnit := getAttribute pixels (str "TimeIncrementUnit") in
  let frameRate := getAttribute pixels (str "FrameRate") in
  let meta := whenTruthy physX parseFloat set_physicalSizeX meta in
  let meta := whenTruthy physY parseFloat set_physicalSizeY meta in
  let meta := whenTruthy physZ parseFloat set_physicalSizeZ meta in
  let meta := whenTruthy physUnit (fun s => s) set_physicalSizeUnit meta in
  let meta := whenTruthy timeInc parseFloat set_timeIncrement meta in
  let meta := whenTruthy timeUnit (fun s => s) set_timeIncrementUnit meta in
  whenTruthy frameRate parseFloat set_frameRate meta.

Section Parser.
(** [new DOMParser().parseFromString(text, 'application/xml')], given by
    its document element.  The browser supplies it; it does not throw (a
    text that is not well formed yields a [parsererror] document). *)
Variable parseFromString : jsstring -> Element.

Definition interpretXml (description : jsstring) (meta : Meta) : Meta :=
  let xmlDoc := parseFromString description in
  match getElementsByTagName xmlDoc (str "Pixels") with
  | pixels :: _ => interpretPixels pixels meta
  | [] => meta
  end.

(** [if (description) { try { ... } catch (err) {} }] *)
Definition interpretDescription (description : option jsstring) (meta : Meta) : Meta :=
  match description with
  | Some (c :: s) =>
      let description := c :: s in
      if startsWith (trim description) (str "<") then interpretXml description meta
      else interpretText description meta
  | _ => meta
  end.

(** What the traversal leaves in [meta], then the description. *)
Definition finish (st : Locals.t) : Meta :=
  let meta :=
    mkMeta (Locals.width st) (Locals.height st) (Locals.xRes st) (Locals.yRes st)
      None None None None None None None in
  interpretDescription (Locals.description st) meta.

Definition parseTiffMetadata (arrayBuffer : ArrayBuffer) : completion Meta :=
  let view := arrayBuffer in
  h <- readHeader view ;;
  match h with
  | None => Ok emptyMeta
  | Some (littleEndian, firstIFDOffset, numEntries) =>
      st <- forEntries view littleEndian firstIFDOffset
              (Z.to_nat numEntries) 0 Locals.init ;;
      Ok (finish st)
  end.
End Parser.

(** ** handleFile: the report *)

(** [try { meta = parseTiffMetadata(buffer); } catch (err) { meta = {}; }] *)
Definition metaOf (parseFromString : jsstring -> Element) (buffer : ArrayBuffer) : Meta :=
  match parseTiffMetadata parseFromString buffer with
  | Ok meta => meta
  | Throw _ => emptyMeta
  end.

(** Truthiness of a property holding an unsigned integer or [undefined]. *)
Definition truthyInt (v : option Z) : bool :=
  match v with
  | Some n => negb (n =? 0)
  | None => false
  end.

(** Truthiness of a property holding a Number or [undefined]. *)
Definition truthyNumber (v : option float) : bool :=
  match v with
  | Some x => negb (is_zero x || is_nan x)
  | None => false
  end.

(** [${v ?? '?'}] *)
Definition orQuestion {A} (show : A -> jsstring) (v : option A) : jsstring :=
  match v with
  | Some a => show a
  | None => str "?"
  end.

(** [${v}] for a property that was tested truthy; [undefined] otherwise. *)
Definition shown (v : option float) : jsstring :=
  match v with
  | Some x => numberToString x
  | None => str "undefined"
  end.

Definition nl : jsstring := [10].

(** [/micro|Micro/] *)
Definition microRegex : regex := Alt (lits "micro") (lits "Micro").

(** ['μm'] *)
Definition microReplacement : jsstring := [0x03bc; 109].

Definition sizeUnit (meta : Meta) : jsstring :=
  match physicalSizeUnit meta with
  | Some (c :: s) => str " " ++ replace false microRegex microReplacement (c :: s)
  | _ => str " units"
  end.

Definition timeUnitOf (meta : Meta) : jsstring :=
  match timeIncrementUnit meta with
  | Some (c :: s) => str " " ++ c :: s
  | _ => str " s"
  end.

Definition headerLines (fileName sizeText : jsstring) : jsstring :=
  str "File: " ++ fileName ++ nl ++ str "Size: " ++ sizeText ++ str " bytes".

Definition dimensionLines (meta : Meta) : jsstring :=
  if truthyInt (width meta) || truthyInt (height meta) then
    nl ++ str "Width: " ++ orQuestion decimalString (width meta) ++ str " px"
    ++ nl ++ str "Height: " ++ orQuestion decimalString (height meta) ++ str " px"
  else [].

Definition resolutionLines (meta : Meta) : jsstring :=
  if truthyNumber (xResolution meta) || truthyNumber (yResolution meta) then
    nl ++ str "X Resolution: " ++ orQuestion numberToString (xResolution meta)
    ++ nl ++ str "Y Resolution: " ++ orQuestion numberToString (yResolution meta)
  else [].

Definition pixelSizeLine (axis : string) (v : option float) (unit : jsstring) : jsstring :=
  if truthyNumber v then nl ++ str "Pixel Size " ++ str axis ++ str ": " ++ shown v ++ unit
  else [].

Definition pixelSizeLines (meta : Meta) : jsstring :=
  if truthyNumber (physicalSizeX meta) || truthyNumber (physicalSizeY meta)
     || truthyNumber (physicalSizeZ meta) then
    let unit := sizeUnit meta in
    pixelSizeLine "X" (physicalSizeX meta) unit
    ++ pixelSizeLine "Y" (physicalSizeY meta) unit
    ++ pixelSizeLine "Z" (physicalSizeZ meta) unit
  else [].

Definition timeIncrementLine (meta : Meta) : jsstring :=
  if truthyNumber (timeIncrement meta) then
    nl ++ str "Time Increment: " ++ shown (timeIncrement meta) ++ timeUnitOf meta
  else [].

Definition frameRateLine (meta : Meta) : jsstring :=
  if truthyNumber (frameRate meta) then
    nl ++ str "Frame Rate: " ++ shown (frameRate meta) ++ str " Hz"
  else [].

Definition notice : jsstring :=
  nl ++ nl ++ str "Unable to parse metadata from this file.".

Definition noticeLines (meta : Meta) : jsstring :=
  if negb (truthyInt (width meta)) && negb (truthyInt (height meta))
     && negb (truthyNumber (xResolution meta)) && negb (truthyNumber (yResolution meta))
  then notice
  else [].

(** The text [reader.onload] writes to the output element.  [sizeText] is
    [file.size.toLocaleString()], which depends on the browser's locale. *)
Definition report (fileName sizeText : jsstring) (meta : Meta) : jsstring :=
  headerLines fileName sizeText
  ++ dimensionLines meta
  ++ resolutionLines meta
  ++ pixelSizeLines meta
  ++ timeIncrementLine meta
  ++ frameRateLine meta
  ++ noticeLines meta.

Definition handleFile (parseFromString : jsstring -> Element)
  (fileName sizeText : jsstring) (buffer : ArrayBuffer) : jsstring :=
  report fileName sizeText (metaOf parseFromString buffer).

(** ** Sample buffers *)

Definition byteOf (z : Z) : byte :=
  match Byte.of_N (Z.to_N (z mod 256)) with
  | Some b => b
  | None => x00
  end.

Definition bytes (l : list Z) : ArrayBuffer := map byteOf l.

(** A parser that finds no element at all. *)
Definition noXml (text : jsstring) : Element := element (str "parsererror") [] [].

(** A reader for documents made of nested elements with quoted attributes
    and text, enough to stand for the browser's parser on such documents. *)
Module SimpleXml.
Definition isNameChar (c : Z) : bool :=
  ((97 <=? c) && (c <=? 122)) || ((65 <=? c) && (c <=? 90)) || isDigit c
  || (c =? 95) || (c =? 58) || (c =? 45) || (c =? 46).

(** [name="value"] pairs up to the end of the tag. *)
Fixpoint attrs (fuel : nat) (s : jsstring)
  : option (list (jsstring * jsstring) * jsstring) :=
  match fuel with
  | O => None
  | S fuel' =>
      let (name, s1) := span isNameChar (trimStart s) in
      match name with
      | [] => Some ([], s1)
      | _ =>
          match trimStart s1 with
          | 61 :: s2 =>
              match trimStart s2 with
              | q :: s3 =>
                  if (q =? 34) || (q =? 39) then
                    let (value, s4) := span (fun c => negb (c =? q)) s3 in
                    match s4, attrs fuel' (tl s4) with
                    | _ :: _, Some (rest, s5) => Some ((name, value) :: rest, s5)
                    | _, _ => None
                    end
                  else None
              | [] => None
              end
          | _ => None
          end
      end
  end.

Fixpoint elem (fuel : nat) (s : jsstring) : option (Element * jsstring) :=
  match fuel, s with
  | S fuel', 60 :: s1 =>
      let (name, s2) := span isNameChar s1 in
      match name, attrs (S (List.length s2)) s2 with
      | _ :: _, Some (ats, s3) =>
          match s3 with
          | 47 :: 62 :: s4 => Some (element name ats [], s4)
          | 62 :: s4 =>
              let content :=
                fix content (g : nat) (s : jsstring) : option (list Element * jsstring) :=
                  match g with
                  | O => None
                  | S g' =>
                      let (_, t) := span (fun c => negb (c =? 60)) s in
                      if startsWith t (str "</") then Some ([], skipn 2 t)
                      else
                        match elem fuel' t with
                        | Some (c, t1) =>
                            match content g' t1 with
                            | Some (cs, t2) => Some (c :: cs, t2)
                            | None => None
                            end
                        | None => None
                        end
                  end in
              match content (S (List.length s4)) s4 with
              | Some (cs, s5) =>
                  let (closing, s6) := span isNameChar s5 in
                  match jsstring_eqb closing name, trimStart s6 with
                  | true, 62 :: s7 => Some (element name ats cs, s7)
                  | _, _ => None
                  end
              | None => None
              end
          | _ => None
          end
      | _, _ => None
      end
  | _, _ => None
  end.

Definition parseFromString (text : jsstring) : Element :=
  match elem (S (List.length text)) (trimStart text) with
  | Some (root, rest) =>
      match trimStart rest with
      | [] => root
      | _ => noXml text
      end
  | None => noXml text
  end.
End SimpleXml.

(** The description of the OME example:
    an [OME] root around one [Pixels] element. *)
Definition quote : jsstring := [34].

Definition omeDescription : jsstring :=
  str "<OME><Pixels PhysicalSizeX=" ++ quote ++ str "0.5" ++ quote
  ++ str " PhysicalSizeXUnit=" ++ quote ++ str "micron" ++ quote ++ str "/></OME>".

Definition omePixels : Element :=
  element (str "Pixels")
    [(str "PhysicalSizeX", str "0.5"); (str "PhysicalSizeXUnit", str "micron")] [].

Definition omeDocument : Element := element (str "OME") [] [omePixels].

(** * main.js: the theme toggle

    The page state the two versions of main.js read and write: the class
    list of the root element, the [theme] item of localStorage, whether
    localStorage can be used at all (its calls throw otherwise, and every
    call of the source sits in a try/catch), and the text of the toggle
    button when the page has one. *)

Record page := mkPage {
  classList : list jsstring;
  themeItem : option jsstring;
  storageWorks : bool;
  buttonText : option jsstring
}.

(** DOMTokenList: [contains], [add], [remove]. *)
Definition contains (classes : list jsstring) (token : jsstring) : bool :=
  existsb (jsstring_eqb token) classes.

Definition add (classes : list jsstring) (token : jsstring) : list jsstring :=
  if contains classes token then classes else classes ++ [token].

Definition remove (classes : list jsstring) (token : jsstring) : list jsstring :=
  filter (fun t => negb (jsstring_eqb t token)) classes.

(** [try { return localStorage.getItem('theme'); } catch (e) { return null; }] *)
Definition getItem (p : page) : option jsstring :=
  if storageWorks p then themeItem p else None.

(** [try { localStorage.setItem('theme', value); } catch (e) {}] *)
Definition setItem (value : jsstring) (p : page) : page :=
  if storageWorks p then mkPage (classList p) (Some value) true (buttonText p) else p.

(** The sun and the moon of the button. *)
Definition sun : jsstring := [0x2600; 0xFE0F].
Definition moon : jsstring := [0xD83C; 0xDF19].

(** [root.classList.add('dark')] or [root.classList.remove('dark')] *)
Definition applyTheme (theme : jsstring) (p : page) : page :=
  mkPage
    (if jsstring_eqb theme (str "dark") then add (classList p) (str "dark")
     else remove (classList p) (str "dark"))
    (themeItem p) (storageWorks p) (buttonText p).

(** [updateIcon] and [refreshIcon]: nothing without a button. *)
Definition updateIcon (p : page) : page :=
  match buttonText p with
  | None => p
  | Some _ =>
      mkPage (classList p) (themeItem p) (storageWorks p)
        (Some (if contains (classList p) (str "dark") then sun else moon))
  end.

(** [currentlyDark ? 'light' : 'dark'] *)
Definition nextTheme (p : page) : jsstring :=
  if contains (classList p) (str "dark") then str "light" else str "dark".

(** The version with the 3D placeholder comment. *)
Module Placeholder.
(** The statements run when the script loads. *)
Definition load (p : page) : page :=
  let storedTheme := getItem p in
  let p :=
    match storedTheme with
    | Some t =>
        if jsstring_eqb t (str "dark") || jsstring_eqb t (str "light")
        then applyTheme t p else p
    | None => p
    end in
  updateIcon p.

(** The click listener, registered when there is a button. *)
Definition click (p : page) : page :=
  match buttonText p with
  | None => p
  | Some _ =>
      let next := nextTheme p in
      updateIcon (setItem next (applyTheme next p))
  end.
End Placeholder.

(** The version that keeps tabs in sync. *)
Module Sync.
Definition load (p : page) : page :=
  let p :=
    match getItem p with
    | Some (c :: s) => applyTheme (c :: s) p
    | _ => p
    end in
  match buttonText p with
  | None => p
  | Some _ => updateIcon p
  end.

Definition click (p : page) : page :=
  match buttonText p with
  | None => p
  | Some _ =>
      let next := nextTheme p in
      updateIcon (applyTheme next (setItem next p))
  end.

(** The [storage] listener, given [e.key] and [e.newValue]. *)
Definition storage (key newValue : option jsstring) (p : page) : page :=
  match key, newValue with
  | Some k, Some v =>
      if jsstring_eqb k (str "theme")
         && (jsstring_eqb v (str "dark") || jsstring_eqb v (str "light"))
      then updateIcon (applyTheme v p) else p
  | _, _ => p
  end.
End Sync.

(** * Vocabulary of the properties *)

(** ** Numbers *)

(** The non-negative integers that are Numbers: a significand of at most
    53 bits times a power of two (below 2^1024). *)
Definition isNumber (d : Z) : Prop :=
  exists m k, 0 <= k /\ 0 <= m < 2 ^ 53 /\ d = m * 2 ^ k.

(** The integer a finite non-negative binary64 value holds. *)
Definition integerOf (x : float) : Z :=
  match Prim2SF x with
  | S754_finite false m e => Z.shiftl (Zpos m) e
  | _ => 0
  end.

(** ** The header bytes *)

(** The byte order the parser detects, and the magic number it reads in
    that order, from the first four bytes. *)
Definition markerLittleEndian (b0 b1 : byte) : bool :=
  (u8 b0 =? 0x49) && (u8 b1 =? 0x49).

Definition magicNumber (b0 b1 b2 b3 : byte) : Z :=
  if markerLittleEndian b0 b1 then u8 b3 * 256 + u8 b2 else u8 b2 * 256 + u8 b3.

(** ** Directory entries *)

(** The 12 bytes of entry [i] end inside the buffer. *)
Definition inSpan (view : ArrayBuffer) (firstIFDOffset : Z) (i : Z) : Prop :=
  firstIFDOffset + 2 + i * 12 + 12 <= byteLength view.

(** Entry [i] lies inside the buffer and carries [tag], [type] and
    [count]; its value is at [valueOffset], inline or pointed to and
    fitting. *)
Record decodes (view : ArrayBuffer) (littleEndian : bool) (firstIFDOffset : Z)
  (i tag type count valueOffset : Z) : Prop := {
  decodes_span : inSpan view firstIFDOffset i;
  decodes_tag :
    getUint16 view (firstIFDOffset + 2 + i * 12) littleEndian = Ok tag;
  decodes_type :
    getUint16 view (firstIFDOffset + 2 + i * 12 + 2) littleEndian = Ok type;
  decodes_count :
    getUint32 view (firstIFDOffset + 2 + i * 12 + 4) littleEndian = Ok count;
  decodes_value :
    valueLocation view littleEndian (firstIFDOffset + 2 + i * 12)
      (typeSize type * count) = Ok (Some valueOffset)
}.

(** What [entryStep] does with a decoded entry. *)
Definition assign (view : ArrayBuffer) (littleEndian : bool)
  (st : Locals.t) (tag type size valueOffset : Z) : completion Locals.t :=
  if tag =? 0x0100 then
    w <- readDimension view littleEndian type valueOffset ;;
    Ok (Locals.mk (Some w) (Locals.height st) (Locals.xRes st) (Locals.yRes st)
          (Locals.description st))
  else if tag =? 0x0101 then
    h <- readDimension view littleEndian type valueOffset ;;
    Ok (Locals.mk (Locals.width st) (Some h) (Locals.xRes st) (Locals.yRes st)
          (Locals.description st))
  else if tag =? 0x011A then
    x <- readRational view littleEndian valueOffset ;;
    Ok (Locals.mk (Locals.width st) (Locals.height st) x (Locals.yRes st)
          (Locals.description st))
  else if tag =? 0x011B then
    y <- readRational view littleEndian valueOffset ;;
    Ok (Locals.mk (Locals.width st) (Locals.height st) (Locals.xRes st) y
          (Locals.description st))
  else if tag =? 0x010E then
    d <- readDescription view valueOffset size ;;
    Ok (Locals.mk (Locals.width st) (Locals.height st) (Locals.xRes st) (Locals.yRes st)
          (Some d))
  else Ok st.

(** Entry [j] is not decoded as an entry of [tag]: it does not lie inside
    the buffer, it carries another tag, or its pointed value does not fit
    (the two [continue] and the other branches of the [if] chain). *)
Definition notDecoded (view : ArrayBuffer) (littleEndian : bool) (firstIFDOffset : Z)
  (tag j : Z) : Prop :=
  forall type count valueOffset,
    ~ decodes view littleEndian firstIFDOffset j tag type count valueOffset.

(** No resolution entry of the directory has a rational that leaves the
    buffer. *)
Definition rationalsInside (view : ArrayBuffer) (littleEndian : bool)
  (firstIFDOffset numEntries : Z) : Prop :=
  forall j tag type count valueOffset,
    0 <= j < numEntries ->
    tag = 0x011A \/ tag = 0x011B ->
    decodes view littleEndian firstIFDOffset j tag type count valueOffset ->
    valueOffset + 8 <= byteLength view.

(** ** Resolution entries *)

Inductive axis := X | Y.

Definition resolutionTag (a : axis) : Z :=
  match a with X => 0x011A | Y => 0x011B end.

Definition localResolution (a : axis) (st : Locals.t) : option float :=
  match a with X => Locals.xRes st | Y => Locals.yRes st end.

Definition metaResolution (a : axis) (m : Meta) : option float :=
  match a with X => xResolution m | Y => yResolution m end.

(** [denom ? num / denom : undefined] *)
Definition ratio (num denom : Z) : option float :=
  if denom =? 0 then None else Some (of_uint32 num / of_uint32 denom)%float.

(** ** Geometry fields *)

Definition sameGeometry (m m' : Meta) : Prop :=
  width m' = width m /\ height m' = height m
  /\ xResolution m' = xResolution m /\ yResolution m' = yResolution m.

Definition geometryKept {A} (set : A -> Meta -> Meta) : Prop :=
  forall v m, sameGeometry m (set v m).

(** The metadata with the zeros that the report hides made absent: a pair
    (width, height) or (xResolution, yResolution) none of whose members is
    truthy is dropped. *)
Definition withoutHiddenZeros (m : Meta) : Meta :=
  let dims := truthyInt (width m) || truthyInt (height m) in
  let res := truthyNumber (xResolution m) || truthyNumber (yResolution m) in
  mkMeta (if dims then width m else None) (if dims then height m else None)
    (if res then xResolution m else None) (if res then yResolution m else None)
    (physicalSizeX m) (physicalSizeY m) (physicalSizeZ m) (physicalSizeUnit m)
    (timeIncrement m) (timeIncrementUnit m) (frameRate m).

(** ** Buffers *)

Definition u16bytes (le : bool) (v : Z) : list Z :=
  if le then [v mod 256; v / 256] else [v / 256; v mod 256].

Definition u32bytes (le : bool) (v : Z) : list Z :=
  let bs := [v / 16777216; (v / 65536) mod 256; (v / 256) mod 256; v mod 256] in
  if le then rev bs else bs.

(** Byte-order marker, magic 42, the directory at offset 8, and one entry:
    ImageWidth, type 3 (short), count 1, the value inline. *)
Definition minimalTiff (le : bool) (imageWidth : Z) : ArrayBuffer :=
  bytes ((if le then [0x49; 0x49] else [0x4D; 0x4D])
         ++ u16bytes le 42 ++ u32bytes le 8
         ++ u16bytes le 1
         ++ u16bytes le 0x0100 ++ u16bytes le 3 ++ u32bytes le 1
         ++ u16bytes le imageWidth ++ [0; 0]
         ++ u32bytes le 0).

(** One XResolution entry of type 5 (rational) pointing at [72 / denom]. *)
Definition resolutionTiff (denom : Z) : ArrayBuffer :=
  bytes [0x49; 0x49; 42; 0;  8; 0; 0; 0;  1; 0;
         0x1A; 0x01;  5; 0;  1; 0; 0; 0;  26; 0; 0; 0;
         0; 0; 0; 0;
         72; 0; 0; 0;  denom; 0; 0; 0].

(** A two-entry directory cut in the middle of its second entry: the
    ImageWidth entry is kept, nothing is thrown. *)
Definition truncatedTiff : ArrayBuffer :=
  bytes [0x49; 0x49; 42; 0;  8; 0; 0; 0;  2; 0;
         0x00; 0x01;  3; 0;  1; 0; 0; 0;  100; 0; 0; 0;
         0x01; 0x01;  3; 0;  1; 0].

(** A two-entry directory that ends with its last entry: ImageWidth = 100,
    then an XResolution entry of type 3 (short) and count 1, so that its
    value is taken to be inline. *)
Definition overreadTiff : ArrayBuffer :=
  bytes [0x49; 0x49; 42; 0;  8; 0; 0; 0;  2; 0;
         0x00; 0x01;  3; 0;  1; 0; 0; 0;  100; 0; 0; 0;
         0x1A; 0x01;  3; 0;  1; 0; 0; 0;  72; 0; 0; 0].

(** The rational 72 / 2 at offset 8 and the directory at offset 16: an
    XResolution entry of type 5 (rational) pointing at it, then a
    YResolution entry of type 3 (short) and count 1 with which the buffer
    ends. *)
Definition lostResolutionTiff : ArrayBuffer :=
  bytes [0x49; 0x49; 42; 0;  16; 0; 0; 0;
         72; 0; 0; 0;  2; 0; 0; 0;
         2; 0;
         0x1A; 0x01;  5; 0;  1; 0; 0; 0;  8; 0; 0; 0;
         0x1B; 0x01;  3; 0;  1; 0; 0; 0;  72; 0; 0; 0].

(** A three-entry directory cut after the first two bytes of its third
    entry: ImageWidth = 100, an XResolution entry of type 3 (short) and
    count 1, and the tag of an ImageLength entry. *)
Definition cutTiff : ArrayBuffer :=
  bytes [0x49; 0x49; 42; 0;  8; 0; 0; 0;  3; 0;
         0x00; 0x01;  3; 0;  1; 0; 0; 0;  100; 0; 0; 0;
         0x1A; 0x01;  3; 0;  1; 0; 0; 0;  72; 0; 0; 0;
         0x01; 0x01].

(** The ten bytes that are missing in [cutTiff]: the rest of the
    ImageLength entry, with the value 5. *)
Definition cutAway : ArrayBuffer := bytes [3; 0;  1; 0; 0; 0;  5; 0; 0; 0].

(** ImageWidth = 7, then an ImageWidth entry of type 4 (long) and count 2
    whose value is pointed to at offset 1000, outside the buffer. *)
Definition skippedWidthTiff : ArrayBuffer :=
  bytes [0x49; 0x49; 42; 0;  8; 0; 0; 0;  2; 0;
         0x00; 0x01;  3; 0;  1; 0; 0; 0;  7; 0; 0; 0;
         0x00; 0x01;  4; 0;  2; 0; 0; 0;  0xE8; 0x03; 0; 0].

(** ImageWidth = 0 and ImageLength = 5. *)
Definition zeroWidthTiff : ArrayBuffer :=
  bytes [0x49; 0x49; 42; 0;  8; 0; 0; 0;  2; 0;
         0x00; 0x01;  3; 0;  1; 0; 0; 0;  0; 0; 0; 0;
         0x01; 0x01;  3; 0;  1; 0; 0; 0;  5; 0; 0; 0;
         0; 0; 0; 0].

(** ImageLength = 5 alone. *)
Definition heightOnlyTiff : ArrayBuffer :=
  bytes [0x49; 0x49; 42; 0;  8; 0; 0; 0;  1; 0;
         0x01; 0x01;  3; 0;  1; 0; 0; 0;  5; 0; 0; 0;
         0; 0; 0; 0].

(** ** Descriptions *)

(** The double nearest to 0.3: what the literal [0.3] denotes. *)
Definition threeTenths : float := 0x1.3333333333333p-2%float.

(** The field a pattern leaves: the parsed capture on a match, the old
    value otherwise. *)
Definition fieldAfter (r : regex) (old : option float) (description : jsstring)
  : option float :=
  match exec true r description with
  | Some m => Some (parseFloat (capture1 m))
  | None => old
  end.

Definition textDescription : jsstring := str "micronsPerPixelX = 0.3, frame rate = 30".

(** ** Letter case *)

Definition foldCase (s : jsstring) : jsstring := map (canonicalize true) s.

(** Two strings that differ in the case of ASCII letters only. *)
Definition sameLetters (s s' : jsstring) : Prop := foldCase s = foldCase s'.

(** The strings a regular expression can consume under the [i] flag. *)
Inductive consumes : regex -> jsstring -> Prop :=
| consumes_Empty : consumes Empty []
| consumes_Lit c x :
    canonicalize true x = canonicalize true c -> consumes (Lit c) [x]
| consumes_OneOf (set : Z -> bool) x : set x = true -> consumes (OneOf set) [x]
| consumes_StarOf (set : Z -> bool) u :
    Forall (fun x => set x = true) u -> consumes (StarOf set) u
| consumes_Seq r1 r2 u1 u2 :
    consumes r1 u1 -> consumes r2 u2 -> consumes (Seq r1 r2) (u1 ++ u2)
| consumes_Alt_l r1 r2 u : consumes r1 u -> consumes (Alt r1 r2) u
| consumes_Alt_r r1 r2 u : consumes r2 u -> consumes (Alt r1 r2) u
| consumes_Group r u : consumes r u -> consumes (Group r) u.

(** Sets that do not tell the case of a letter, groups that capture no
    letter. *)
Fixpoint caseClosed (r : regex) : Prop :=
  match r with
  | Empty | Lit _ => True
  | OneOf set | StarOf set => forall x, set (canonicalize true x) = set x
  | Seq r1 r2 | Alt r1 r2 => caseClosed r1 /\ caseClosed r2
  | Group r' => caseClosed r' /\ forall u, consumes r' u -> foldCase u = u
  end.

Definition related {A B} (Q : A -> B -> Prop) (x : option A) (y : option B) : Prop :=
  match x, y with
  | Some a, Some b => Q a b
  | None, None => True
  | _, _ => False
  end.

(** The continuations agree wherever [r] can hand over. *)
Definition agree {A B : Type} (Q : A -> B -> Prop) (r : regex) (s s' : jsstring)
  (k : jsstring -> list jsstring -> option A)
  (k' : jsstring -> list jsstring -> option B) : Prop :=
  forall u u' t t' caps,
    s = u ++ t -> s' = u' ++ t' -> sameLetters u u' -> sameLetters t t' ->
    consumes r u -> consumes r u' ->
    related Q (k t caps) (k' t' caps).

Definition sameCaptures (m m' : matchResult) : Prop := captures m = captures m'.

(** ** Tactics *)

(** Split on the completion at the head of a [bind] in [H]. *)
Ltac read_in H :=
  match type of H with
  | bind ?c _ = _ => destruct c eqn:?; cbn [bind] in H; [|discriminate]
  end.

(** ** The variables of the traversal *)

(** The five [let] variables, named by the tag that assigns them. *)
Inductive variable :=
| ImageWidth | ImageLength | XResolution | YResolution | ImageDescription.

Definition variableTag (v : variable) : Z :=
  match v with
  | ImageWidth => 0x0100
  | ImageLength => 0x0101
  | XResolution => 0x011A
  | YResolution => 0x011B
  | ImageDescription => 0x010E
  end.

(** [st'] holds in [v] what [st] holds. *)
Definition keeps (v : variable) (st st' : Locals.t) : Prop :=
  match v with
  | ImageWidth => Locals.width st' = Locals.width st
  | ImageLength => Locals.height st' = Locals.height st
  | XResolution => Locals.xRes st' = Locals.xRes st
  | YResolution => Locals.yRes st' = Locals.yRes st
  | ImageDescription => Locals.description st' = Locals.description st
  end.

(** The bytes before the first zero byte. *)
Fixpoint untilNul (bs : list Z) : list Z :=
  match bs with
  | [] => []
  | b :: bs' => if b =? 0 then [] else b :: untilNul bs'
  end.

(** ** The unit of the pixel size *)

(** [unit.replace(/micro|Micro/, 'μm')] *)
Definition replaceMicro (unit : jsstring) : jsstring :=
  replace false microRegex microReplacement unit.

(** [micro] or [Micro] starts [s]. *)
Definition microAt (s : jsstring) : bool :=
  startsWith s (str "micro") || startsWith s (str "Micro").

(** ** Attributes and key-value texts *)



(** What follows a number: the end of the text or a character that is
    neither a digit nor a dot. *)
Definition endsNumber (rest : jsstring) : bool :=
  match rest with
  | [] => true
  | c :: _ => negb (isDigitOrDot c)
  end.

(** No character of [s] is the letter [c], in either case. *)
Definition without (c : Z) (s : jsstring) : Prop :=
  Forall (fun x => canonicalize true x <> canonicalize true c) s.

(** ** The theme a page shows *)

Definition isDark (p : page) : bool := contains (classList p) (str "dark").

(** The name under which the shown theme is stored. *)
Definition shownTheme (p : page) : jsstring :=
  if isDark p then str "dark" else str "light".

(** The icon that offers the other theme. *)
Definition shownIcon (p : page) : jsstring := if isDark p then sun else moon.

(** * Properties *)

(** ** The platform on examples *)

Example exec_example :
  option_map captures
    (exec true (seqs [lits "ab"; StarOf isWhiteSpace; Group (PlusOf isDigit)]) (str "xAB  12c"))
  = Some [str "12"].
Proof. vm_compute. reflexivity. Qed.

Example simpleXml_ome : SimpleXml.parseFromString omeDescription = omeDocument.
Proof. vm_compute. reflexivity. Qed.

(** ** DataView reads *)

Lemma gtb_false_iff (a b : Z) : (a >? b) = false <-> a <= b.
Proof. rewrite Z.gtb_ltb, Z.ltb_ge. reflexivity. Qed.

Lemma gtb_true_iff (a b : Z) : (a >? b) = true <-> b < a.
Proof. rewrite Z.gtb_ltb, Z.ltb_lt. reflexivity. Qed.

Lemma getUint_in_bounds (n : nat) (view : ArrayBuffer) (offset : Z) (le : bool) :
  0 <= offset -> offset + Z.of_nat n <= byteLength view ->
  getUint n view offset le =
  Ok (numeric (let bs := map u8 (firstn n (skipn (Z.to_nat offset) view)) in
               if le then rev bs else bs)).
Proof.
  intros H0 Hn. unfold getUint, rawBytes.
  apply Z.ltb_ge in H0. apply gtb_false_iff in Hn.
  rewrite H0, Hn. reflexivity.
Qed.

Lemma getUint_returns (n : nat) (view : ArrayBuffer) (offset : Z) (le : bool) :
  0 <= offset -> offset + Z.of_nat n <= byteLength view ->
  exists v, getUint n view offset le = Ok v.
Proof. intros H0 Hn. eexists. apply getUint_in_bounds; assumption. Qed.

Lemma getUint_past_end (n : nat) (view : ArrayBuffer) (offset : Z) (le : bool) :
  byteLength view < offset + Z.of_nat n ->
  getUint n view offset le = Throw RangeError.
Proof.
  intros H. unfold getUint, rawBytes.
  apply gtb_true_iff in H. rewrite H, orb_true_r. reflexivity.
Qed.

Lemma getUint_Ok_bounds (n : nat) (view : ArrayBuffer) (offset : Z) (le : bool) (v : Z) :
  getUint n view offset le = Ok v ->
  0 <= offset /\ offset + Z.of_nat n <= byteLength view.
Proof.
  unfold getUint, rawBytes.
  destruct (offset <? 0) eqn:H0; [discriminate|].
  destruct (offset + Z.of_nat n >? byteLength view) eqn:Hn; [discriminate|].
  intros _. apply Z.ltb_ge in H0. apply gtb_false_iff in Hn. split; assumption.
Qed.

Lemma byteLength_nonneg (view : ArrayBuffer) : 0 <= byteLength view.
Proof. unfold byteLength. lia. Qed.

Lemma u8_range (b : byte) : 0 <= u8 b < 256.
Proof. unfold u8. pose proof (Byte.to_N_bounded b). lia. Qed.

(** ** Integers as Numbers *)

Lemma binary64_small (z : Z) : z < 2 ^ 53 -> binary64 z = z.
Proof.
  intros H. unfold binary64.
  destruct (Z.leb_spec (Z.log2 z - 52) 0) as [|He]; [reflexivity|].
  exfalso. destruct (Z.le_gt_cases z 0) as [Hz|Hz].
  - rewrite Z.log2_nonpos in He by assumption. lia.
  - assert (Z.log2 z < 53) by (apply Z.log2_lt_pow2; lia). lia.
Qed.

(** The shape of a rounded integer: [q] holds the 53 leading bits, [r] the
    [e] bits below them, and the result is the nearer of [q * 2^e] and
    [(q + 1) * 2^e]. *)
Lemma binary64_cases (z : Z) :
  0 <= z ->
  z < 2 ^ 53 /\ binary64 z = z
  \/ exists e q r,
       0 < e /\ e = Z.log2 z - 52 /\ z = q * 2 ^ e + r /\ 0 <= r < 2 ^ e
       /\ 2 ^ 52 <= q < 2 ^ 53
       /\ (2 * r <= 2 ^ e /\ binary64 z = q * 2 ^ e
           \/ 2 ^ e <= 2 * r /\ binary64 z = (q + 1) * 2 ^ e).
Proof.
  intros Hz. unfold binary64.
  destruct (Z.leb_spec (Z.log2 z - 52) 0) as [Hs|He].
  { left. split; [|reflexivity].
    destruct (Z.eq_dec z 0) as [->|]; [reflexivity|].
    pose proof (Z.log2_spec z ltac:(lia)) as [_ Hi].
    assert (2 ^ Z.succ (Z.log2 z) <= 2 ^ 53) by (apply Z.pow_le_mono_r; lia). lia. }
  right. set (e := Z.log2 z - 52) in *.
  assert (Hz' : 0 < z).
  { destruct (Z.eq_dec z 0) as [->|]; [|lia]. unfold e in He. simpl in He. lia. }
  pose proof (Z.log2_spec z Hz') as [Lo Hi].
  assert (P : 0 < 2 ^ e) by (apply Z.pow_pos_nonneg; lia).
  pose proof (Z.div_mod z (2 ^ e) ltac:(lia)) as DM.
  pose proof (Z.mod_pos_bound z (2 ^ e) P) as MB.
  assert (E1 : 2 ^ Z.log2 z = 2 ^ 52 * 2 ^ e).
  { rewrite <- Z.pow_add_r by lia. f_equal. unfold e. lia. }
  assert (E2 : 2 ^ Z.succ (Z.log2 z) = 2 ^ 53 * 2 ^ e).
  { rewrite <- Z.pow_add_r by lia. f_equal. unfold e. lia. }
  assert (E3 : 2 ^ e = 2 * 2 ^ (e - 1)).
  { replace e with (Z.succ (e - 1)) at 1 by lia. apply Z.pow_succ_r. lia. }
  exists e, (z / 2 ^ e), (z mod 2 ^ e).
  split; [exact He|]. split; [reflexivity|]. split; [lia|]. split; [exact MB|].
  split.
  - split.
    + apply Z.div_le_lower_bound; lia.
    + apply Z.div_lt_upper_bound; lia.
  - destruct (Z.ltb_spec (z mod 2 ^ e) (2 ^ (e - 1))); cbn [orb].
    + left. split; [lia | reflexivity].
    + destruct (Z.eqb_spec (z mod 2 ^ e) (2 ^ (e - 1))); cbn [andb].
      * destruct (Z.even (z / 2 ^ e)); [left | right]; (split; [lia | reflexivity]).
      * right. split; [lia | reflexivity].
Qed.

Lemma binary64_nonneg (z : Z) : 0 <= z -> 0 <= binary64 z.
Proof.
  intros Hz.
  destruct (binary64_cases z Hz)
    as [[_ ->]|(e & q & r & He & _ & _ & _ & Hq & [[_ ->]|[_ ->]])];
    [assumption | |];
    assert (0 < 2 ^ e) by (apply Z.pow_pos_nonneg; lia); nia.
Qed.

(** The result is a Number. *)
Lemma binary64_isNumber (z : Z) : 0 <= z -> isNumber (binary64 z).
Proof.
  intros Hz. unfold isNumber.
  destruct (binary64_cases z Hz) as [[Hs ->]|(e & q & r & He & Ee & Ez & Hr & Hq & C)].
  - exists z, 0. lia.
  - assert (P : 0 < 2 ^ e) by (apply Z.pow_pos_nonneg; lia).
    destruct C as [[_ ->]|[_ ->]].
    + exists q, e. lia.
    + destruct (Z.eq_dec (q + 1) (2 ^ 53)) as [T|T].
      * exists (2 ^ 52), (e + 1). rewrite T, Z.pow_add_r by lia.
        split; [lia|]. split; [lia|].
        change (2 ^ 53) with (2 ^ 52 * 2). change (2 ^ 1) with 2. lia.
      * exists (q + 1), e. lia.
Qed.

(** No Number is nearer to [z] than the result. *)
Lemma binary64_nearest (z d : Z) :
  0 <= z -> isNumber d -> Z.abs (binary64 z - z) <= Z.abs (d - z).
Proof.
  intros Hz (m & k & Hk & Hm & ->).
  destruct (binary64_cases z Hz) as [[_ ->]|(e & q & r & He & Ee & Ez & Hr & Hq & C)]; [lia|].
  assert (P : 0 < 2 ^ e) by (apply Z.pow_pos_nonneg; lia).
  assert (Err : Z.abs (binary64 z - z) <= r /\ Z.abs (binary64 z - z) <= 2 ^ e - r)
    by (destruct C as [[Hh ->]|[Hh ->]]; lia).
  destruct Err as [Er1 Er2].
  destruct (Z.le_gt_cases e k) as [Hek|Hek].
  - replace (2 ^ k) with (2 ^ (k - e) * 2 ^ e)
      by (rewrite <- Z.pow_add_r by lia; f_equal; lia).
    assert (0 < 2 ^ (k - e)) by (apply Z.pow_pos_nonneg; lia).
    set (c := m * 2 ^ (k - e)) in *.
    replace (m * (2 ^ (k - e) * 2 ^ e)) with (c * 2 ^ e) by (unfold c; lia).
    destruct (Z.le_gt_cases c q); nia.
  - assert (2 ^ k * 2 <= 2 ^ e).
    { replace e with (k + 1 + (e - k - 1)) by lia.
      rewrite !Z.pow_add_r by lia. change (2 ^ 1) with 2.
      assert (0 < 2 ^ (e - k - 1)) by (apply Z.pow_pos_nonneg; lia).
      assert (0 < 2 ^ k) by (apply Z.pow_pos_nonneg; lia). nia. }
    assert (0 < 2 ^ k) by (apply Z.pow_pos_nonneg; lia).
    assert (m * 2 ^ k < q * 2 ^ e) by nia.
    lia.
Qed.

(** Half way between two Numbers the one with the even significand is
    taken. *)
Lemma binary64_tie (z : Z) :
  let e := Z.log2 z - 52 in
  0 < e -> z mod 2 ^ e = 2 ^ (e - 1) -> Z.even (binary64 z / 2 ^ e) = true.
Proof.
  intros e He Hr. unfold binary64. fold e.
  destruct (Z.leb_spec e 0) as [|_]; [lia|].
  assert (P : 2 ^ e <> 0) by (apply Z.pow_nonzero; lia).
  rewrite Hr, Z.eqb_refl, Z.ltb_irrefl. cbn [orb andb].
  destruct (Z.even (z / 2 ^ e)) eqn:Ev.
  - rewrite Z.div_mul by exact P. exact Ev.
  - rewrite Z.div_mul by exact P. rewrite Z.even_add, Ev. reflexivity.
Qed.

(** A 64-bit value is rounded by less than 2^11, to at most 2^64. *)
Lemma binary64_near (z : Z) :
  0 <= z < 2 ^ 64 -> Z.abs (binary64 z - z) <= 1024 /\ binary64 z <= 2 ^ 64.
Proof.
  intros [Hz Hlt].
  destruct (binary64_cases z Hz) as [[_ ->]|(e & q & r & He & Ee & Ez & Hr & Hq & C)];
    [lia|].
  assert (He' : e <= 11).
  { assert (Z.log2 z < 64); [|lia]. apply Z.log2_lt_pow2; [|assumption].
    destruct (Z.eq_dec z 0) as [->|]; [simpl in Ee; lia | lia]. }
  assert (Hp : 0 < 2 ^ e <= 2 ^ 11)
    by (split; [apply Z.pow_pos_nonneg; lia | apply Z.pow_le_mono_r; lia]).
  assert (E64 : 2 ^ 53 * 2 ^ e <= 2 ^ 53 * 2 ^ 11) by (apply Z.mul_le_mono_nonneg_l; lia).
  change (2 ^ 53 * 2 ^ 11) with (2 ^ 64) in E64. change (2 ^ 11) with 2048 in Hp.
  destruct C as [[Hhalf ->]|[Hhalf ->]]; split; nia.
Qed.

(** A 32-bit word multiplied by 2^32 is a Number as it is. *)
Lemma numberMul_word (h : Z) : 0 <= h < 2 ^ 32 -> numberMul h 0x100000000 = h * 0x100000000.
Proof.
  intros Hh. unfold numberMul.
  destruct (binary64_cases (h * 0x100000000) ltac:(lia))
    as [[_ E]|(e & q & r & He & Ee & Ez & Hr & Hq & C)]; [exact E|].
  assert (He' : e <= 11).
  { assert (Z.log2 (h * 0x100000000) < 64); [|lia].
    apply Z.log2_lt_pow2; [|change (2 ^ 64) with (2 ^ 32 * 0x100000000); nia].
    destruct (Z.eq_dec h 0) as [->|]; [simpl in Ee; lia | lia]. }
  assert (Hp : 0 < 2 ^ e) by (apply Z.pow_pos_nonneg; lia).
  assert (Hr0 : r = 0).
  { assert (M : (h * 0x100000000) mod 2 ^ e = 0).
    { replace 0x100000000 with (2 ^ (32 - e) * 2 ^ e)
        by (rewrite <- Z.pow_add_r by lia; replace (32 - e + e) with 32 by lia; reflexivity).
      rewrite Z.mul_assoc. apply Z.mod_mul. lia. }
    rewrite Ez in M. rewrite Z.add_comm, Z.mod_add in M by lia.
    rewrite Z.mod_small in M by lia. exact M. }
  subst r. destruct C as [[_ ->]|[Hhalf _]]; lia.
Qed.

(** ** The header *)

Lemma readHeader_short (view : ArrayBuffer) :
  byteLength view < 8 -> readHeader view = Ok None.
Proof.
  intros H. unfold readHeader. apply Z.ltb_lt in H. rewrite H. reflexivity.
Qed.

(** C7: a buffer shorter than 8 bytes parses, without an exception, to a
    metadata object in which every field is absent. *)
Theorem short_buffer_empty (parseFromString : jsstring -> Element) (buffer : ArrayBuffer) :
  byteLength buffer < 8 ->
  parseTiffMetadata parseFromString buffer = Ok emptyMeta
  /\ metaOf parseFromString buffer = emptyMeta.
Proof.
  intros H. unfold metaOf, parseTiffMetadata.
  rewrite (readHeader_short _ H). split; reflexivity.
Qed.

Lemma short_buffer_empty_witness :
  parseTiffMetadata noXml (bytes [0x49; 0x49; 42; 0; 8; 0; 0]) = Ok emptyMeta
  /\ metaOf noXml (bytes [0x49; 0x49; 42; 0; 8; 0; 0]) = emptyMeta.
Proof. apply short_buffer_empty. vm_compute. reflexivity. Defined.

(** The first eight bytes of a buffer that has them. *)
Lemma eight_bytes (view : ArrayBuffer) :
  8 <= byteLength view ->
  exists b0 b1 b2 b3 b4 b5 b6 b7 rest,
    view = b0 :: b1 :: b2 :: b3 :: b4 :: b5 :: b6 :: b7 :: rest.
Proof.
  unfold byteLength. intros H.
  do 8 (destruct view as [|? view]; [simpl in H; lia|]).
  repeat eexists.
Qed.

Lemma header_reads (b0 b1 b2 b3 b4 b5 b6 b7 : byte) (rest : list byte) :
  let view := b0 :: b1 :: b2 :: b3 :: b4 :: b5 :: b6 :: b7 :: rest in
  getUint8 view 0 = Ok (u8 b0)
  /\ getUint8 view 1 = Ok (u8 b1)
  /\ getUint16 view 2 (markerLittleEndian b0 b1) = Ok (magicNumber b0 b1 b2 b3).
Proof.
  intros view.
  assert (Hlen : 8 <= byteLength view) by (unfold byteLength, view; simpl List.length; lia).
  unfold getUint8, getUint16, magicNumber.
  rewrite !getUint_in_bounds by (simpl; lia).
  repeat split; simpl; destruct (markerLittleEndian b0 b1); reflexivity.
Qed.

(** C8: in a buffer of at least 8 bytes the magic number is read at offset
    2 in the detected byte order without an exception, and when it is neither
    42 nor 43 the parse returns the all-absent metadata. *)
Theorem bad_magic_empty (parseFromString : jsstring -> Element)
  (b0 b1 b2 b3 b4 b5 b6 b7 : byte) (rest : list byte) :
  getUint16 (b0 :: b1 :: b2 :: b3 :: b4 :: b5 :: b6 :: b7 :: rest) 2
    (markerLittleEndian b0 b1) = Ok (magicNumber b0 b1 b2 b3)
  /\ (magicNumber b0 b1 b2 b3 <> 42 -> magicNumber b0 b1 b2 b3 <> 43 ->
      parseTiffMetadata parseFromString
        (b0 :: b1 :: b2 :: b3 :: b4 :: b5 :: b6 :: b7 :: rest) = Ok emptyMeta
      /\ metaOf parseFromString
        (b0 :: b1 :: b2 :: b3 :: b4 :: b5 :: b6 :: b7 :: rest) = emptyMeta).
Proof.
  destruct (header_reads b0 b1 b2 b3 b4 b5 b6 b7 rest) as (H0 & H1 & H2).
  split; [exact H2|]. intros N42 N43.
  assert (E : readHeader (b0 :: b1 :: b2 :: b3 :: b4 :: b5 :: b6 :: b7 :: rest) = Ok None).
  { unfold readHeader.
    replace (byteLength _ <? 8) with false
      by (symmetry; apply Z.ltb_ge; unfold byteLength; simpl List.length; lia).
    rewrite H0, H1. cbn [bind]. fold (markerLittleEndian b0 b1). rewrite H2. cbn [bind].
    apply Z.eqb_neq in N42, N43. rewrite N42, N43. reflexivity. }
  unfold metaOf, parseTiffMetadata. rewrite E. split; reflexivity.
Qed.

Lemma bad_magic_empty_witness :
  parseTiffMetadata noXml [x49; x49; x2c; x00; x08; x00; x00; x00; x01; x00] = Ok emptyMeta
  /\ metaOf noXml [x49; x49; x2c; x00; x08; x00; x00; x00; x01; x00] = emptyMeta.
Proof.
  apply (proj2 (bad_magic_empty noXml x49 x49 x2c x00 x08 x00 x00 x00 [x01; x00]));
    vm_compute; discriminate.
Defined.

(** ** The directory loop *)

Section Loop.
Variable view : ArrayBuffer.
Variable littleEndian : bool.
Variable firstIFDOffset : Z.

Lemma entryStep_beyond (st : Locals.t) (i : Z) :
  ~ inSpan view firstIFDOffset i ->
  entryStep view littleEndian firstIFDOffset st i = Ok st.
Proof.
  unfold inSpan, entryStep. intros H.
  destruct (gtb_true_iff (firstIFDOffset + 2 + i * 12 + 12) (byteLength view)) as [_ G].
  rewrite G by lia. reflexivity.
Qed.

Lemma forEntries_beyond (n : nat) (st : Locals.t) (i : Z) :
  ~ inSpan view firstIFDOffset i ->
  forEntries view littleEndian firstIFDOffset n i st = Ok st.
Proof.
  revert i. induction n as [|n IH]; intros i H; [reflexivity|].
  cbn [forEntries]. rewrite (entryStep_beyond _ _ H). cbn [bind].
  apply IH. unfold inSpan in *. lia.
Qed.

Lemma forEntries_app (a b : nat) (st : Locals.t) (i : Z) :
  forEntries view littleEndian firstIFDOffset (a + b) i st
  = (st' <- forEntries view littleEndian firstIFDOffset a i st ;;
     forEntries view littleEndian firstIFDOffset b (i + Z.of_nat a) st').
Proof.
  revert st i. induction a as [|a IH]; intros st i.
  - cbn [Nat.add forEntries bind]. rewrite Z.add_0_r. reflexivity.
  - cbn [Nat.add forEntries].
    destruct (entryStep view littleEndian firstIFDOffset st i) as [st1|e]; cbn [bind];
      [|reflexivity].
    rewrite IH. replace (i + 1 + Z.of_nat a) with (i + Z.of_nat (S a)) by lia.
    reflexivity.
Qed.

(** Once entry [k] does not fit, raising the entry count changes nothing. *)
Lemma forEntries_truncated (k n : nat) (st : Locals.t) :
  (k <= n)%nat -> ~ inSpan view firstIFDOffset (Z.of_nat k) ->
  forEntries view littleEndian firstIFDOffset n 0 st
  = forEntries view littleEndian firstIFDOffset k 0 st.
Proof.
  intros Hkn Hk. replace n with (k + (n - k))%nat by lia.
  rewrite forEntries_app.
  destruct (forEntries view littleEndian firstIFDOffset k 0 st) as [st'|e]; cbn [bind];
    [|reflexivity].
  apply forEntries_beyond. exact Hk.
Qed.
End Loop.

(** ** Decoding one entry *)

Lemma numeric_nonneg (bs : list Z) :
  Forall (fun b => 0 <= b) bs -> 0 <= numeric bs.
Proof.
  unfold numeric. intros H.
  assert (G : forall acc, 0 <= acc -> 0 <= fold_left (fun acc b => acc * 256 + b) bs acc).
  { induction H as [|b bs Hb _ IH]; intros acc Hacc; cbn [fold_left]; [assumption|].
    apply IH. lia. }
  apply G. lia.
Qed.

Lemma getUint_nonneg (n : nat) (view : ArrayBuffer) (offset : Z) (le : bool) (v : Z) :
  getUint n view offset le = Ok v -> 0 <= v.
Proof.
  intros H. destruct (getUint_Ok_bounds _ _ _ _ _ H) as [H0 Hn].
  rewrite getUint_in_bounds in H by assumption. injection H as <-.
  apply numeric_nonneg. cbv zeta.
  assert (F : Forall (fun b => 0 <= b) (map u8 (firstn n (skipn (Z.to_nat offset) view)))).
  { apply Forall_forall. intros b Hb. apply in_map_iff in Hb as (x & <- & _).
    apply u8_range. }
  destruct le; [apply Forall_rev|]; exact F.
Qed.

Section Entry.
Variable view : ArrayBuffer.
Variable littleEndian : bool.
Variable firstIFDOffset : Z.

Lemma entryStep_decodes (st : Locals.t) (i tag type count valueOffset : Z) :
  decodes view littleEndian firstIFDOffset i tag type count valueOffset ->
  entryStep view littleEndian firstIFDOffset st i
  = assign view littleEndian st tag type (typeSize type * count) valueOffset.
Proof.
  intros [Hspan Htag Htype Hcount Hvalue]. unfold entryStep, inSpan in *.
  destruct (gtb_false_iff (firstIFDOffset + 2 + i * 12 + 12) (byteLength view)) as [_ G].
  rewrite (G Hspan), Htag, Htype, Hcount. cbn [bind]. rewrite Hvalue. cbn [bind].
  unfold assign. destruct st. reflexivity.
Qed.

(** Where a decoded entry's value lies. *)
Lemma decodes_location (i tag type count valueOffset : Z) :
  decodes view littleEndian firstIFDOffset i tag type count valueOffset ->
  let size := typeSize type * count in
  0 <= valueOffset
  /\ (size <= 4 /\ valueOffset = firstIFDOffset + 2 + i * 12 + 8
      \/ 4 < size /\ valueOffset + size <= byteLength view).
Proof.
  intros [Hspan Htag _ _ Hvalue] size. fold size in Hvalue.
  apply getUint_Ok_bounds in Htag as [H0 _].
  unfold valueLocation in Hvalue.
  destruct (Z.leb_spec size 4) as [Hs|Hs].
  - injection Hvalue as <-. split; [lia|]. left. split; [lia|reflexivity].
  - destruct (getUint32 view (firstIFDOffset + 2 + i * 12 + 8) littleEndian)
      as [p|e] eqn:Hp; cbn [bind] in Hvalue; [|discriminate].
    destruct (p + size >? byteLength view) eqn:Hfit; [discriminate|].
    injection Hvalue as <-. apply gtb_false_iff in Hfit.
    apply getUint_nonneg in Hp. split; [assumption|]. right. split; assumption.
Qed.

(** A dimension read of a decoded entry stays inside the buffer. *)
Lemma readDimension_returns (i tag type count valueOffset : Z) :
  decodes view littleEndian firstIFDOffset i tag type count valueOffset ->
  exists v, readDimension view littleEndian type valueOffset = Ok v.
Proof.
  intros D. pose proof (decodes_span _ _ _ _ _ _ _ _ D) as Hspan. unfold inSpan in Hspan.
  destruct (decodes_location _ _ _ _ _ D) as [H0 H]. unfold readDimension.
  destruct (type =? 3); apply getUint_returns; try assumption;
    change (Z.of_nat 2) with 2; change (Z.of_nat 4) with 4; lia.
Qed.
End Entry.

(** ** The minimal classic TIFF *)

Lemma u8_byteOf (z : Z) : u8 (byteOf z) = z mod 256.
Proof.
  unfold u8, byteOf. pose proof (Z.mod_pos_bound z 256 eq_refl) as B.
  destruct (Byte.of_N (Z.to_N (z mod 256))) as [b|] eqn:E.
  - apply Byte.to_of_N in E. rewrite E. lia.
  - apply Byte.of_N_None_iff in E. lia.
Qed.

Lemma minimalTiff_width (parseFromString : jsstring -> Element) (le : bool) (v : Z) :
  0 <= v < 65536 ->
  parseTiffMetadata parseFromString (minimalTiff le v)
  = Ok (mkMeta (Some v) None None None None None None None None None None).
Proof.
  intros Hv.
  assert (Hlo : u8 (byteOf (v mod 256)) = v mod 256)
    by (rewrite u8_byteOf; apply Z.mod_mod; lia).
  assert (Hhi : u8 (byteOf (v / 256)) = v / 256).
  { rewrite u8_byteOf. apply Z.mod_small.
    split; [apply Z.div_pos; lia | apply Z.div_lt_upper_bound; lia]. }
  assert (Hv' : v / 256 * 256 + v mod 256 = v)
    by (pose proof (Z.div_mod v 256); lia).
  unfold minimalTiff, bytes, u16bytes, u32bytes.
  destruct le; cbn [app map rev];
    set (lo := byteOf (v mod 256)) in *; set (hi := byteOf (v / 256)) in *;
    clearbody lo hi; unfold parseTiffMetadata;
    match goal with
    | |- context [readHeader ?b] =>
        set (view := b);
        replace (readHeader view) with (Ok (Some (markerLittleEndian (nth 0 view x00) (nth 1 view x00), 8, 1)))
          by (vm_compute; reflexivity)
    end;
    cbn [bind]; change (Z.to_nat 1) with 1%nat; cbn [forEntries];
    unfold view, markerLittleEndian; cbn [nth];
    [ erewrite (entryStep_decodes _ true 8 Locals.init 0 0x0100 3 1 18)
    | erewrite (entryStep_decodes _ false 8 Locals.init 0 0x0100 3 1 18) ];
    try (constructor; vm_compute; first [reflexivity | discriminate]);
    unfold assign, readDimension; cbn [Z.eqb Pos.eqb];
    unfold getUint16; rewrite getUint_in_bounds by (vm_compute; discriminate);
    change (Z.to_nat 18) with 18%nat; unfold numeric;
    cbn [skipn firstn map rev app fold_left
         bind Locals.height Locals.xRes Locals.yRes Locals.description Locals.init];
    rewrite Hlo, Hhi; cbn [Z.mul Z.add];
    unfold finish, interpretDescription;
    cbn [Locals.width Locals.height Locals.xRes Locals.yRes Locals.description];
    rewrite Hv'; reflexivity.
Qed.

(** C4: an ImageWidth (0x0100) or ImageLength (0x0101) entry is read with a
    16-bit read when its field type is 3 and with a 32-bit read otherwise;
    the read stays inside the buffer and its result becomes the width
    (height).  The minimal classic TIFF whose only entry is ImageWidth of
    type 3 parses to that width, 100 in particular, in either byte order. *)
Theorem dimension_read_by_type (parseFromString : jsstring -> Element) :
  (forall view le ifd st i type count valueOffset,
     decodes view le ifd i 0x0100 type count valueOffset ->
     exists w,
       (if type =? 3 then getUint16 view valueOffset le
        else getUint32 view valueOffset le) = Ok w
       /\ entryStep view le ifd st i
          = Ok (Locals.mk (Some w) (Locals.height st) (Locals.xRes st) (Locals.yRes st)
                  (Locals.description st)))
  /\ (forall view le ifd st i type count valueOffset,
        decodes view le ifd i 0x0101 type count valueOffset ->
        exists h,
          (if type =? 3 then getUint16 view valueOffset le
           else getUint32 view valueOffset le) = Ok h
          /\ entryStep view le ifd st i
             = Ok (Locals.mk (Locals.width st) (Some h) (Locals.xRes st) (Locals.yRes st)
                     (Locals.description st)))
  /\ (forall le v, 0 <= v < 65536 ->
        parseTiffMetadata parseFromString (minimalTiff le v)
        = Ok (mkMeta (Some v) None None None None None None None None None None))
  /\ (forall le,
        parseTiffMetadata parseFromString (minimalTiff le 100)
        = Ok (mkMeta (Some 100) None None None None None None None None None None)).
Proof.
  repeat split.
  - intros view le ifd st i type count vo D.
    destruct (readDimension_returns _ _ _ _ _ _ _ _ D) as [w Hw].
    exists w. split; [exact Hw|].
    rewrite (entryStep_decodes _ _ _ _ _ _ _ _ _ D). unfold assign.
    cbn [Z.eqb Pos.eqb]. rewrite Hw. reflexivity.
  - intros view le ifd st i type count vo D.
    destruct (readDimension_returns _ _ _ _ _ _ _ _ D) as [h Hh].
    exists h. split; [exact Hh|].
    rewrite (entryStep_decodes _ _ _ _ _ _ _ _ _ D). unfold assign.
    cbn [Z.eqb Pos.eqb]. rewrite Hh. reflexivity.
  - intros le v Hv. apply minimalTiff_width. exact Hv.
  - intros le. apply minimalTiff_width. lia.
Qed.

Lemma dimension_read_by_type_witness :
  (exists w,
     getUint16 (minimalTiff true 100) 18 true = Ok w
     /\ entryStep (minimalTiff true 100) true 8 Locals.init 0
        = Ok (Locals.mk (Some w) None None None None))
  /\ parseTiffMetadata noXml (minimalTiff false 100)
     = Ok (mkMeta (Some 100) None None None None None None None None None None).
Proof.
  destruct (dimension_read_by_type noXml) as (Hw & _ & Hv & _).
  split.
  - apply (Hw (minimalTiff true 100) true 8 Locals.init 0 3 1 18).
    constructor; vm_compute; first [reflexivity | discriminate].
  - apply Hv. lia.
Defined.

(** ** Resolution entries *)

Section Resolution.
Variable view : ArrayBuffer.
Variable littleEndian : bool.
Variable firstIFDOffset : Z.
Variable a : axis.

Lemma entryStep_resolution (st : Locals.t) (i type count valueOffset num denom : Z) :
  decodes view littleEndian firstIFDOffset i (resolutionTag a) type count valueOffset ->
  getUint32 view valueOffset littleEndian = Ok num ->
  getUint32 view (valueOffset + 4) littleEndian = Ok denom ->
  exists st',
    entryStep view littleEndian firstIFDOffset st i = Ok st'
    /\ localResolution a st' = ratio num denom.
Proof.
  intros D Hnum Hdenom. rewrite (entryStep_decodes _ _ _ _ _ _ _ _ _ D).
  unfold assign, readRational. rewrite Hnum, Hdenom.
  destruct a; cbn [resolutionTag Z.eqb Pos.eqb bind]; eexists; split; reflexivity.
Qed.

(** An entry with another tag leaves the resolution variable alone. *)
Lemma entryStep_other_tag (st st' : Locals.t) (j : Z) :
  getUint16 view (firstIFDOffset + 2 + j * 12) littleEndian <> Ok (resolutionTag a) ->
  entryStep view littleEndian firstIFDOffset st j = Ok st' ->
  localResolution a st' = localResolution a st.
Proof.
  intros Hother H. unfold entryStep in H.
  destruct (firstIFDOffset + 2 + j * 12 + 12 >? byteLength view);
    [injection H as <-; reflexivity|].
  destruct (getUint16 view (firstIFDOffset + 2 + j * 12) littleEndian) as [tag|e] eqn:Htag;
    cbn [bind] in H; [|discriminate].
  read_in H. read_in H. read_in H.
  match type of H with
  | match ?o with Some _ => _ | None => _ end = _ => destruct o as [valueOffset|]
  end; [|injection H as <-; reflexivity].
  destruct st as [w h x y d].
  destruct (tag =? 0x0100); [read_in H; injection H as <-; destruct a; reflexivity|].
  destruct (tag =? 0x0101); [read_in H; injection H as <-; destruct a; reflexivity|].
  destruct (tag =? 0x011A) eqn:EX.
  { read_in H. injection H as <-. apply Z.eqb_eq in EX. subst tag.
    destruct a; [contradiction Hother; reflexivity | reflexivity]. }
  destruct (tag =? 0x011B) eqn:EY.
  { read_in H. injection H as <-. apply Z.eqb_eq in EY. subst tag.
    destruct a; [reflexivity | contradiction Hother; reflexivity]. }
  destruct (tag =? 0x010E); [read_in H|]; injection H as <-; destruct a; reflexivity.
Qed.

Lemma forEntries_other_tags (n : nat) (st st' : Locals.t) (from : Z) :
  (forall j, from <= j < from + Z.of_nat n ->
     getUint16 view (firstIFDOffset + 2 + j * 12) littleEndian <> Ok (resolutionTag a)) ->
  forEntries view littleEndian firstIFDOffset n from st = Ok st' ->
  localResolution a st' = localResolution a st.
Proof.
  revert st from. induction n as [|n IH]; intros st from Hother H; cbn [forEntries] in H.
  - injection H as <-. reflexivity.
  - destruct (entryStep view littleEndian firstIFDOffset st from) as [st1|e] eqn:E;
      cbn [bind] in H; [|discriminate].
    rewrite (IH st1 (from + 1)); [| intros j Hj; apply Hother; lia | exact H].
    apply (entryStep_other_tag _ _ from); [apply Hother; lia | exact E].
Qed.

(** The last entry for the tag decides the variable after the loop. *)
Lemma forEntries_last_resolution (n : nat) (st' : Locals.t)
  (i type count valueOffset num denom : Z) :
  0 <= i < Z.of_nat n ->
  decodes view littleEndian firstIFDOffset i (resolutionTag a) type count valueOffset ->
  getUint32 view valueOffset littleEndian = Ok num ->
  getUint32 view (valueOffset + 4) littleEndian = Ok denom ->
  (forall j, i < j < Z.of_nat n ->
     getUint16 view (firstIFDOffset + 2 + j * 12) littleEndian <> Ok (resolutionTag a)) ->
  forEntries view littleEndian firstIFDOffset n 0 Locals.init = Ok st' ->
  localResolution a st' = ratio num denom.
Proof.
  intros Hi D Hnum Hdenom Hlater H.
  replace n with (Z.to_nat i + (1 + (n - Z.to_nat i - 1)))%nat in H by lia.
  rewrite forEntries_app in H.
  destruct (forEntries view littleEndian firstIFDOffset (Z.to_nat i) 0 Locals.init)
    as [st0|e]; cbn [bind] in H; [|discriminate].
  rewrite forEntries_app in H. cbn [forEntries] in H.
  replace (0 + Z.of_nat (Z.to_nat i)) with i in H by lia.
  destruct (entryStep_resolution st0 _ _ _ _ _ _ D Hnum Hdenom) as (st1 & E & R).
  rewrite E in H. cbn [bind] in H.
  apply forEntries_other_tags in H; [congruence|].
  intros j Hj. apply Hlater. lia.
Qed.
End Resolution.

(** ** The description never touches the geometry fields *)

Lemma sameGeometry_refl (m : Meta) : sameGeometry m m.
Proof. repeat split. Qed.

Lemma sameGeometry_trans (m1 m2 m3 : Meta) :
  sameGeometry m1 m2 -> sameGeometry m2 m3 -> sameGeometry m1 m3.
Proof. unfold sameGeometry. intuition congruence. Qed.

Lemma setters_keep_geometry :
  geometryKept set_physicalSizeX /\ geometryKept set_physicalSizeY
  /\ geometryKept set_physicalSizeZ /\ geometryKept set_physicalSizeUnit
  /\ geometryKept set_timeIncrement /\ geometryKept set_timeIncrementUnit
  /\ geometryKept set_frameRate.
Proof. repeat split. Qed.

Lemma whenTruthy_geometry {A} (attr : option jsstring) (f : jsstring -> A)
  (set : A -> Meta -> Meta) (m : Meta) :
  geometryKept set -> sameGeometry m (whenTruthy attr f set m).
Proof.
  intros K. unfold whenTruthy. destruct attr as [[|c s]|];
    first [apply K | apply sameGeometry_refl].
Qed.

Lemma interpretPixels_geometry (pixels : Element) (m : Meta) :
  sameGeometry m (interpretPixels pixels m).
Proof.
  destruct setters_keep_geometry as (K1 & K2 & K3 & K4 & K5 & K6 & K7).
  unfold interpretPixels. cbv zeta.
  repeat (eapply sameGeometry_trans; [|apply whenTruthy_geometry; assumption]).
  apply sameGeometry_refl.
Qed.

Lemma applyPattern_geometry (d : jsstring) (m : Meta) (set : float -> Meta -> Meta) (r : regex) :
  geometryKept set -> sameGeometry m (applyPattern d m (set, r)).
Proof.
  intros K. unfold applyPattern. cbn [fst snd].
  destruct (exec true r d); [apply K | apply sameGeometry_refl].
Qed.

Lemma interpretText_geometry (d : jsstring) (m : Meta) :
  sameGeometry m (interpretText d m).
Proof.
  destruct setters_keep_geometry as (K1 & K2 & K3 & K4 & K5 & K6 & K7).
  unfold interpretText, patterns. cbn [fold_left].
  repeat (eapply sameGeometry_trans; [|apply applyPattern_geometry; assumption]).
  apply sameGeometry_refl.
Qed.

Lemma interpretDescription_geometry (parseFromString : jsstring -> Element)
  (description : option jsstring) (m : Meta) :
  sameGeometry m (interpretDescription parseFromString description m).
Proof.
  unfold interpretDescription, interpretXml.
  destruct description as [[|c s]|]; try apply sameGeometry_refl.
  destruct (startsWith _ _); [|apply interpretText_geometry].
  destruct (getElementsByTagName _ _);
    [apply sameGeometry_refl | apply interpretPixels_geometry].
Qed.

Lemma finish_geometry (parseFromString : jsstring -> Element) (st : Locals.t) :
  width (finish parseFromString st) = Locals.width st
  /\ height (finish parseFromString st) = Locals.height st
  /\ xResolution (finish parseFromString st) = Locals.xRes st
  /\ yResolution (finish parseFromString st) = Locals.yRes st.
Proof. unfold finish. apply interpretDescription_geometry. Qed.

Lemma finish_resolution (parseFromString : jsstring -> Element) (a : axis) (st : Locals.t) :
  metaResolution a (finish parseFromString st) = localResolution a st.
Proof.
  destruct (finish_geometry parseFromString st) as (_ & _ & Hx & Hy).
  destruct a; assumption.
Qed.

(** A decoded XResolution (0x011A) or YResolution (0x011B) entry whose
    rational [num / denom] is read inside the buffer sets its variable to
    [undefined] when [denom] is zero and to the quotient otherwise.  When no
    later entry carries the same tag, the field of the reported metadata is
    absent for a zero denominator, and is the quotient for a nonzero one in a
    parse that returns. *)
Lemma resolution_rational (parseFromString : jsstring -> Element) (a : axis)
  (view : ArrayBuffer) (le : bool) (ifd numEntries i type count valueOffset num denom : Z) :
  readHeader view = Ok (Some (le, ifd, numEntries)) ->
  0 <= i < numEntries ->
  decodes view le ifd i (resolutionTag a) type count valueOffset ->
  getUint32 view valueOffset le = Ok num ->
  getUint32 view (valueOffset + 4) le = Ok denom ->
  (forall st, exists st',
      entryStep view le ifd st i = Ok st'
      /\ localResolution a st'
         = if denom =? 0 then None else Some (of_uint32 num / of_uint32 denom)%float)
  /\ ((forall j, i < j < numEntries ->
         getUint16 view (ifd + 2 + j * 12) le <> Ok (resolutionTag a)) ->
      (denom = 0 -> metaResolution a (metaOf parseFromString view) = None)
      /\ (denom <> 0 -> forall meta,
            parseTiffMetadata parseFromString view = Ok meta ->
            metaResolution a meta = Some (of_uint32 num / of_uint32 denom)%float)).
Proof.
  intros Hh Hi D Hnum Hdenom. split.
  { intros st. eapply entryStep_resolution; eassumption. }
  intros Hlater.
  assert (P : forall meta, parseTiffMetadata parseFromString view = Ok meta ->
                           metaResolution a meta = ratio num denom).
  { intros meta H. unfold parseTiffMetadata in H. rewrite Hh in H. cbn [bind] in H.
    read_in H. injection H as <-. rewrite finish_resolution.
    eapply forEntries_last_resolution; eauto.
    - lia.
    - intros j Hj. apply Hlater. lia. }
  split.
  - intros ->. unfold metaOf.
    destruct (parseTiffMetadata parseFromString view) as [meta|e] eqn:E.
    + rewrite (P meta eq_refl). reflexivity.
    + destruct a; reflexivity.
  - intros Hd meta H. rewrite (P meta H). unfold ratio.
    apply Z.eqb_neq in Hd. rewrite Hd. reflexivity.
Qed.

Lemma resolution_rational_witness :
  xResolution (metaOf noXml (resolutionTiff 0)) = None
  /\ forall meta, parseTiffMetadata noXml (resolutionTiff 2) = Ok meta ->
                  xResolution meta = Some (of_uint32 72 / of_uint32 2)%float.
Proof.
  split.
  - apply (resolution_rational noXml X (resolutionTiff 0) true 8 1 0 5 1 26 72 0);
      try reflexivity; try lia.
    constructor; vm_compute; first [reflexivity | discriminate].
  - apply (resolution_rational noXml X (resolutionTiff 2) true 8 1 0 5 1 26 72 2);
      try reflexivity; try lia.
    constructor; vm_compute; first [reflexivity | discriminate].
Defined.

Example resolutionTiff_parses :
  parseTiffMetadata noXml (resolutionTiff 2)
  = Ok (mkMeta None None (Some 36%float) None None None None None None None None).
Proof. vm_compute. reflexivity. Qed.

(** ** Which reads of the traversal can leave the buffer *)

Section Throws.
Variable view : ArrayBuffer.
Variable littleEndian : bool.
Variable firstIFDOffset : Z.

Lemma readChars_returns (valueOffset : Z) (n : nat) (j : Z) (chars : jsstring) :
  0 <= valueOffset + j -> valueOffset + j + Z.of_nat n <= byteLength view ->
  exists s, readChars view valueOffset n j chars = Ok s.
Proof.
  revert j chars. induction n as [|n IH]; intros j chars H0 Hn; cbn [readChars].
  - eexists. reflexivity.
  - destruct (getUint_returns 1 view (valueOffset + j) false) as [c Hc];
      [assumption | lia |].
    unfold getUint8. rewrite Hc. cbn [bind].
    destruct (c =? 0); [eexists; reflexivity|].
    apply IH; lia.
Qed.

Lemma readDescription_returns (valueOffset len : Z) :
  0 <= valueOffset -> exists s, readDescription view valueOffset len = Ok s.
Proof.
  intros H0. unfold readDescription.
  destruct (Z.le_gt_cases (Z.min len (byteLength view - valueOffset)) 0) as [Hn|Hn].
  - replace (Z.to_nat _) with 0%nat by lia. eexists. reflexivity.
  - apply readChars_returns; lia.
Qed.

(** An iteration throws only on a resolution entry whose eight bytes do
    not all lie inside the buffer: the inline case reads four bytes past
    the entry, and the pointed case is checked against [size], not 8. *)
Lemma entryStep_throws (st : Locals.t) (i : Z) (e : exn) :
  0 <= firstIFDOffset -> 0 <= i ->
  entryStep view littleEndian firstIFDOffset st i = Throw e ->
  exists a type count valueOffset,
    decodes view littleEndian firstIFDOffset i (resolutionTag a) type count valueOffset
    /\ byteLength view < valueOffset + 8.
Proof.
  intros Hifd Hi H.
  destruct (Z.le_gt_cases (firstIFDOffset + 2 + i * 12 + 12) (byteLength view)) as [Hspan|Hspan];
    [|rewrite entryStep_beyond in H by (unfold inSpan; lia); discriminate].
  pose (eo := firstIFDOffset + 2 + i * 12).
  destruct (getUint_returns 2 view eo littleEndian) as [tag Htag];
    [unfold eo; lia | unfold eo; change (Z.of_nat 2) with 2; lia |].
  destruct (getUint_returns 2 view (eo + 2) littleEndian) as [type Htype];
    [unfold eo; lia | unfold eo; change (Z.of_nat 2) with 2; lia |].
  destruct (getUint_returns 4 view (eo + 4) littleEndian) as [count Hcount];
    [unfold eo; lia | unfold eo; change (Z.of_nat 4) with 4; lia |].
  destruct (getUint_returns 4 view (eo + 8) littleEndian) as [p Hp];
    [unfold eo; lia | unfold eo; change (Z.of_nat 4) with 4; lia |].
  assert (Hloc : exists loc,
             valueLocation view littleEndian eo (typeSize type * count) = Ok loc).
  { unfold valueLocation. destruct (_ <=? 4); [eexists; reflexivity|].
    fold (getUint32 view (eo + 8) littleEndian) in Hp. rewrite Hp. cbn [bind].
    destruct (_ >? _); eexists; reflexivity. }
  destruct Hloc as [loc Hloc].
  destruct loc as [valueOffset|].
  2:{ unfold entryStep in H. apply gtb_false_iff in Hspan. rewrite Hspan in H.
      fold eo in H. fold (getUint16 view eo littleEndian) in Htag. rewrite Htag in H.
      fold (getUint16 view (eo + 2) littleEndian) in Htype. rewrite Htype in H.
      fold (getUint32 view (eo + 4) littleEndian) in Hcount. rewrite Hcount in H.
      cbn [bind] in H. rewrite Hloc in H. discriminate. }
  assert (D : decodes view littleEndian firstIFDOffset i tag type count valueOffset)
    by (constructor; assumption).
  rewrite (entryStep_decodes _ _ _ _ _ _ _ _ _ D) in H. unfold assign in H.
  destruct (decodes_location _ _ _ _ _ _ _ _ D) as [Hvo _].
  destruct (readDimension_returns _ _ _ _ _ _ _ _ D) as [w Hw].
  destruct (readDescription_returns valueOffset (typeSize type * count) Hvo) as [d Hd].
  rewrite Hw, Hd in H. cbn [bind] in H.
  destruct (tag =? 0x0100); [discriminate|].
  destruct (tag =? 0x0101); [discriminate|].
  assert (R : readRational view littleEndian valueOffset = Throw e ->
              byteLength view < valueOffset + 8).
  { intros HR. destruct (Z.le_gt_cases (valueOffset + 8) (byteLength view)) as [Hfit|Hfit];
      [|lia].
    unfold readRational in HR.
    destruct (getUint_returns 4 view valueOffset littleEndian) as [n Hn];
      [lia | change (Z.of_nat 4) with 4; lia |].
    destruct (getUint_returns 4 view (valueOffset + 4) littleEndian) as [m Hm];
      [lia | change (Z.of_nat 4) with 4; lia |].
    unfold getUint32 in HR. rewrite Hn, Hm in HR. discriminate. }
  destruct (tag =? 0x011A) eqn:EX.
  { apply Z.eqb_eq in EX. subst tag. exists X, type, count, valueOffset.
    split; [exact D|]. apply R.
    destruct (readRational view littleEndian valueOffset) as [x|e0]; [discriminate|].
    destruct e0, e. reflexivity. }
  destruct (tag =? 0x011B) eqn:EY; [|destruct (tag =? 0x010E); discriminate].
  apply Z.eqb_eq in EY. subst tag. exists Y, type, count, valueOffset.
  split; [exact D|]. apply R.
  destruct (readRational view littleEndian valueOffset) as [y|e0]; [discriminate|].
  destruct e0, e. reflexivity.
Qed.
End Throws.

(** ** When the parser throws *)

Lemma getUint64_nonneg (view : ArrayBuffer) (offset : Z) (le : bool) (v : Z) :
  getUint64 view offset le = Ok v -> 0 <= v.
Proof.
  unfold getUint64. intros H. read_in H. read_in H. injection H as <-.
  repeat match goal with
         | E : getUint32 _ _ _ = Ok _ |- _ => apply getUint_nonneg in E
         end.
  destruct le; unfold numberAdd, numberMul; apply binary64_nonneg;
    (apply Z.add_nonneg_nonneg; [apply binary64_nonneg; lia | assumption]).
Qed.

Lemma readHeader_Some (view : ArrayBuffer) (le : bool) (ifd n : Z) :
  readHeader view = Ok (Some (le, ifd, n)) ->
  0 <= ifd /\ ifd + 2 <= byteLength view /\ 0 <= n.
Proof.
  unfold readHeader. intros H.
  destruct (byteLength view <? 8); [discriminate|].
  read_in H. read_in H. read_in H.
  destruct (negb _ && negb _); [discriminate|].
  read_in H.
  match type of H with
  | (if ?g then _ else _) = _ => destruct g eqn:G; [discriminate|]
  end.
  read_in H. injection H as <- <- <-. apply gtb_false_iff in G.
  repeat split; try assumption.
  - match goal with
    | E : (if ?m then _ else _) = Ok ?x |- 0 <= ?x =>
        destruct m; [apply getUint_nonneg in E | apply getUint64_nonneg in E]; exact E
    end.
  - match goal with
    | E : getUint16 view _ _ = Ok ?x |- 0 <= ?x => apply getUint_nonneg in E; exact E
    end.
Qed.

(** The header throws only on the 64-bit offset of a BigTIFF marker in a
    buffer of 8 to 11 bytes. *)
Lemma readHeader_throws (view : ArrayBuffer) (e : exn) :
  readHeader view = Throw e -> 8 <= byteLength view < 12.
Proof.
  intros H. unfold readHeader in H.
  destruct (Z.ltb_spec (byteLength view) 8) as [|H8]; [discriminate|].
  split; [exact H8|].
  destruct (Z.lt_ge_cases (byteLength view) 12) as [|H12]; [assumption|]. exfalso.
  assert (R : forall n offset le, 0 <= offset -> offset + Z.of_nat n <= 12 ->
                exists v, getUint n view offset le = Ok v)
    by (intros; apply getUint_returns; lia).
  destruct (R 1%nat 0 false) as [b1 E1]; [lia | simpl; lia|].
  destruct (R 1%nat 1 false) as [b2 E2]; [lia | simpl; lia|].
  unfold getUint8 in H. rewrite E1, E2 in H. cbn [bind] in H.
  destruct (R 2%nat 2 ((b1 =? 73) && (b2 =? 73))) as [magic E3]; [lia | simpl; lia|].
  unfold getUint16 in H at 1. rewrite E3 in H. cbn [bind] in H.
  destruct (negb _ && negb _); [discriminate|].
  destruct (R 4%nat 4 ((b1 =? 73) && (b2 =? 73))) as [lo E4]; [lia | simpl; lia|].
  destruct (R 4%nat 8 ((b1 =? 73) && (b2 =? 73))) as [hi E5]; [lia | simpl; lia|].
  assert (E6 : exists ifd,
             (if magic =? 42 then getUint32 view 4 ((b1 =? 73) && (b2 =? 73))
              else getUint64 view 4 ((b1 =? 73) && (b2 =? 73))) = Ok ifd /\ 0 <= ifd).
  { destruct (magic =? 42).
    - exists lo. split; [exact E4 | apply getUint_nonneg in E4; exact E4].
    - eexists. unfold getUint64, getUint32. change (4 + 4) with 8. rewrite E4, E5.
      cbn [bind]. split; [reflexivity|].
      apply getUint_nonneg in E4, E5.
      destruct (_ && _); unfold numberAdd, numberMul; apply binary64_nonneg;
        (apply Z.add_nonneg_nonneg; [apply binary64_nonneg; lia | assumption]). }
  destruct E6 as (ifd & E6 & Hifd). rewrite E6 in H. cbn [bind] in H.
  destruct (Z.gtb_spec (ifd + 2) (byteLength view)) as [|Hfit]; [discriminate|].
  destruct (getUint_returns 2 view ifd ((b1 =? 73) && (b2 =? 73)) Hifd) as [n En];
    [simpl; lia|].
  unfold getUint16 in H. rewrite En in H. discriminate.
Qed.

Section Returns.
Variable view : ArrayBuffer.
Variable littleEndian : bool.
Variable firstIFDOffset : Z.

(** A traversal that throws does so on a resolution entry whose rational
    leaves the buffer. *)
Lemma forEntries_throws (n : nat) (from : Z) (st : Locals.t) (e : exn) :
  0 <= firstIFDOffset -> 0 <= from ->
  forEntries view littleEndian firstIFDOffset n from st = Throw e ->
  exists i a type count valueOffset,
    from <= i < from + Z.of_nat n
    /\ decodes view littleEndian firstIFDOffset i (resolutionTag a) type count valueOffset
    /\ byteLength view < valueOffset + 8.
Proof.
  intros Hifd. revert from st. induction n as [|n IH]; intros from st Hfrom H;
    cbn [forEntries] in H; [discriminate|].
  destruct (entryStep view littleEndian firstIFDOffset st from) as [st1|e1] eqn:E;
    cbn [bind] in H.
  - destruct (IH (from + 1) st1) as (i & a & type & count & vo & Hi & D & Hvo);
      [lia | exact H |].
    exists i, a, type, count, vo. split; [lia | split; assumption].
  - destruct (entryStep_throws _ _ _ _ _ _ Hifd Hfrom E) as (a & type & count & vo & D & Hvo).
    exists from, a, type, count, vo. split; [lia | split; assumption].
Qed.

(** Without a resolution entry among the entries that fit, the traversal
    returns. *)
Lemma forEntries_returns (n : nat) (from : Z) (st : Locals.t) :
  0 <= firstIFDOffset -> 0 <= from ->
  (forall j a, from <= j < from + Z.of_nat n -> inSpan view firstIFDOffset j ->
     getUint16 view (firstIFDOffset + 2 + j * 12) littleEndian <> Ok (resolutionTag a)) ->
  exists st', forEntries view littleEndian firstIFDOffset n from st = Ok st'.
Proof.
  intros Hifd Hfrom Hno.
  destruct (forEntries view littleEndian firstIFDOffset n from st) as [st'|e] eqn:E;
    [exists st'; reflexivity|].
  destruct (forEntries_throws _ _ _ _ Hifd Hfrom E) as (i & a & type & count & vo & Hi & D & _).
  exfalso. apply (Hno i a Hi (decodes_span _ _ _ _ _ _ _ _ D)).
  exact (decodes_tag _ _ _ _ _ _ _ _ D).
Qed.
End Returns.

(** Every exception of the parser: the 64-bit offset read of a short
    BigTIFF header, or the rational of a resolution entry. *)
Lemma parseTiffMetadata_throws (parseFromString : jsstring -> Element)
  (view : ArrayBuffer) (e : exn) :
  parseTiffMetadata parseFromString view = Throw e ->
  8 <= byteLength view < 12
  \/ exists le ifd numEntries i a type count valueOffset,
       readHeader view = Ok (Some (le, ifd, numEntries))
       /\ 0 <= i < numEntries
       /\ decodes view le ifd i (resolutionTag a) type count valueOffset
       /\ byteLength view < valueOffset + 8.
Proof.
  unfold parseTiffMetadata. intros H.
  destruct (readHeader view) as [[[[le ifd] n]|]|e0] eqn:Hh; cbn [bind] in H.
  - right. destruct (readHeader_Some _ _ _ _ Hh) as (Hifd & _ & Hn).
    destruct (forEntries view le ifd (Z.to_nat n) 0 Locals.init) as [st|e1] eqn:E;
      cbn [bind] in H; [discriminate|].
    destruct (forEntries_throws _ _ _ _ _ _ _ Hifd (Z.le_refl 0) E)
      as (i & a & type & count & vo & Hi & D & Hvo).
    exists le, ifd, n, i, a, type, count, vo.
    split; [reflexivity | split; [lia | split; assumption]].
  - discriminate.
  - left. apply (readHeader_throws _ _ Hh).
Qed.

(** A directory entry whose 12 bytes do not all lie inside the buffer is
    skipped without any read: whatever the buffer holds there, the iteration
    returns with the variables unchanged and cannot throw.  As the entries
    are consecutive, all later entries are skipped too, so the parse of a
    buffer cut inside entry [k] is the parse of its first [k] entries: what
    they set is kept, and with no resolution entry among them the parse
    returns normally. *)
Lemma truncated_entry_skipped (parseFromString : jsstring -> Element)
  (view : ArrayBuffer) (littleEndian : bool) (firstIFDOffset : Z) :
  (forall st i, ~ inSpan view firstIFDOffset i ->
     entryStep view littleEndian firstIFDOffset st i = Ok st)
  /\ (forall (k n : nat) st, (k <= n)%nat -> ~ inSpan view firstIFDOffset (Z.of_nat k) ->
        forEntries view littleEndian firstIFDOffset n 0 st
        = forEntries view littleEndian firstIFDOffset k 0 st)
  /\ (forall (k : nat) numEntries,
        readHeader view = Ok (Some (littleEndian, firstIFDOffset, numEntries)) ->
        Z.of_nat k <= numEntries -> ~ inSpan view firstIFDOffset (Z.of_nat k) ->
        parseTiffMetadata parseFromString view
        = (st <- forEntries view littleEndian firstIFDOffset k 0 Locals.init ;;
           Ok (finish parseFromString st))
        /\ ((forall j a, 0 <= j < Z.of_nat k ->
               getUint16 view (firstIFDOffset + 2 + j * 12) littleEndian
               <> Ok (resolutionTag a)) ->
            exists st,
              forEntries view littleEndian firstIFDOffset k 0 Locals.init = Ok st
              /\ parseTiffMetadata parseFromString view
                 = Ok (finish parseFromString st))).
Proof.
  split; [|split].
  - intros st i H. apply entryStep_beyond. exact H.
  - intros k n st Hkn Hk. apply forEntries_truncated; assumption.
  - intros k numEntries Hh Hkn Hk.
    assert (P : parseTiffMetadata parseFromString view
                = (st <- forEntries view littleEndian firstIFDOffset k 0 Locals.init ;;
                   Ok (finish parseFromString st))).
    { unfold parseTiffMetadata. rewrite Hh. cbn [bind].
      rewrite (forEntries_truncated view littleEndian firstIFDOffset k (Z.to_nat numEntries))
        by (assumption || lia).
      reflexivity. }
    split; [exact P|]. intros Hno.
    destruct (readHeader_Some _ _ _ _ Hh) as (Hifd & _ & _).
    destruct (forEntries_returns view littleEndian firstIFDOffset k 0 Locals.init
                Hifd (Z.le_refl 0)) as [st Hst].
    { intros j a Hj _. apply Hno. lia. }
    exists st. split; [exact Hst|]. rewrite P, Hst. reflexivity.
Qed.

Lemma truncated_entry_skipped_witness :
  parseTiffMetadata noXml truncatedTiff
  = Ok (mkMeta (Some 100) None None None None None None None None None None).
Proof.
  destruct (truncated_entry_skipped noXml truncatedTiff true 8) as (_ & _ & H).
  destruct (H 1%nat 2) as [_ H'].
  - reflexivity.
  - lia.
  - unfold inSpan. vm_compute. intros C. apply C. reflexivity.
  - destruct H' as (st & Hst & ->).
    + intros j a Hj. assert (j = 0) as -> by lia.
      destruct a; vm_compute; discriminate.
    + vm_compute in Hst. injection Hst as <-. reflexivity.
Defined.

(** C1: the rational read of a resolution entry is not covered by the
    bounds checks.  On [overreadTiff] the first entry yields width 100, the
    second entry fits in the buffer and its value counts as inline, and the
    read of the denominator at [valueOffset + 4] starts at the end of the
    buffer: the iteration throws a RangeError, the whole parse throws, and
    [handleFile] reports the empty metadata, the width lost. *)
Theorem rational_read_leaves_buffer (parseFromString : jsstring -> Element)
  (fileName sizeText : jsstring) :
  forEntries overreadTiff true 8 1 0 Locals.init
    = Ok (Locals.mk (Some 100) None None None None)
  /\ decodes overreadTiff true 8 1 0x011A 3 1 30
  /\ byteLength overreadTiff = 34
  /\ entryStep overreadTiff true 8 (Locals.mk (Some 100) None None None None) 1
     = Throw RangeError
  /\ parseTiffMetadata parseFromString overreadTiff = Throw RangeError
  /\ metaOf parseFromString overreadTiff = emptyMeta
  /\ handleFile parseFromString fileName sizeText overreadTiff
     = headerLines fileName sizeText ++ notice.
Proof.
  repeat split; vm_compute; first [reflexivity | discriminate].
Qed.

(** C3: the quotient of a resolution entry does not always reach the
    metadata.  In [lostResolutionTiff] the XResolution entry is decoded and
    its rational 72 / 2 is read inside the buffer, so the variable becomes
    36; the YResolution entry that follows counts as inline, the read of its
    denominator at [valueOffset + 4] starts at the end of the buffer and
    throws, the whole parse throws, and the metadata [handleFile] reports has
    no xResolution. *)
Theorem resolution_lost_to_overread (parseFromString : jsstring -> Element)
  (fileName sizeText : jsstring) :
  readHeader lostResolutionTiff = Ok (Some (true, 16, 2))
  /\ byteLength lostResolutionTiff = 42
  /\ decodes lostResolutionTiff true 16 0 0x011A 5 1 8
  /\ getUint32 lostResolutionTiff 8 true = Ok 72
  /\ getUint32 lostResolutionTiff (8 + 4) true = Ok 2
  /\ forEntries lostResolutionTiff true 16 1 0 Locals.init
     = Ok (Locals.mk None None (Some (of_uint32 72 / of_uint32 2)%float) None None)
  /\ decodes lostResolutionTiff true 16 1 0x011B 3 1 38
  /\ getUint32 lostResolutionTiff (38 + 4) true = Throw RangeError
  /\ entryStep lostResolutionTiff true 16
       (Locals.mk None None (Some (of_uint32 72 / of_uint32 2)%float) None None) 1
     = Throw RangeError
  /\ parseTiffMetadata parseFromString lostResolutionTiff = Throw RangeError
  /\ metaOf parseFromString lostResolutionTiff = emptyMeta
  /\ xResolution (metaOf parseFromString lostResolutionTiff) = None
  /\ handleFile parseFromString fileName sizeText lostResolutionTiff
     = headerLines fileName sizeText ++ notice.
Proof.
  repeat split; vm_compute; first [reflexivity | discriminate].
Qed.

(** C6: a file cut inside an entry does not always parse.  In [cutTiff]
    the header is valid, the first entry yields width 100 and the third
    entry is cut after two bytes, so it is skipped without a read.  The
    second entry, an XResolution entry whose value counts as inline, then
    ends four bytes before the end of the buffer: the read of its denominator
    leaves the buffer, the parse throws, and [handleFile] reports the empty
    metadata, the width lost.  With the ten bytes that were cut away the same
    directory parses, to width 100 and height 5. *)
Theorem truncated_file_throws (parseFromString : jsstring -> Element)
  (fileName sizeText : jsstring) :
  readHeader cutTiff = Ok (Some (true, 8, 3))
  /\ byteLength cutTiff = 36
  /\ ~ inSpan cutTiff 8 2
  /\ entryStep cutTiff true 8 (Locals.mk (Some 100) None None None None) 2
     = Ok (Locals.mk (Some 100) None None None None)
  /\ decodes cutTiff true 8 0 0x0100 3 1 18
  /\ forEntries cutTiff true 8 1 0 Locals.init
     = Ok (Locals.mk (Some 100) None None None None)
  /\ decodes cutTiff true 8 1 0x011A 3 1 30
  /\ getUint32 cutTiff (30 + 4) true = Throw RangeError
  /\ entryStep cutTiff true 8 (Locals.mk (Some 100) None None None None) 1
     = Throw RangeError
  /\ parseTiffMetadata parseFromString cutTiff = Throw RangeError
  /\ metaOf parseFromString cutTiff = emptyMeta
  /\ handleFile parseFromString fileName sizeText cutTiff
     = headerLines fileName sizeText ++ notice
  /\ (exists meta,
        parseTiffMetadata parseFromString (cutTiff ++ cutAway) = Ok meta
        /\ width meta = Some 100 /\ height meta = Some 5).
Proof.
  repeat split; try (vm_compute; first [reflexivity | discriminate]).
  - unfold inSpan. vm_compute. intros C. apply C. reflexivity.
  - eexists. repeat split; vm_compute; reflexivity.
Qed.

(** ** The report *)

Lemma truthyInt_false (v : option Z) :
  truthyInt v = false <-> v = None \/ v = Some 0.
Proof.
  destruct v as [n|]; cbn [truthyInt].
  - rewrite negb_false_iff, Z.eqb_eq. split.
    + intros ->. right. reflexivity.
    + intros [H|H]; [discriminate | injection H as ->; reflexivity].
  - split; [left|]; reflexivity.
Qed.

Lemma truthyNumber_false (v : option float) :
  truthyNumber v = false
  <-> v = None \/ exists x, v = Some x /\ (is_zero x = true \/ is_nan x = true).
Proof.
  destruct v as [x|]; cbn [truthyNumber].
  - rewrite negb_false_iff, orb_true_iff. split.
    + intros H. right. exists x. split; [reflexivity | exact H].
    + intros [H|(y & H & Hy)]; [discriminate | injection H as ->; exact Hy].
  - split; [left|]; reflexivity.
Qed.

(** C5: when none of width, height, xResolution and yResolution was
    recovered, the report is the file lines, whatever lines the description
    fields give, and then the notice; with only a frame rate recovered it is
    the file lines, the frame-rate line and the notice. *)
Theorem notice_without_geometry (fileName sizeText : jsstring) (meta : Meta) :
  width meta = None -> height meta = None ->
  xResolution meta = None -> yResolution meta = None ->
  report fileName sizeText meta
  = headerLines fileName sizeText
    ++ pixelSizeLines meta ++ timeIncrementLine meta ++ frameRateLine meta
    ++ notice
  /\ forall rate, truthyNumber (Some rate) = true ->
       report fileName sizeText (set_frameRate rate emptyMeta)
       = headerLines fileName sizeText
         ++ (nl ++ str "Frame Rate: " ++ numberToString rate ++ str " Hz")
         ++ notice.
Proof.
  intros Hw Hh Hx Hy. split.
  - unfold report, dimensionLines, resolutionLines, noticeLines.
    rewrite Hw, Hh, Hx, Hy. reflexivity.
  - intros rate Hrate. unfold report, dimensionLines, resolutionLines, noticeLines,
      pixelSizeLines, timeIncrementLine, frameRateLine.
    cbn [set_frameRate emptyMeta width height xResolution yResolution physicalSizeX
         physicalSizeY physicalSizeZ timeIncrement frameRate truthyInt orb andb negb].
    change (truthyNumber None) with false. rewrite Hrate.
    cbn [orb andb negb shown app]. reflexivity.
Qed.

Lemma notice_without_geometry_witness :
  report (str "scan.tif") (str "2,048") (set_frameRate 30 emptyMeta)
  = str "File: scan.tif" ++ nl ++ str "Size: 2,048 bytes" ++ nl
    ++ str "Frame Rate: 30 Hz" ++ nl ++ nl
    ++ str "Unable to parse metadata from this file.".
Proof.
  destruct (notice_without_geometry (str "scan.tif") (str "2,048")
              (set_frameRate 30 emptyMeta) eq_refl eq_refl eq_refl eq_refl) as [H _].
  rewrite H. vm_compute. reflexivity.
Defined.

(** ** Zero against absent *)

(** C10 as stated fails: a width decoded as 0 next to a nonzero height is
    printed as [0], an absent width as [?], so the two reports differ. *)
Lemma zero_width_is_not_absent :
  metaOf noXml zeroWidthTiff
    = mkMeta (Some 0) (Some 5) None None None None None None None None None
  /\ metaOf noXml heightOnlyTiff
    = mkMeta None (Some 5) None None None None None None None None None
  /\ report (str "a.tif") (str "38") (metaOf noXml zeroWidthTiff)
    = str "File: a.tif" ++ nl ++ str "Size: 38 bytes" ++ nl
      ++ str "Width: 0 px" ++ nl ++ str "Height: 5 px"
  /\ report (str "a.tif") (str "38") (metaOf noXml heightOnlyTiff)
    = str "File: a.tif" ++ nl ++ str "Size: 38 bytes" ++ nl
      ++ str "Width: ? px" ++ nl ++ str "Height: 5 px"
  /\ report (str "a.tif") (str "38") (metaOf noXml zeroWidthTiff)
     <> report (str "a.tif") (str "38") (metaOf noXml heightOnlyTiff).
Proof. repeat split; vm_compute; first [reflexivity | discriminate]. Qed.

Lemma report_withoutHiddenZeros (fileName sizeText : jsstring) (meta : Meta) :
  report fileName sizeText meta = report fileName sizeText (withoutHiddenZeros meta).
Proof.
  destruct meta as [w h x y px py pz pu ti tu fr].
  unfold report, withoutHiddenZeros, dimensionLines, resolutionLines, noticeLines,
    pixelSizeLines, timeIncrementLine, frameRateLine, sizeUnit, timeUnitOf.
  cbn [width height xResolution yResolution physicalSizeX physicalSizeY physicalSizeZ
       physicalSizeUnit timeIncrement timeIncrementUnit frameRate].
  destruct (truthyInt w) eqn:Ew, (truthyInt h) eqn:Eh,
    (truthyNumber x) eqn:Ex, (truthyNumber y) eqn:Ey;
    cbn [orb andb negb truthyInt truthyNumber];
    rewrite ?Ew, ?Eh, ?Ex, ?Ey; reflexivity.
Qed.

(** A zero is not NaN, and prints as [0]. *)
Lemma numberToString_zero (x : float) : is_zero x = true -> numberToString x = str "0".
Proof.
  intros Hz. unfold numberToString. rewrite Hz.
  replace (is_nan x) with false; [reflexivity|].
  unfold is_zero in Hz. unfold is_nan. rewrite eqb_spec in *.
  change (Prim2SF zero) with (S754_zero false) in Hz.
  destruct (Prim2SF x) as [sx| sx| |sx mx ex]; try discriminate Hz.
  - reflexivity.
  - destruct sx; discriminate Hz.
  - destruct sx; discriminate Hz.
Qed.

Lemma truthyNumber_nonzero (x : float) :
  truthyNumber (Some x) = true -> is_zero x = false.
Proof.
  cbn [truthyNumber]. rewrite negb_true_iff, orb_false_iff. intros [H _]. exact H.
Qed.

(** C10 (amended): the width/height line is shown exactly when one of the
    two values is nonzero, and the resolution line exactly when one of the
    two resolutions is, so a zero can hide its line; when width, height,
    xResolution and yResolution are all absent or zero the notice is
    appended; and a zero is indistinguishable from an absent value as long as
    the other value of its line is absent or zero too.  Next to a nonzero
    value of the same line, each of width, height, xResolution and
    yResolution is printed as 0 when it is zero and as ? when it is
    absent. *)
Theorem zero_geometry_in_report (fileName sizeText : jsstring) (meta : Meta) :
  (dimensionLines meta = []
   <-> (width meta = None \/ width meta = Some 0)
       /\ (height meta = None \/ height meta = Some 0))
  /\ ((width meta = None \/ width meta = Some 0) ->
      (height meta = None \/ height meta = Some 0) ->
      truthyNumber (xResolution meta) = false ->
      truthyNumber (yResolution meta) = false ->
      report fileName sizeText meta
      = headerLines fileName sizeText
        ++ pixelSizeLines meta ++ timeIncrementLine meta ++ frameRateLine meta
        ++ notice)
  /\ report fileName sizeText meta = report fileName sizeText (withoutHiddenZeros meta)
  /\ (forall h, h <> 0 -> height meta = Some h ->
        (width meta = Some 0 ->
         dimensionLines meta
         = nl ++ str "Width: 0 px" ++ nl ++ str "Height: " ++ decimalString h ++ str " px")
        /\ (width meta = None ->
            dimensionLines meta
            = nl ++ str "Width: ? px" ++ nl ++ str "Height: " ++ decimalString h
              ++ str " px"))
  /\ (forall w, w <> 0 -> width meta = Some w ->
        (height meta = Some 0 ->
         dimensionLines meta
         = nl ++ str "Width: " ++ decimalString w ++ str " px" ++ nl ++ str "Height: 0 px")
        /\ (height meta = None ->
            dimensionLines meta
            = nl ++ str "Width: " ++ decimalString w ++ str " px" ++ nl
              ++ str "Height: ? px"))
  /\ (resolutionLines meta = []
      <-> truthyNumber (xResolution meta) = false
          /\ truthyNumber (yResolution meta) = false)
  /\ (forall y, truthyNumber (Some y) = true -> yResolution meta = Some y ->
        (forall x, is_zero x = true -> xResolution meta = Some x ->
           resolutionLines meta
           = nl ++ str "X Resolution: 0" ++ nl ++ str "Y Resolution: " ++ numberToString y)
        /\ (xResolution meta = None ->
            resolutionLines meta
            = nl ++ str "X Resolution: ?" ++ nl ++ str "Y Resolution: "
              ++ numberToString y))
  /\ (forall x, truthyNumber (Some x) = true -> xResolution meta = Some x ->
        (forall y, is_zero y = true -> yResolution meta = Some y ->
           resolutionLines meta
           = nl ++ str "X Resolution: " ++ numberToString x ++ nl ++ str "Y Resolution: 0")
        /\ (yResolution meta = None ->
            resolutionLines meta
            = nl ++ str "X Resolution: " ++ numberToString x ++ nl
              ++ str "Y Resolution: ?")).
Proof.
  split; [|split; [|split; [|split; [|split; [|split; [|split]]]]]].
  - rewrite <- !truthyInt_false. unfold dimensionLines.
    destruct (truthyInt (width meta)), (truthyInt (height meta)); cbn [orb];
      split; intros H; try discriminate; try (destruct H; discriminate);
      try reflexivity; split; reflexivity.
  - intros Hw Hh Hx Hy. apply truthyInt_false in Hw, Hh.
    unfold report, dimensionLines, resolutionLines, noticeLines.
    rewrite Hw, Hh, Hx, Hy. reflexivity.
  - apply report_withoutHiddenZeros.
  - intros h Hh Eh. apply Z.eqb_neq in Hh. unfold dimensionLines.
    split; intros Ew; rewrite Ew, Eh; cbn [truthyInt orb orQuestion]; rewrite Hh;
      cbn [negb orb]; reflexivity.
  - intros w Hw Ew. apply Z.eqb_neq in Hw. unfold dimensionLines.
    split; intros Eh; rewrite Ew, Eh; cbn [truthyInt orb orQuestion]; rewrite Hw;
      cbn [negb orb]; rewrite <- ?app_assoc; reflexivity.
  - unfold resolutionLines.
    destruct (truthyNumber (xResolution meta)), (truthyNumber (yResolution meta));
      cbn [orb]; split; intros H; try discriminate; try (destruct H; discriminate);
      try reflexivity; split; reflexivity.
  - intros y Hy Ey. unfold resolutionLines. split.
    + intros x Hx Ex. rewrite Ex, Ey, Hy, orb_true_r. cbn [orQuestion].
      rewrite (numberToString_zero x Hx). reflexivity.
    + intros Ex. rewrite Ex, Ey, Hy, orb_true_r. reflexivity.
  - intros x Hx Ex. unfold resolutionLines. split.
    + intros y Hy Ey. rewrite Ex, Ey, Hx. cbn [orb orQuestion].
      rewrite (numberToString_zero y Hy), <- ?app_assoc. reflexivity.
    + intros Ey. rewrite Ex, Ey, Hx. cbn [orb orQuestion].
      rewrite <- ?app_assoc. reflexivity.
Qed.

Lemma zero_geometry_in_report_witness :
  report (str "a.tif") (str "38")
    (mkMeta (Some 0) None (Some 0%float) None None None None None None None None)
  = headerLines (str "a.tif") (str "38") ++ notice
  /\ resolutionLines
       (mkMeta (Some 0) None (Some 0%float) (Some 72%float) None None None None None None None)
     = nl ++ str "X Resolution: 0" ++ nl ++ str "Y Resolution: 72"
  /\ dimensionLines
       (mkMeta (Some 640) (Some 0) None None None None None None None None None)
     = nl ++ str "Width: 640 px" ++ nl ++ str "Height: 0 px".
Proof.
  split; [|split].
  - destruct (zero_geometry_in_report (str "a.tif") (str "38")
                (mkMeta (Some 0) None (Some 0%float) None None None None None None None None))
      as (_ & H & _).
    rewrite H; [reflexivity | right; reflexivity | left; reflexivity
               | reflexivity | reflexivity].
  - destruct (zero_geometry_in_report [] []
                (mkMeta (Some 0) None (Some 0%float) (Some 72%float)
                   None None None None None None None))
      as (_ & _ & _ & _ & _ & _ & H & _).
    destruct (H 72%float) as [H0 _]; [reflexivity | reflexivity|].
    rewrite (H0 0%float); [vm_compute; reflexivity | reflexivity | reflexivity].
  - destruct (zero_geometry_in_report [] []
                (mkMeta (Some 640) (Some 0) None None None None None None None None None))
      as (_ & _ & _ & _ & H & _).
    destruct (H 640) as [H0 _]; [lia | reflexivity|].
    rewrite H0; [vm_compute; reflexivity | reflexivity].
Defined.

(** ** The description *)

Example threeTenths_parsed :
  parseFloat (str "0.3") = threeTenths
  /\ (of_uint32 3 / of_uint32 10)%float = threeTenths
  /\ numberToString threeTenths = str "0.3".
Proof. repeat split; vm_compute; reflexivity. Qed.

Lemma interpretText_fields (d : jsstring) (meta : Meta) :
  interpretText d meta
  = mkMeta (width meta) (height meta) (xResolution meta) (yResolution meta)
      (fieldAfter physicalSizeX_re (physicalSizeX meta) d)
      (fieldAfter physicalSizeY_re (physicalSizeY meta) d)
      (physicalSizeZ meta) (physicalSizeUnit meta)
      (fieldAfter timeIncrement_re (timeIncrement meta) d)
      (timeIncrementUnit meta)
      (fieldAfter frameRate_re (frameRate meta) d).
Proof.
  unfold interpretText, patterns, applyPattern, fieldAfter. cbn [fold_left fst snd].
  destruct (exec true physicalSizeX_re d), (exec true physicalSizeY_re d),
    (exec true frameRate_re d), (exec true timeIncrement_re d);
    destruct meta; reflexivity.
Qed.

Lemma textDescription_interpreted (parseFromString : jsstring -> Element) (meta : Meta) :
  interpretDescription parseFromString (Some textDescription) meta
  = set_frameRate 30 (set_physicalSizeX threeTenths meta).
Proof.
  change (interpretDescription parseFromString (Some textDescription) meta)
    with (interpretText textDescription meta).
  rewrite interpretText_fields.
  replace (fieldAfter physicalSizeX_re (physicalSizeX meta) textDescription)
    with (Some threeTenths) by (vm_compute; reflexivity).
  replace (fieldAfter physicalSizeY_re (physicalSizeY meta) textDescription)
    with (physicalSizeY meta) by (vm_compute; reflexivity).
  replace (fieldAfter timeIncrement_re (timeIncrement meta) textDescription)
    with (timeIncrement meta) by (vm_compute; reflexivity).
  replace (fieldAfter frameRate_re (frameRate meta) textDescription)
    with (Some 30%float) by (vm_compute; reflexivity).
  reflexivity.
Qed.

(** C2: with the [Pixels] element of the OME example found by the XML
    parser, the interpreter sets physicalSizeX to 0.5 and physicalSizeUnit to
    "micron"; the formatter then replaces the first [micro] of the unit by
    [μm] and keeps the rest of the word, so the line reads
    "Pixel Size X: 0.5 μmn", not "Pixel Size X: 0.5 μm". *)
Theorem ome_pixel_size_line (parseFromString : jsstring -> Element)
  (fileName sizeText : jsstring) :
  parseFromString omeDescription = omeDocument ->
  interpretDescription parseFromString (Some omeDescription) emptyMeta
  = set_physicalSizeUnit (str "micron") (set_physicalSizeX 0.5 emptyMeta)
  /\ sizeUnit (set_physicalSizeUnit (str "micron") (set_physicalSizeX 0.5 emptyMeta))
     = str " " ++ [0x03bc] ++ str "mn"
  /\ report fileName sizeText
       (interpretDescription parseFromString (Some omeDescription) emptyMeta)
     = headerLines fileName sizeText
       ++ (nl ++ str "Pixel Size X: 0.5 " ++ [0x03bc] ++ str "mn")
       ++ notice.
Proof.
  intros Hdoc.
  assert (E : interpretDescription parseFromString (Some omeDescription) emptyMeta
              = set_physicalSizeUnit (str "micron") (set_physicalSizeX 0.5 emptyMeta)).
  { change (interpretDescription parseFromString (Some omeDescription) emptyMeta)
      with (interpretXml parseFromString omeDescription emptyMeta).
    unfold interpretXml. rewrite Hdoc. vm_compute. reflexivity. }
  rewrite E. repeat split; vm_compute; reflexivity.
Qed.

Lemma ome_pixel_size_line_witness :
  report (str "a.tif") (str "1,024")
    (interpretDescription SimpleXml.parseFromString (Some omeDescription) emptyMeta)
  = headerLines (str "a.tif") (str "1,024")
    ++ (nl ++ str "Pixel Size X: 0.5 " ++ [0x03bc] ++ str "mn")
    ++ notice.
Proof.
  apply (ome_pixel_size_line SimpleXml.parseFromString (str "a.tif") (str "1,024")).
  vm_compute. reflexivity.
Defined.

(** ** Matching under the [i] flag ignores letter case *)

Lemma related_orElse {A B} (Q : A -> B -> Prop) x x' y y' :
  related Q x x' -> related Q y y' ->
  related Q (match x with Some a => Some a | None => y end)
            (match x' with Some b => Some b | None => y' end).
Proof. destruct x, x'; cbn; intros H1 H2; (assumption || contradiction). Qed.

Lemma sameLetters_nil_l (s : jsstring) : sameLetters [] s -> s = [].
Proof. destruct s; [reflexivity | discriminate]. Qed.

Lemma sameLetters_cons_l (x : Z) (s s' : jsstring) :
  sameLetters (x :: s) s' ->
  exists x' t', s' = x' :: t' /\ canonicalize true x = canonicalize true x'
                /\ sameLetters s t'.
Proof.
  destruct s' as [|x' t']; [discriminate|]. unfold sameLetters, foldCase. cbn [map].
  intros H. injection H as Hx Ht. exists x', t'. repeat split; assumption.
Qed.

Lemma sameLetters_app (u u' t t' : jsstring) :
  sameLetters u u' -> sameLetters t t' -> sameLetters (u ++ t) (u' ++ t').
Proof. unfold sameLetters, foldCase. rewrite !map_app. intros -> ->. reflexivity. Qed.

Lemma firstn_consumed (u t : jsstring) :
  firstn (List.length (u ++ t) - List.length t) (u ++ t) = u.
Proof.
  rewrite length_app, Nat.add_sub. rewrite firstn_app, Nat.sub_diag, firstn_all.
  cbn [firstn]. apply app_nil_r.
Qed.

Section MatcherCase.
Context {A B : Type}.
Variable Q : A -> B -> Prop.

Lemma star_case (set : Z -> bool) (caps : list jsstring) k k' :
  (forall x, set (canonicalize true x) = set x) ->
  forall s s', sameLetters s s' -> agree Q (StarOf set) s s' k k' ->
  related Q (matcher true (StarOf set) s caps k) (matcher true (StarOf set) s' caps k').
Proof.
  intros Hset s. induction s as [|x s IH]; intros s' Hs Hk.
  - apply sameLetters_nil_l in Hs. subst s'. cbn.
    apply (Hk [] [] [] []); try reflexivity; constructor; constructor.
  - destruct (sameLetters_cons_l _ _ _ Hs) as (x' & t' & -> & Hx & Ht).
    assert (Hxx : set x = set x') by (rewrite <- (Hset x), Hx; apply Hset).
    assert (Here : related Q (k (x :: s) caps) (k' (x' :: t') caps)).
    { apply (Hk [] [] (x :: s) (x' :: t')); try reflexivity; try assumption;
        constructor; constructor. }
    cbn [matcher]. rewrite <- Hxx. destruct (set x) eqn:Ex; [|exact Here].
    apply related_orElse; [|exact Here].
    apply IH; [exact Ht|].
    intros u u' t t'' c -> -> Hu Htt Cu Cu'.
    apply (Hk (x :: u) (x' :: u') t t''); try reflexivity; try assumption.
    + unfold sameLetters, foldCase in *. cbn [map]. rewrite Hx, Hu. reflexivity.
    + constructor. inversion Cu; subst. constructor; assumption.
    + constructor. inversion Cu'; subst. constructor; [congruence | assumption].
Qed.

Lemma matcher_case (r : regex) :
  caseClosed r ->
  forall s s' caps k k', sameLetters s s' -> agree Q r s s' k k' ->
  related Q (matcher true r s caps k) (matcher true r s' caps k').
Proof.
  induction r as [|c|set|set|r1 IH1 r2 IH2|r1 IH1 r2 IH2|r IH];
    intros Hr s s' caps k k' Hs Hk.
  - cbn [matcher]. apply (Hk [] [] s s'); try reflexivity; try assumption; constructor.
  - destruct s as [|x s].
    + apply sameLetters_nil_l in Hs. subst s'. exact I.
    + destruct (sameLetters_cons_l _ _ _ Hs) as (x' & t' & -> & Hx & Ht).
      cbn [matcher]. rewrite <- Hx.
      destruct (canonicalize true x =? canonicalize true c) eqn:E; [|exact I].
      apply Z.eqb_eq in E.
      apply (Hk [x] [x'] s t'); try reflexivity; try assumption.
      * unfold sameLetters, foldCase. cbn [map]. rewrite Hx. reflexivity.
      * constructor. exact E.
      * constructor. congruence.
  - destruct s as [|x s].
    + apply sameLetters_nil_l in Hs. subst s'. exact I.
    + destruct (sameLetters_cons_l _ _ _ Hs) as (x' & t' & -> & Hx & Ht).
      cbn [caseClosed] in Hr.
      assert (Hxx : set x = set x') by (rewrite <- (Hr x), Hx; apply Hr).
      cbn [matcher]. rewrite <- Hxx. destruct (set x) eqn:E; [|exact I].
      apply (Hk [x] [x'] s t'); try reflexivity; try assumption.
      * unfold sameLetters, foldCase. cbn [map]. rewrite Hx. reflexivity.
      * constructor. exact E.
      * constructor. congruence.
  - apply star_case; assumption.
  - destruct Hr as [Hr1 Hr2]. cbn [matcher]. apply IH1; [assumption | assumption|].
    intros u1 u1' t1 t1' c1 -> -> Hu1 Ht1 C1 C1'.
    apply IH2; [assumption | assumption|].
    intros u2 u2' t t' c -> -> Hu2 Ht C2 C2'.
    apply (Hk (u1 ++ u2) (u1' ++ u2') t t'); try assumption.
    + apply app_assoc.
    + apply app_assoc.
    + apply sameLetters_app; assumption.
    + constructor; assumption.
    + constructor; assumption.
  - destruct Hr as [Hr1 Hr2]. cbn [matcher]. apply related_orElse.
    + apply IH1; [assumption | assumption|].
      intros u u' t t' c E E' Hu Ht C C'.
      apply (Hk u u' t t'); try assumption; apply consumes_Alt_l; assumption.
    + apply IH2; [assumption | assumption|].
      intros u u' t t' c E E' Hu Ht C C'.
      apply (Hk u u' t t'); try assumption; apply consumes_Alt_r; assumption.
  - destruct Hr as [Hr Hcap]. cbn [matcher]. apply IH; [assumption | assumption|].
    intros u u' t t' c -> -> Hu Ht C C'.
    rewrite !firstn_consumed.
    assert (E : u = u').
    { rewrite <- (Hcap u C), <- (Hcap u' C'). exact Hu. }
    subst u'.
    apply (Hk u u t t'); try reflexivity; try assumption; constructor; assumption.
Qed.
End MatcherCase.

Lemma matchAt_case (r : regex) (pre pre' s s' : jsstring) :
  caseClosed r -> sameLetters s s' ->
  related sameCaptures (matchAt true r pre s) (matchAt true r pre' s').
Proof.
  intros Hr Hs. unfold matchAt. apply matcher_case; [assumption | assumption|].
  intros u u' t t' caps _ _ _ _ _ _. reflexivity.
Qed.

Lemma execFrom_case (r : regex) (s : jsstring) :
  caseClosed r ->
  forall s' pre pre', sameLetters s s' ->
    related sameCaptures (execFrom true r pre s) (execFrom true r pre' s').
Proof.
  intros Hr. induction s as [|x s IH]; intros s' pre pre' Hs.
  - apply sameLetters_nil_l in Hs. subst s'. cbn [execFrom].
    apply related_orElse; [apply matchAt_case; [assumption | reflexivity] | exact I].
  - destruct (sameLetters_cons_l _ _ _ Hs) as (x' & t' & -> & Hx & Ht).
    cbn [execFrom]. apply related_orElse; [apply matchAt_case; assumption|].
    apply IH. exact Ht.
Qed.

Lemma fieldAfter_case (r : regex) (old : option float) (d d' : jsstring) :
  caseClosed r -> sameLetters d d' -> fieldAfter r old d = fieldAfter r old d'.
Proof.
  intros Hr Hd. unfold fieldAfter, exec.
  pose proof (execFrom_case r d Hr d' [] [] Hd) as H.
  destruct (execFrom true r [] d) as [m|], (execFrom true r [] d') as [m'|];
    cbn in H; try contradiction; [|reflexivity].
  unfold capture1. rewrite H. reflexivity.
Qed.

(** The sets of the four patterns hold no letter. *)
Lemma canonicalize_cases (x : Z) :
  canonicalize true x = x \/ (97 <= x <= 122 /\ canonicalize true x = x - 32).
Proof.
  unfold canonicalize. cbn [andb].
  destruct (Z.leb_spec 97 x), (Z.leb_spec x 122); cbn [andb]; try (left; reflexivity).
  right. split; [lia | reflexivity].
Qed.

Lemma isWhiteSpace_letter (x : Z) : 65 <= x <= 122 -> isWhiteSpace x = false.
Proof.
  intros H. unfold isWhiteSpace. cbn [existsb].
  repeat match goal with
         | |- context [x =? ?c] => replace (x =? c) with false by (symmetry; apply Z.eqb_neq; lia)
         end.
  replace (x <=? 8202) with true by (symmetry; apply Z.leb_le; lia).
  replace (8192 <=? x) with false by (symmetry; apply Z.leb_gt; lia).
  reflexivity.
Qed.

Lemma isDigitOrDot_letter (x : Z) : 65 <= x <= 122 -> isDigitOrDot x = false.
Proof.
  intros H. unfold isDigitOrDot, isDigit.
  replace (x <=? 57) with false by (symmetry; apply Z.leb_gt; lia).
  replace (x =? 46) with false by (symmetry; apply Z.eqb_neq; lia).
  rewrite andb_false_r. reflexivity.
Qed.

Lemma isColonOrEquals_letter (x : Z) : 65 <= x <= 122 -> isColonOrEquals x = false.
Proof.
  intros H. unfold isColonOrEquals.
  replace (x =? 58) with false by (symmetry; apply Z.eqb_neq; lia).
  replace (x =? 61) with false by (symmetry; apply Z.eqb_neq; lia).
  reflexivity.
Qed.

Lemma letterless_set (set : Z -> bool) :
  (forall x, 65 <= x <= 122 -> set x = false) ->
  forall x, set (canonicalize true x) = set x.
Proof.
  intros H x. destruct (canonicalize_cases x) as [->|[Hx ->]]; [reflexivity|].
  rewrite !H by lia. reflexivity.
Qed.

Lemma foldCase_letterless (set : Z -> bool) (u : jsstring) :
  (forall x, 65 <= x <= 122 -> set x = false) ->
  Forall (fun x => set x = true) u -> foldCase u = u.
Proof.
  intros H F. induction F as [|x u Hx _ IH]; [reflexivity|].
  unfold foldCase in *. cbn [map]. rewrite IH. f_equal.
  destruct (canonicalize_cases x) as [E|[Hr _]]; [exact E|].
  rewrite H in Hx by lia. discriminate.
Qed.

Lemma caseClosed_lits (s : string) : caseClosed (lits s).
Proof. unfold lits. induction (str s) as [|c l IH]; cbn; [exact I | split; [exact I | exact IH]]. Qed.

Lemma caseClosed_ws : caseClosed ws.
Proof. unfold ws. cbn [caseClosed]. apply letterless_set. exact isWhiteSpace_letter. Qed.

Lemma caseClosed_number : caseClosed number.
Proof.
  pose proof (letterless_set isDigitOrDot isDigitOrDot_letter) as H.
  unfold number, PlusOf. cbn [caseClosed]. repeat split; try exact H.
  intros u C. inversion C as [| | | |r1 r2 u1 u2 C1 C2| | |]; subst.
  inversion C1; subst. inversion C2; subst.
  apply (foldCase_letterless isDigitOrDot); [exact isDigitOrDot_letter|].
  constructor; assumption.
Qed.

Lemma caseClosed_seqs (rs : list regex) : Forall caseClosed rs -> caseClosed (seqs rs).
Proof.
  unfold seqs. induction 1 as [|r rs Hr _ IH]; cbn [fold_right caseClosed];
    [exact I | split; assumption].
Qed.

Lemma caseClosed_patterns :
  caseClosed physicalSizeX_re /\ caseClosed physicalSizeY_re
  /\ caseClosed frameRate_re /\ caseClosed timeIncrement_re.
Proof.
  assert (Hc : caseClosed (OneOf isColonOrEquals))
    by (cbn [caseClosed]; apply letterless_set; exact isColonOrEquals_letter).
  split; [|split; [|split]];
    [unfold physicalSizeX_re | unfold physicalSizeY_re
    | unfold frameRate_re | unfold timeIncrement_re];
    apply caseClosed_seqs;
    repeat (apply Forall_cons;
            [first [apply caseClosed_lits | exact caseClosed_ws | exact caseClosed_number
                   | exact Hc | exact I]|]);
    apply Forall_nil.
Qed.

Lemma interpretText_case (d d' : jsstring) (meta : Meta) :
  sameLetters d d' -> interpretText d meta = interpretText d' meta.
Proof.
  intros H. destruct caseClosed_patterns as (H1 & H2 & H3 & H4).
  rewrite !interpretText_fields.
  rewrite (fieldAfter_case physicalSizeX_re _ d d'), (fieldAfter_case physicalSizeY_re _ d d'),
    (fieldAfter_case frameRate_re _ d d'), (fieldAfter_case timeIncrement_re _ d d');
    (assumption || reflexivity).
Qed.

(** C9: the description "micronsPerPixelX = 0.3, frame rate = 30" is not
    XML and yields physicalSizeX = 0.3 and frameRate = 30, the other fields
    as they were.  On every non-XML description each of the four fields is
    decided by its own pattern alone: the parsed capture on a match, the old
    value on a non-match.  The searches ignore letter case: two descriptions
    that differ only in the case of letters are interpreted alike. *)
Theorem text_description_patterns (parseFromString : jsstring -> Element) :
  (forall meta,
     interpretDescription parseFromString (Some textDescription) meta
     = set_frameRate 30 (set_physicalSizeX threeTenths meta))
  /\ physicalSizeX (interpretDescription parseFromString (Some textDescription) emptyMeta)
     = Some threeTenths
  /\ frameRate (interpretDescription parseFromString (Some textDescription) emptyMeta)
     = Some 30%float
  /\ physicalSizeY (interpretDescription parseFromString (Some textDescription) emptyMeta)
     = None
  /\ timeIncrement (interpretDescription parseFromString (Some textDescription) emptyMeta)
     = None
  /\ (forall c s meta,
        startsWith (trim (c :: s)) (str "<") = false ->
        interpretDescription parseFromString (Some (c :: s)) meta
        = mkMeta (width meta) (height meta) (xResolution meta) (yResolution meta)
            (fieldAfter physicalSizeX_re (physicalSizeX meta) (c :: s))
            (fieldAfter physicalSizeY_re (physicalSizeY meta) (c :: s))
            (physicalSizeZ meta) (physicalSizeUnit meta)
            (fieldAfter timeIncrement_re (timeIncrement meta) (c :: s))
            (timeIncrementUnit meta)
            (fieldAfter frameRate_re (frameRate meta) (c :: s)))
  /\ (forall d d' meta,
        sameLetters d d' -> interpretText d meta = interpretText d' meta).
Proof.
  repeat split; try (rewrite textDescription_interpreted; reflexivity).
  - intros c s meta H. unfold interpretDescription. rewrite H.
    apply interpretText_fields.
  - intros d d' meta H. apply interpretText_case. exact H.
Qed.

Lemma text_description_patterns_witness :
  interpretText (str "MicronsPerPixelX = 0.3, FRAME Rate = 30") emptyMeta
  = interpretText textDescription emptyMeta.
Proof.
  destruct (text_description_patterns noXml) as (_ & _ & _ & _ & _ & _ & H).
  apply H. vm_compute. reflexivity.
Defined.

(** * Further properties of the parser *)

(** ** An entry assigns its own variable only *)

Section Keeps.
Variable view : ArrayBuffer.
Variable littleEndian : bool.
Variable firstIFDOffset : Z.
Variable v : variable.

Lemma keeps_refl (st : Locals.t) : keeps v st st.
Proof. destruct v; reflexivity. Qed.

Lemma keeps_trans (st1 st2 st3 : Locals.t) :
  keeps v st1 st2 -> keeps v st2 st3 -> keeps v st1 st3.
Proof. destruct v; cbn [keeps]; congruence. Qed.

Lemma entryStep_keeps (st st' : Locals.t) (j : Z) :
  getUint16 view (firstIFDOffset + 2 + j * 12) littleEndian <> Ok (variableTag v) ->
  entryStep view littleEndian firstIFDOffset st j = Ok st' ->
  keeps v st st'.
Proof.
  intros Hother H. unfold entryStep in H.
  destruct (firstIFDOffset + 2 + j * 12 + 12 >? byteLength view);
    [injection H as <-; apply keeps_refl|].
  destruct (getUint16 view (firstIFDOffset + 2 + j * 12) littleEndian) as [tag|e] eqn:Htag;
    cbn [bind] in H; [|discriminate].
  read_in H. read_in H. read_in H.
  match type of H with
  | match ?o with Some _ => _ | None => _ end = _ => destruct o as [valueOffset|]
  end; [|injection H as <-; apply keeps_refl].
  assert (Htag' : forall t, (tag =? t) = true -> variableTag v <> t)
    by (intros t E Ev; apply Z.eqb_eq in E; apply Hother; congruence).
  destruct st as [w h x y d].
  destruct (tag =? 0x0100) eqn:E1;
    [read_in H; injection H as <-; specialize (Htag' _ E1);
     destruct v; first [reflexivity | contradiction Htag'; reflexivity]|].
  destruct (tag =? 0x0101) eqn:E2;
    [read_in H; injection H as <-; specialize (Htag' _ E2);
     destruct v; first [reflexivity | contradiction Htag'; reflexivity]|].
  destruct (tag =? 0x011A) eqn:E3;
    [read_in H; injection H as <-; specialize (Htag' _ E3);
     destruct v; first [reflexivity | contradiction Htag'; reflexivity]|].
  destruct (tag =? 0x011B) eqn:E4;
    [read_in H; injection H as <-; specialize (Htag' _ E4);
     destruct v; first [reflexivity | contradiction Htag'; reflexivity]|].
  destruct (tag =? 0x010E) eqn:E5;
    [read_in H; injection H as <-; specialize (Htag' _ E5);
     destruct v; first [reflexivity | contradiction Htag'; reflexivity]|].
  injection H as <-. apply keeps_refl.
Qed.

Lemma forEntries_keeps (n : nat) (st st' : Locals.t) (from : Z) :
  (forall j, from <= j < from + Z.of_nat n ->
     getUint16 view (firstIFDOffset + 2 + j * 12) littleEndian <> Ok (variableTag v)) ->
  forEntries view littleEndian firstIFDOffset n from st = Ok st' ->
  keeps v st st'.
Proof.
  revert st from. induction n as [|n IH]; intros st from Hother H; cbn [forEntries] in H.
  - injection H as <-. apply keeps_refl.
  - destruct (entryStep view littleEndian firstIFDOffset st from) as [st1|e] eqn:E;
      cbn [bind] in H; [|discriminate].
    apply (keeps_trans st st1 st').
    + apply (entryStep_keeps _ _ from); [apply Hother; lia | exact E].
    + apply (IH st1 (from + 1)); [intros j Hj; apply Hother; lia | exact H].
Qed.
(** An entry that is not decoded under the tag of [v] leaves [v] alone:
    it is skipped, or it assigns another variable or none. *)
Lemma entryStep_notDecoded (st st' : Locals.t) (j : Z) :
  notDecoded view littleEndian firstIFDOffset (variableTag v) j ->
  entryStep view littleEndian firstIFDOffset st j = Ok st' ->
  keeps v st st'.
Proof.
  intros Hnot H.
  destruct (getUint16 view (firstIFDOffset + 2 + j * 12) littleEndian) as [tag|e] eqn:Htag.
  2:{ apply (entryStep_keeps _ _ j); [rewrite Htag; discriminate | exact H]. }
  destruct (Z.eq_dec tag (variableTag v)) as [->|Hne].
  2:{ apply (entryStep_keeps _ _ j); [rewrite Htag; congruence | exact H]. }
  unfold entryStep in H.
  destruct (firstIFDOffset + 2 + j * 12 + 12 >? byteLength view) eqn:Hspan;
    [injection H as <-; apply keeps_refl|].
  rewrite Htag in H. cbn [bind] in H. read_in H. read_in H. read_in H.
  match type of H with
  | match ?o with Some _ => _ | None => _ end = _ => destruct o as [valueOffset|]
  end; [|injection H as <-; apply keeps_refl].
  exfalso. eapply Hnot. constructor; try eassumption.
  unfold inSpan. apply gtb_false_iff. exact Hspan.
Qed.

Lemma forEntries_notDecoded (n : nat) (st st' : Locals.t) (from : Z) :
  (forall j, from <= j < from + Z.of_nat n ->
     notDecoded view littleEndian firstIFDOffset (variableTag v) j) ->
  forEntries view littleEndian firstIFDOffset n from st = Ok st' ->
  keeps v st st'.
Proof.
  revert st from. induction n as [|n IH]; intros st from Hnot H; cbn [forEntries] in H.
  - injection H as <-. apply keeps_refl.
  - destruct (entryStep view littleEndian firstIFDOffset st from) as [st1|e] eqn:E;
      cbn [bind] in H; [|discriminate].
    apply (keeps_trans st st1 st').
    + apply (entryStep_notDecoded _ _ from); [apply Hnot; lia | exact E].
    + apply (IH st1 (from + 1)); [intros j Hj; apply Hnot; lia | exact H].
Qed.
End Keeps.

Lemma forEntries_split_at (view : ArrayBuffer) (le : bool) (ifd : Z)
  (n : nat) (i : Z) (st st' : Locals.t) :
  0 <= i < Z.of_nat n ->
  forEntries view le ifd n 0 st = Ok st' ->
  exists st1 st2,
    forEntries view le ifd (Z.to_nat i) 0 st = Ok st1
    /\ entryStep view le ifd st1 i = Ok st2
    /\ forEntries view le ifd (n - Z.to_nat i - 1) (i + 1) st2 = Ok st'.
Proof.
  intros Hi H.
  replace n with (Z.to_nat i + (1 + (n - Z.to_nat i - 1)))%nat in H by lia.
  rewrite forEntries_app in H.
  destruct (forEntries view le ifd (Z.to_nat i) 0 st) as [st1|e] eqn:E1; cbn [bind] in H;
    [|discriminate].
  rewrite forEntries_app in H. cbn [forEntries] in H.
  replace (0 + Z.of_nat (Z.to_nat i)) with i in H by lia.
  destruct (entryStep view le ifd st1 i) as [st2|e] eqn:E2; cbn [bind] in H; [|discriminate].
  exists st1, st2. split; [reflexivity | split; [exact E2 | exact H]].
Qed.

(** The traversal behind a parse that returned. *)
Lemma parse_Ok_traversal (parseFromString : jsstring -> Element) (view : ArrayBuffer)
  (le : bool) (ifd n : Z) (meta : Meta) :
  readHeader view = Ok (Some (le, ifd, n)) ->
  parseTiffMetadata parseFromString view = Ok meta ->
  exists st,
    forEntries view le ifd (Z.to_nat n) 0 Locals.init = Ok st
    /\ meta = finish parseFromString st.
Proof.
  intros Hh H. unfold parseTiffMetadata in H. rewrite Hh in H. cbn [bind] in H.
  destruct (forEntries view le ifd (Z.to_nat n) 0 Locals.init) as [st|e];
    cbn [bind] in H; [|discriminate].
  injection H as <-. exists st. split; reflexivity.
Qed.

(** With every rational of a resolution entry inside the buffer the parse
    returns. *)
Lemma parse_returns (parseFromString : jsstring -> Element) (view : ArrayBuffer)
  (le : bool) (ifd n : Z) :
  readHeader view = Ok (Some (le, ifd, n)) ->
  rationalsInside view le ifd n ->
  exists meta, parseTiffMetadata parseFromString view = Ok meta.
Proof.
  intros Hh Hin. unfold parseTiffMetadata. rewrite Hh. cbn [bind].
  destruct (readHeader_Some _ _ _ _ Hh) as (Hifd & _ & Hn).
  destruct (forEntries view le ifd (Z.to_nat n) 0 Locals.init) as [st|e] eqn:E;
    cbn [bind]; [eexists; reflexivity|].
  destruct (forEntries_throws _ _ _ _ _ _ _ Hifd (Z.le_refl 0) E)
    as (i & a & type & count & vo & Hi & D & Hvo).
  exfalso.
  assert (vo + 8 <= byteLength view); [|lia].
  apply (Hin i (resolutionTag a) type count vo); [lia | destruct a; auto | exact D].
Qed.

(** X1: with several ImageWidth (ImageLength) entries the last one that is
    decoded wins, whatever the entries before it set and whatever entries
    that are skipped follow it: a parse that returns gives the value of its
    16- or 32-bit read as the width (height), and the parse does return, so
    that the reported metadata has this width (height), when no rational of
    a resolution entry leaves the buffer. *)
Theorem last_dimension_wins (parseFromString : jsstring -> Element) (view : ArrayBuffer)
  (le : bool) (ifd n i type count valueOffset : Z) :
  readHeader view = Ok (Some (le, ifd, n)) ->
  0 <= i < n ->
  (decodes view le ifd i 0x0100 type count valueOffset ->
   (forall j, i < j < n -> notDecoded view le ifd 0x0100 j) ->
   exists w,
     readDimension view le type valueOffset = Ok w
     /\ (forall meta, parseTiffMetadata parseFromString view = Ok meta ->
           width meta = Some w)
     /\ (rationalsInside view le ifd n ->
         width (metaOf parseFromString view) = Some w))
  /\ (decodes view le ifd i 0x0101 type count valueOffset ->
      (forall j, i < j < n -> notDecoded view le ifd 0x0101 j) ->
      exists h,
        readDimension view le type valueOffset = Ok h
        /\ (forall meta, parseTiffMetadata parseFromString view = Ok meta ->
              height meta = Some h)
        /\ (rationalsInside view le ifd n ->
            height (metaOf parseFromString view) = Some h)).
Proof.
  intros Hh Hi.
  assert (Hi' : 0 <= i < Z.of_nat (Z.to_nat n)) by lia.
  split; intros D Hlater;
    destruct (readDimension_returns _ _ _ _ _ _ _ _ D) as [w Hread];
    exists w; (split; [exact Hread|]).
  - assert (R : forall meta, parseTiffMetadata parseFromString view = Ok meta ->
                  width meta = Some w).
    { intros meta H.
      destruct (parse_Ok_traversal _ _ _ _ _ _ Hh H) as (st & Hst & ->).
      destruct (forEntries_split_at _ _ _ _ i _ _ Hi' Hst) as (st1 & st2 & _ & E & Hrest).
      destruct (finish_geometry parseFromString st) as (Hw & _).
      rewrite (entryStep_decodes _ _ _ _ _ _ _ _ _ D) in E. unfold assign in E.
      cbn [Z.eqb Pos.eqb] in E. rewrite Hread in E. cbn [bind] in E. injection E as <-.
      rewrite Hw.
      apply (forEntries_notDecoded view le ifd ImageWidth) in Hrest;
        [exact Hrest | intros j Hj; apply Hlater; lia]. }
    split; [exact R|]. intros Hin.
    destruct (parse_returns parseFromString _ _ _ _ Hh Hin) as [meta Hmeta].
    unfold metaOf. rewrite Hmeta. apply R. exact Hmeta.
  - assert (R : forall meta, parseTiffMetadata parseFromString view = Ok meta ->
                  height meta = Some w).
    { intros meta H.
      destruct (parse_Ok_traversal _ _ _ _ _ _ Hh H) as (st & Hst & ->).
      destruct (forEntries_split_at _ _ _ _ i _ _ Hi' Hst) as (st1 & st2 & _ & E & Hrest).
      destruct (finish_geometry parseFromString st) as (_ & Hh' & _).
      rewrite (entryStep_decodes _ _ _ _ _ _ _ _ _ D) in E. unfold assign in E.
      cbn [Z.eqb Pos.eqb] in E. rewrite Hread in E. cbn [bind] in E. injection E as <-.
      rewrite Hh'.
      apply (forEntries_notDecoded view le ifd ImageLength) in Hrest;
        [exact Hrest | intros j Hj; apply Hlater; lia]. }
    split; [exact R|]. intros Hin.
    destruct (parse_returns parseFromString _ _ _ _ Hh Hin) as [meta Hmeta].
    unfold metaOf. rewrite Hmeta. apply R. exact Hmeta.
Qed.

(** ImageWidth = 7 and then an ImageWidth entry that is skipped. *)
Lemma last_dimension_wins_witness :
  width (metaOf noXml skippedWidthTiff) = Some 7.
Proof.
  destruct (last_dimension_wins noXml skippedWidthTiff true 8 2 0 3 1 18) as [H _];
    [reflexivity | lia |].
  destruct H as (w & Hread & _ & Hmeta).
  - constructor; vm_compute; first [reflexivity | discriminate].
  - intros j Hj. assert (j = 1) as -> by lia.
    intros type count valueOffset [_ _ Htype Hcount Hvalue].
    vm_compute in Htype. injection Htype as <-.
    vm_compute in Hcount. injection Hcount as <-.
    vm_compute in Hvalue. discriminate Hvalue.
  - vm_compute in Hread. injection Hread as <-. apply Hmeta.
    intros j tag type count valueOffset Hj Htag [_ Ht _ _ _].
    assert (j = 0 \/ j = 1) as [-> | ->] by lia;
      vm_compute in Ht; injection Ht as <-; destruct Htag; discriminate.
Defined.

(** X2: when no entry of the directory carries the ImageDescription tag,
    the seven fields that come from the description are absent in the
    result. *)
Theorem no_description_no_fields (parseFromString : jsstring -> Element)
  (view : ArrayBuffer) (le : bool) (ifd n : Z) (meta : Meta) :
  readHeader view = Ok (Some (le, ifd, n)) ->
  (forall j, 0 <= j < n -> getUint16 view (ifd + 2 + j * 12) le <> Ok 0x010E) ->
  parseTiffMetadata parseFromString view = Ok meta ->
  meta = mkMeta (width meta) (height meta) (xResolution meta) (yResolution meta)
           None None None None None None None.
Proof.
  intros Hh Hno H.
  destruct (parse_Ok_traversal _ _ _ _ _ _ Hh H) as (st & Hst & ->).
  apply (forEntries_keeps view le ifd ImageDescription) in Hst;
    [|intros j Hj; apply Hno; lia].
  cbn [keeps Locals.init Locals.description] in Hst.
  unfold finish. rewrite Hst. reflexivity.
Qed.

Lemma no_description_no_fields_witness :
  mkMeta (Some 100) None None None None None None None None None None
  = mkMeta (Some 100) None None None None None None None None None None.
Proof.
  apply (no_description_no_fields noXml (minimalTiff true 100) true 8 1
           (mkMeta (Some 100) None None None None None None None None None None)).
  - reflexivity.
  - intros j Hj. assert (j = 0) as -> by lia. vm_compute. discriminate.
  - vm_compute. reflexivity.
Defined.

(** ** The description string *)

Lemma skipn_cons_nth {A} (d : A) (l : list A) (k : nat) :
  (k < List.length l)%nat -> skipn k l = nth k l d :: skipn (S k) l.
Proof.
  revert k. induction l as [|a l IH]; intros k H; [simpl in H; lia|].
  destruct k as [|k]; [reflexivity|]. cbn [skipn nth]. apply IH. simpl in H. lia.
Qed.

Lemma getUint8_nth (view : ArrayBuffer) (offset : Z) :
  0 <= offset < byteLength view ->
  getUint8 view offset = Ok (u8 (nth (Z.to_nat offset) view x00)).
Proof.
  intros H. unfold getUint8. rewrite getUint_in_bounds by (simpl; lia).
  rewrite (skipn_cons_nth x00) by (unfold byteLength in H; lia).
  cbn [firstn map numeric fold_left]. reflexivity.
Qed.

Lemma readChars_spec (view : ArrayBuffer) (valueOffset : Z) (n : nat) (j : Z)
  (chars : jsstring) :
  0 <= valueOffset + j -> valueOffset + j + Z.of_nat n <= byteLength view ->
  readChars view valueOffset n j chars
  = Ok (chars ++ untilNul (map u8 (firstn n (skipn (Z.to_nat (valueOffset + j)) view)))).
Proof.
  revert j chars. induction n as [|n IH]; intros j chars H0 Hn; cbn [readChars].
  - cbn [firstn map untilNul]. rewrite app_nil_r. reflexivity.
  - rewrite getUint8_nth by lia. cbn [bind].
    rewrite (skipn_cons_nth x00) by (unfold byteLength in Hn; lia).
    cbn [firstn map untilNul].
    destruct (u8 (nth (Z.to_nat (valueOffset + j)) view x00) =? 0).
    + rewrite app_nil_r. reflexivity.
    + rewrite IH by lia. rewrite <- app_assoc. cbn [app].
      replace (Z.to_nat (valueOffset + (j + 1))) with (S (Z.to_nat (valueOffset + j))) by lia.
      reflexivity.
Qed.

Lemma untilNul_chars (bs : list byte) :
  Forall (fun c => 0 < c < 256) (untilNul (map u8 bs)).
Proof.
  induction bs as [|b bs IH]; cbn [map untilNul]; [constructor|].
  destruct (Z.eqb_spec (u8 b) 0); constructor; [|exact IH].
  pose proof (u8_range b). lia.
Qed.

Lemma untilNul_length (bs : list Z) :
  (List.length (untilNul bs) <= List.length bs)%nat.
Proof.
  induction bs as [|b bs IH]; cbn [untilNul]; [lia|].
  destruct (b =? 0); simpl; lia.
Qed.

(** X3: the description taken from an ImageDescription value is the run of
    bytes that starts at the value offset and stops before the first zero
    byte, after [size] bytes or at the end of the buffer, whichever comes
    first; the read cannot throw.  So the string holds no NUL, only code
    units below 256, and at most [size] of them. *)
Theorem description_bytes (view : ArrayBuffer) (valueOffset size : Z) :
  0 <= valueOffset ->
  readDescription view valueOffset size
  = Ok (untilNul (map u8 (firstn (Z.to_nat size) (skipn (Z.to_nat valueOffset) view))))
  /\ forall d, readDescription view valueOffset size = Ok d ->
       Forall (fun c => 0 < c < 256) d
       /\ Z.of_nat (List.length d) <= Z.max 0 size
       /\ Z.of_nat (List.length d) <= Z.max 0 (byteLength view - valueOffset).
Proof.
  intros H0.
  assert (E : readDescription view valueOffset size
              = Ok (untilNul (map u8 (firstn (Z.to_nat size)
                                        (skipn (Z.to_nat valueOffset) view))))).
  { unfold readDescription.
    destruct (Z.le_gt_cases (byteLength view) valueOffset) as [Hout|Hin].
    - replace (Z.to_nat (Z.min size (byteLength view - valueOffset))) with 0%nat by lia.
      rewrite skipn_all2 by (unfold byteLength in Hout; lia).
      rewrite firstn_nil. reflexivity.
    - destruct (Z.le_gt_cases size 0) as [Hs|Hs].
      + replace (Z.to_nat (Z.min size (byteLength view - valueOffset))) with 0%nat by lia.
        replace (Z.to_nat size) with 0%nat by lia. reflexivity.
      + rewrite readChars_spec by lia. cbn [app]. rewrite Z.add_0_r.
        do 2 f_equal.
        destruct (Z.le_gt_cases size (byteLength view - valueOffset)) as [Hfit|Hcut].
        * rewrite Z.min_l by lia. reflexivity.
        * rewrite Z.min_r by lia.
          rewrite !firstn_all2; [reflexivity | |];
            rewrite length_skipn; unfold byteLength in *; lia. }
  split; [exact E|]. intros d Hd. rewrite E in Hd. injection Hd as <-.
  split; [apply untilNul_chars|].
  pose proof (untilNul_length
                (map u8 (firstn (Z.to_nat size) (skipn (Z.to_nat valueOffset) view)))) as L.
  rewrite length_map, length_firstn, length_skipn in L. unfold byteLength. lia.
Qed.

Lemma description_bytes_witness :
  readDescription (bytes [72; 105; 0; 33]) 0 4 = Ok (untilNul (map u8 (bytes [72; 105; 0; 33]))).
Proof.
  apply (description_bytes (bytes [72; 105; 0; 33]) 0 4). lia.
Defined.

(** ** Entries that change nothing *)

Lemma keeps_all (st st' : Locals.t) :
  (forall v, keeps v st st') -> st' = st.
Proof.
  intros H. destruct st, st'.
  pose proof (H ImageWidth). pose proof (H ImageLength). pose proof (H XResolution).
  pose proof (H YResolution). pose proof (H ImageDescription).
  cbn in *. congruence.
Qed.

(** X4: an entry inside the buffer whose tag is none of 0x0100, 0x0101,
    0x011A, 0x011B and 0x010E is ignored: the iteration returns normally and
    leaves every variable as it was, whatever its type, count and value. *)
Theorem unrecognised_tag_ignored (view : ArrayBuffer) (le : bool) (ifd i tag : Z)
  (st : Locals.t) :
  0 <= ifd -> 0 <= i ->
  getUint16 view (ifd + 2 + i * 12) le = Ok tag ->
  (forall v, tag <> variableTag v) ->
  entryStep view le ifd st i = Ok st.
Proof.
  intros Hifd Hi Htag Hother.
  destruct (entryStep view le ifd st i) as [st'|e] eqn:E.
  - f_equal. apply keeps_all. intros v.
    apply (entryStep_keeps view le ifd v st st' i); [|exact E].
    rewrite Htag. intros C. injection C as C. exact (Hother v C).
  - exfalso.
    destruct (entryStep_throws _ _ _ _ _ _ Hifd Hi E) as (a & type & count & vo & D & _).
    pose proof (decodes_tag _ _ _ _ _ _ _ _ D) as Htag'. rewrite Htag in Htag'.
    injection Htag' as ->.
    destruct a; [apply (Hother XResolution) | apply (Hother YResolution)]; reflexivity.
Qed.

(** An Orientation entry (tag 0x0112) after the header. *)
Lemma unrecognised_tag_ignored_witness :
  entryStep (bytes [0x49; 0x49; 42; 0;  8; 0; 0; 0;  1; 0;
                    0x12; 0x01;  3; 0;  1; 0; 0; 0;  1; 0; 0; 0])
    true 8 (Locals.mk (Some 5) None None None None) 0
  = Ok (Locals.mk (Some 5) None None None None).
Proof.
  apply (unrecognised_tag_ignored _ true 8 0 0x0112); try lia.
  - vm_compute. reflexivity.
  - intros v. destruct v; vm_compute; discriminate.
Defined.

(** X5: an entry whose value is pointed to (size above 4) and does not end
    inside the buffer is skipped: the iteration returns normally with every
    variable as it was, also when its tag is a recognised one. *)
Theorem unfitting_value_skipped (view : ArrayBuffer) (le : bool)
  (ifd i type count pointer : Z) (st : Locals.t) :
  0 <= ifd -> 0 <= i ->
  inSpan view ifd i ->
  getUint16 view (ifd + 2 + i * 12 + 2) le = Ok type ->
  getUint32 view (ifd + 2 + i * 12 + 4) le = Ok count ->
  getUint32 view (ifd + 2 + i * 12 + 8) le = Ok pointer ->
  4 < typeSize type * count ->
  byteLength view < pointer + typeSize type * count ->
  entryStep view le ifd st i = Ok st.
Proof.
  intros Hifd Hi Hspan Htype Hcount Hp Hsize Hfit. unfold inSpan in Hspan.
  destruct (getUint_returns 2 view (ifd + 2 + i * 12) le) as [tag Htag];
    [lia | change (Z.of_nat 2) with 2; lia |].
  unfold entryStep, valueLocation.
  replace (ifd + 2 + i * 12 + 12 >? byteLength view) with false
    by (symmetry; apply gtb_false_iff; exact Hspan).
  fold (getUint16 view (ifd + 2 + i * 12) le) in Htag.
  rewrite Htag, Htype, Hcount. cbn [bind].
  replace (typeSize type * count <=? 4) with false by (symmetry; apply Z.leb_gt; exact Hsize).
  rewrite Hp. cbn [bind].
  replace (pointer + typeSize type * count >? byteLength view) with true
    by (symmetry; apply gtb_true_iff; exact Hfit).
  reflexivity.
Qed.

(** An ImageWidth entry of type 4 and count 2 pointing past the end. *)
Lemma unfitting_value_skipped_witness :
  entryStep (bytes [0x49; 0x49; 42; 0;  8; 0; 0; 0;  1; 0;
                    0x00; 0x01;  4; 0;  2; 0; 0; 0;  20; 0; 0; 0])
    true 8 Locals.init 0
  = Ok Locals.init.
Proof.
  apply (unfitting_value_skipped _ true 8 0 4 2 20); try lia;
    vm_compute; first [reflexivity | discriminate].
Defined.

(** X6: interpreting the description, as XML or as text and whatever the
    XML parser returns, never changes width, height, xResolution or
    yResolution: the geometry of the result is what the traversal found. *)
Theorem description_keeps_geometry (parseFromString : jsstring -> Element)
  (description : option jsstring) (meta : Meta) (st : Locals.t) :
  (width (interpretDescription parseFromString description meta) = width meta
   /\ height (interpretDescription parseFromString description meta) = height meta
   /\ xResolution (interpretDescription parseFromString description meta)
      = xResolution meta
   /\ yResolution (interpretDescription parseFromString description meta)
      = yResolution meta)
  /\ (width (finish parseFromString st) = Locals.width st
      /\ height (finish parseFromString st) = Locals.height st
      /\ xResolution (finish parseFromString st) = Locals.xRes st
      /\ yResolution (finish parseFromString st) = Locals.yRes st).
Proof.
  split.
  - apply interpretDescription_geometry.
  - unfold finish. apply interpretDescription_geometry.
Qed.

(** ** Where exceptions come from *)

Lemma readHeader_throws_magic (view : ArrayBuffer) (e : exn) :
  readHeader view = Throw e ->
  exists b0 b1 b2 b3 rest,
    view = b0 :: b1 :: b2 :: b3 :: rest /\ magicNumber b0 b1 b2 b3 = 43.
Proof.
  intros H. pose proof (readHeader_throws _ _ H) as [H8 _].
  destruct (eight_bytes view H8) as (b0 & b1 & b2 & b3 & b4 & b5 & b6 & b7 & rest & ->).
  exists b0, b1, b2, b3, (b4 :: b5 :: b6 :: b7 :: rest). split; [reflexivity|].
  destruct (header_reads b0 b1 b2 b3 b4 b5 b6 b7 rest) as (E0 & E1 & E2).
  set (view := b0 :: b1 :: b2 :: b3 :: b4 :: b5 :: b6 :: b7 :: rest) in *.
  unfold readHeader in H.
  destruct (byteLength view <? 8); [discriminate|].
  rewrite E0, E1 in H. cbn [bind] in H. fold (markerLittleEndian b0 b1) in H.
  rewrite E2 in H. cbn [bind] in H.
  destruct (Z.eqb_spec (magicNumber b0 b1 b2 b3) 43) as [|N43]; [assumption|].
  destruct (Z.eqb_spec (magicNumber b0 b1 b2 b3) 42) as [E42|N42];
    cbn [negb andb] in H; [|discriminate].
  exfalso.
  destruct (getUint_returns 4 view 4 (markerLittleEndian b0 b1)) as [ifd Hifd];
    [lia | simpl; lia |].
  fold (getUint32 view 4 (markerLittleEndian b0 b1)) in Hifd.
  rewrite Hifd in H. cbn [bind] in H.
  destruct (Z.gtb_spec (ifd + 2) (byteLength view)) as [|Hfit]; [discriminate|].
  pose proof (getUint_nonneg _ _ _ _ _ Hifd) as Hpos.
  destruct (getUint_returns 2 view ifd (markerLittleEndian b0 b1) Hpos) as [n Hn];
    [simpl; lia|].
  fold (getUint16 view ifd (markerLittleEndian b0 b1)) in Hn.
  rewrite Hn in H. discriminate.
Qed.

(** X7: the parser throws in two situations only: a BigTIFF marker (magic
    43) in a buffer of 8 to 11 bytes, where the 64-bit offset read leaves the
    buffer, and a resolution entry whose eight-byte rational does not end
    inside the buffer.  In every other case it returns; [handleFile] turns
    both exceptions into the empty metadata. *)
Theorem parser_exception_sources (parseFromString : jsstring -> Element)
  (view : ArrayBuffer) (e : exn) :
  parseTiffMetadata parseFromString view = Throw e ->
  metaOf parseFromString view = emptyMeta
  /\ ((8 <= byteLength view < 12
       /\ exists b0 b1 b2 b3 rest,
            view = b0 :: b1 :: b2 :: b3 :: rest /\ magicNumber b0 b1 b2 b3 = 43)
      \/ exists le ifd numEntries i a type count valueOffset,
           readHeader view = Ok (Some (le, ifd, numEntries))
           /\ 0 <= i < numEntries
           /\ decodes view le ifd i (resolutionTag a) type count valueOffset
           /\ byteLength view < valueOffset + 8).
Proof.
  intros H. split; [unfold metaOf; rewrite H; reflexivity|].
  unfold parseTiffMetadata in H.
  destruct (readHeader view) as [[[[le ifd] n]|]|e0] eqn:Hh; cbn [bind] in H.
  - right. destruct (readHeader_Some _ _ _ _ Hh) as (Hifd & _ & Hn).
    destruct (forEntries view le ifd (Z.to_nat n) 0 Locals.init) as [st|e1] eqn:E;
      cbn [bind] in H; [discriminate|].
    destruct (forEntries_throws _ _ _ _ _ _ _ Hifd (Z.le_refl 0) E)
      as (i & a & type & count & vo & Hi & D & Hvo).
    exists le, ifd, n, i, a, type, count, vo.
    split; [reflexivity | split; [lia | split; assumption]].
  - discriminate.
  - left. split; [apply (readHeader_throws _ _ Hh) | apply (readHeader_throws_magic _ _ Hh)].
Qed.

(** A BigTIFF marker followed by four bytes only. *)
Lemma parser_exception_sources_witness :
  metaOf noXml (bytes [0x49; 0x49; 43; 0;  8; 0; 0; 0]) = emptyMeta.
Proof.
  apply (parser_exception_sources noXml (bytes [0x49; 0x49; 43; 0;  8; 0; 0; 0]) RangeError).
  vm_compute. reflexivity.
Defined.

(** ** The header that is accepted *)

Lemma fold_numeric (b : list Z) (acc : Z) :
  fold_left (fun acc x => acc * 256 + x) b acc
  = acc * 256 ^ Z.of_nat (List.length b) + numeric b.
Proof.
  unfold numeric. revert acc. induction b as [|x b IH]; intros acc.
  - cbn. lia.
  - cbn [fold_left List.length]. rewrite (IH (acc * 256 + x)), (IH (0 * 256 + x)).
    rewrite Nat2Z.inj_succ, Z.pow_succ_r by lia. lia.
Qed.

Lemma numeric_app (a b : list Z) :
  numeric (a ++ b) = numeric a * 256 ^ Z.of_nat (List.length b) + numeric b.
Proof. unfold numeric at 1. rewrite fold_left_app. apply fold_numeric. Qed.

Lemma numeric_bound (bs : list Z) :
  Forall (fun b => 0 <= b < 256) bs -> 0 <= numeric bs < 256 ^ Z.of_nat (List.length bs).
Proof.
  induction 1 as [|x bs Hx _ IH].
  - cbn. lia.
  - change (x :: bs) with ([x] ++ bs). rewrite numeric_app.
    change (numeric [x]) with (0 * 256 + x). cbn [app List.length].
    rewrite Nat2Z.inj_succ, Z.pow_succ_r by lia. nia.
Qed.

Lemma getUint_bound (n : nat) (view : ArrayBuffer) (offset : Z) (le : bool) (v : Z) :
  getUint n view offset le = Ok v -> 0 <= v < 256 ^ Z.of_nat n.
Proof.
  intros H. destruct (getUint_Ok_bounds _ _ _ _ _ H) as [H0 Hn].
  rewrite getUint_in_bounds in H by assumption. injection H as <-. cbv zeta.
  set (bs := map u8 (firstn n (skipn (Z.to_nat offset) view))).
  assert (L : List.length bs = n).
  { unfold bs. rewrite length_map, length_firstn, length_skipn.
    unfold byteLength in Hn. lia. }
  assert (F : Forall (fun b => 0 <= b < 256) bs).
  { apply Forall_forall. intros b Hb. apply in_map_iff in Hb as (x & <- & _).
    apply u8_range. }
  clearbody bs. subst n.
  destruct le; [rewrite <- length_rev; apply numeric_bound, Forall_rev|
                apply numeric_bound]; exact F.
Qed.

(** X8: a header is accepted only with at least 8 bytes and magic 42 or 43;
    the byte order is little-endian exactly when the first two bytes are II;
    the directory offset leaves room for the entry count inside the buffer,
    and the count is the 16-bit value read there, so the traversal makes at
    most 65535 iterations. *)
Theorem accepted_header (view : ArrayBuffer) (le : bool) (ifd n : Z) :
  readHeader view = Ok (Some (le, ifd, n)) ->
  (exists b0 b1 b2 b3 rest,
     view = b0 :: b1 :: b2 :: b3 :: rest
     /\ le = markerLittleEndian b0 b1
     /\ (magicNumber b0 b1 b2 b3 = 42 \/ magicNumber b0 b1 b2 b3 = 43))
  /\ 8 <= byteLength view
  /\ 0 <= ifd /\ ifd + 2 <= byteLength view
  /\ getUint16 view ifd le = Ok n
  /\ 0 <= n <= 65535.
Proof.
  intros H.
  assert (H8 : 8 <= byteLength view).
  { unfold readHeader in H. destruct (Z.ltb_spec (byteLength view) 8); [discriminate|lia]. }
  destruct (readHeader_Some _ _ _ _ H) as (Hifd & Hfit & _).
  destruct (eight_bytes view H8) as (b0 & b1 & b2 & b3 & b4 & b5 & b6 & b7 & rest & ->).
  destruct (header_reads b0 b1 b2 b3 b4 b5 b6 b7 rest) as (E0 & E1 & E2).
  set (view := b0 :: b1 :: b2 :: b3 :: b4 :: b5 :: b6 :: b7 :: rest) in *.
  unfold readHeader in H.
  destruct (byteLength view <? 8); [discriminate|].
  rewrite E0, E1 in H. cbn [bind] in H. fold (markerLittleEndian b0 b1) in H.
  rewrite E2 in H. cbn [bind] in H.
  assert (Hmagic : magicNumber b0 b1 b2 b3 = 42 \/ magicNumber b0 b1 b2 b3 = 43).
  { destruct (Z.eqb_spec (magicNumber b0 b1 b2 b3) 42); [left; assumption|].
    destruct (Z.eqb_spec (magicNumber b0 b1 b2 b3) 43); [right; assumption|].
    discriminate. }
  destruct (negb _ && negb _); [discriminate|].
  read_in H.
  match type of H with
  | (if ?g then _ else _) = _ => destruct g; [discriminate|]
  end.
  read_in H. injection H as <- <- <-.
  match goal with
  | E : getUint16 view _ _ = Ok ?x |- context [?x <= 65535] =>
      pose proof (getUint_bound _ _ _ _ _ E) as Hn; change (256 ^ Z.of_nat 2) with 65536 in Hn
  end.
  split; [exists b0, b1, b2, b3, (b4 :: b5 :: b6 :: b7 :: rest); repeat split; assumption|].
  repeat split; try assumption; lia.
Qed.

Lemma accepted_header_witness :
  getUint16 (minimalTiff false 100) 8 false = Ok 1.
Proof.
  apply (accepted_header (minimalTiff false 100) false 8 1). reflexivity.
Defined.

(** ** The 64-bit read *)

Lemma getUint_negative (n : nat) (view : ArrayBuffer) (offset : Z) (le : bool) :
  offset < 0 -> getUint n view offset le = Throw RangeError.
Proof.
  intros H. unfold getUint, rawBytes. apply Z.ltb_lt in H. rewrite H. reflexivity.
Qed.

Lemma getUint64_getUint8bytes (view : ArrayBuffer) (offset : Z) (le : bool) :
  getUint64 view offset le = (v <- getUint 8 view offset le ;; Ok (binary64 v)).
Proof.
  unfold getUint64, getUint32.
  destruct (Z.lt_ge_cases offset 0) as [Hneg|H0].
  { rewrite (getUint_negative 4), (getUint_negative 8) by assumption. reflexivity. }
  destruct (Z.lt_ge_cases (byteLength view) (offset + 4)) as [H4|H4].
  { rewrite (getUint_past_end 4), (getUint_past_end 8)
      by (change (Z.of_nat 4) with 4; change (Z.of_nat 8) with 8; lia).
    reflexivity. }
  destruct (Z.lt_ge_cases (byteLength view) (offset + 8)) as [H8|H8].
  { rewrite (getUint_in_bounds 4 view offset) by (change (Z.of_nat 4) with 4; lia).
    cbn [bind].
    rewrite (getUint_past_end 4), (getUint_past_end 8)
      by (change (Z.of_nat 4) with 4; change (Z.of_nat 8) with 8; lia).
    reflexivity. }
  assert (Elo : getUint 4 view offset le = _)
    by (apply getUint_in_bounds; [|change (Z.of_nat 4) with 4]; lia).
  assert (Ehi : getUint 4 view (offset + 4) le = _)
    by (apply getUint_in_bounds; [|change (Z.of_nat 4) with 4]; lia).
  pose proof (getUint_bound _ _ _ _ _ Elo) as Blo.
  pose proof (getUint_bound _ _ _ _ _ Ehi) as Bhi.
  change (256 ^ Z.of_nat 4) with (2 ^ 32) in Blo, Bhi.
  rewrite Elo, Ehi, (getUint_in_bounds 8 view offset)
    by (change (Z.of_nat 8) with 8; lia).
  cbn [bind]. cbv zeta in *. f_equal. unfold numberAdd.
  set (l := skipn (Z.to_nat offset) view) in *.
  assert (Hl : (8 <= List.length l)%nat)
    by (unfold l; rewrite length_skipn; unfold byteLength in H8; lia).
  replace (skipn (Z.to_nat (offset + 4)) view) with (skipn 4 l) in *
    by (unfold l; rewrite skipn_skipn; f_equal; lia).
  assert (E : firstn 8 l = firstn 4 l ++ firstn 4 (skipn 4 l)).
  { rewrite <- (firstn_skipn 4 l) at 1.
    replace 8%nat with (List.length (firstn 4 l) + 4)%nat
      by (rewrite length_firstn; lia).
    apply firstn_app_2. }
  rewrite E, map_app.
  assert (L4 : forall k, (k + 4 <= List.length l)%nat ->
                 List.length (map u8 (firstn 4 (skipn k l))) = 4%nat)
    by (intros k Hk; rewrite length_map, length_firstn, length_skipn; lia).
  destruct le; rewrite numberMul_word by assumption; f_equal.
  - rewrite rev_app_distr, numeric_app, length_rev.
    change (firstn 4 l) with (firstn 4 (skipn 0 l)). rewrite L4 by lia. reflexivity.
  - rewrite numeric_app, L4 by lia. reflexivity.
Qed.

(** The sum [high * 0x100000000 + low] of a 64-bit read, computed with
    binary64 arithmetic, on words at and around the roundings. *)
Example binary64_as_floats :
  forallb (fun '(high, low) =>
             integerOf (of_uint32 high * 0x100000000 + of_uint32 low)%float
             =? numberAdd (numberMul high 0x100000000) low)
    [(0, 0); (0, 1); (1, 0); (2, 1); (2097151, 4294967295);
     (2097152, 0); (2097152, 1); (2097152, 2); (2097152, 3); (2097152, 4);
     (2097152, 5); (2097152, 6); (2097152, 7);
     (4194304, 1); (4194304, 2); (4194304, 3); (4194304, 5); (4194304, 6); (4194304, 7);
     (16777216, 255); (16777216, 256); (16777216, 257); (16777216, 767); (16777216, 768);
     (2147483648, 1024); (2147483648, 1025); (2147483648, 3071); (2147483648, 3072);
     (1234567890, 987654321); (4000000000, 123456789);
     (4294967295, 1023); (4294967295, 1024); (4294967295, 1025); (4294967295, 3072);
     (4294967295, 4294965247); (4294967295, 4294965248); (4294967295, 4294966271);
     (4294967295, 4294966272); (4294967295, 4294967295)]
  = true.
Proof. vm_compute. reflexivity. Qed.

(** X9: [getUint64] throws exactly when the eight bytes at [offset] do not
    all lie inside the buffer.  Otherwise it returns the Number nearest to
    the unsigned 64-bit value of those bytes in the given byte order: the
    value itself below 2^53, and above that a value that differs from it by
    at most 1024 and can be 2^64, which no 64-bit read holds. *)
Theorem getUint64_value (view : ArrayBuffer) (offset : Z) (le : bool) :
  (getUint64 view offset le = Throw RangeError
   <-> offset < 0 \/ byteLength view < offset + 8)
  /\ (forall v, getUint 8 view offset le = Ok v ->
        getUint64 view offset le = Ok (binary64 v)
        /\ isNumber (binary64 v)
        /\ (forall d, isNumber d -> Z.abs (binary64 v - v) <= Z.abs (d - v))
        /\ (v < 2 ^ 53 -> getUint64 view offset le = Ok v)
        /\ Z.abs (binary64 v - v) <= 1024
        /\ 0 <= binary64 v <= 2 ^ 64)
  /\ getUint64 (repeat xff 8) 0 le = Ok (2 ^ 64).
Proof.
  split; [|split].
  - rewrite getUint64_getUint8bytes. split.
    + intros H. destruct (Z.lt_ge_cases offset 0); [left; assumption|].
      destruct (Z.lt_ge_cases (byteLength view) (offset + 8)); [right; assumption|].
      rewrite getUint_in_bounds in H by (change (Z.of_nat 8) with 8; lia). discriminate.
    + intros [H|H]; [rewrite getUint_negative | rewrite getUint_past_end];
        solve [assumption | reflexivity].
  - intros v H. rewrite getUint64_getUint8bytes, H. cbn [bind].
    pose proof (getUint_bound _ _ _ _ _ H) as B.
    change (256 ^ Z.of_nat 8) with (2 ^ 64) in B.
    destruct (binary64_near v B) as [Hnear Hmax].
    split; [reflexivity|].
    split; [apply binary64_isNumber; lia|].
    split; [intros d Hd; apply binary64_nearest; [lia | exact Hd]|].
    split; [|split; [exact Hnear|split; [|exact Hmax]]].
    + intros Hv. rewrite binary64_small by exact Hv. reflexivity.
    + apply binary64_nonneg. lia.
  - destruct le; vm_compute; reflexivity.
Qed.

Lemma getUint64_value_witness :
  getUint64 (bytes [1; 0; 0; 0; 2; 0; 0; 0]) 0 true = Ok 8589934593
  /\ Z.abs (binary64 (2 ^ 53 + 1) - (2 ^ 53 + 1)) <= 1024.
Proof.
  split.
  - destruct (getUint64_value (bytes [1; 0; 0; 0; 2; 0; 0; 0]) 0 true) as (_ & H & _).
    destruct (H 8589934593) as (_ & _ & _ & Hv & _); [vm_compute; reflexivity|].
    apply Hv. vm_compute. reflexivity.
  - destruct (getUint64_value (bytes [1; 0; 0; 0; 0; 0; 32; 0]) 0 true) as (_ & H & _).
    destruct (H (2 ^ 53 + 1)) as (_ & _ & _ & _ & Hn & _); [vm_compute; reflexivity|].
    exact Hn.
Defined.

(** ** XML or text *)

Lemma trimStart_blanks (blanks s : jsstring) :
  Forall (fun c => isWhiteSpace c = true) blanks -> trimStart (blanks ++ s) = trimStart s.
Proof.
  induction 1 as [|c blanks Hc _ IH]; [reflexivity|].
  cbn [app trimStart]. rewrite Hc. exact IH.
Qed.

Lemma trimStart_solid (c : Z) (s : jsstring) :
  isWhiteSpace c = false -> trimStart (c :: s) = c :: s.
Proof. intros H. cbn [trimStart]. rewrite H. reflexivity. Qed.

Lemma trimStart_snoc (l : jsstring) (c : Z) :
  isWhiteSpace c = false -> exists l', trimStart (l ++ [c]) = l' ++ [c].
Proof.
  intros Hc. induction l as [|x l IH].
  - exists []. apply trimStart_solid. exact Hc.
  - cbn [app trimStart]. destruct (isWhiteSpace x); [exact IH|].
    exists (x :: l). reflexivity.
Qed.

Lemma trim_first (blanks rest : jsstring) (c : Z) :
  Forall (fun x => isWhiteSpace x = true) blanks -> isWhiteSpace c = false ->
  exists rest', trim (blanks ++ c :: rest) = c :: rest'.
Proof.
  intros Hb Hc. unfold trim. rewrite trimStart_blanks, trimStart_solid by assumption.
  cbn [rev]. destruct (trimStart_snoc (rev rest) c Hc) as [l' ->].
  exists (rev l'). rewrite rev_app_distr. reflexivity.
Qed.

Lemma trim_blank (d : jsstring) :
  Forall (fun x => isWhiteSpace x = true) d -> trim d = [].
Proof.
  intros H. unfold trim.
  rewrite <- (app_nil_r d), trimStart_blanks by assumption. reflexivity.
Qed.

Lemma startsWith_lt (c : Z) (s : jsstring) : startsWith (c :: s) (str "<") = (c =? 60).
Proof.
  change (str "<") with [60]. cbn [startsWith].
  destruct s; cbn [startsWith]; apply andb_true_r.
Qed.

(** X10: the first character of the description that is not white space
    decides how it is read: [<] sends the whole description to the XML
    parser and never to the regular expressions, anything else (and a blank
    description) sends it to the regular expressions only.  An absent or
    empty description adds nothing, and neither does an XML document without
    a [Pixels] element. *)
Theorem description_branch (parseFromString : jsstring -> Element) (meta : Meta) :
  (forall blanks c rest,
     Forall (fun x => isWhiteSpace x = true) blanks -> isWhiteSpace c = false ->
     interpretDescription parseFromString (Some (blanks ++ c :: rest)) meta
     = if c =? 60 then interpretXml parseFromString (blanks ++ c :: rest) meta
       else interpretText (blanks ++ c :: rest) meta)
  /\ (forall c s,
        Forall (fun x => isWhiteSpace x = true) (c :: s) ->
        interpretDescription parseFromString (Some (c :: s)) meta
        = interpretText (c :: s) meta)
  /\ (forall d,
        getElementsByTagName (parseFromString d) (str "Pixels") = [] ->
        interpretXml parseFromString d meta = meta)
  /\ interpretDescription parseFromString None meta = meta
  /\ interpretDescription parseFromString (Some []) meta = meta.
Proof.
  split; [|split; [|split; [|split]]]; try reflexivity.
  - intros blanks c rest Hb Hc.
    destruct (trim_first blanks rest c Hb Hc) as [rest' Ht].
    assert (E : exists x s, blanks ++ c :: rest = x :: s)
      by (destruct blanks; eexists; eexists; reflexivity).
    destruct E as (x & s & E). rewrite E in *. unfold interpretDescription.
    rewrite Ht, startsWith_lt. reflexivity.
  - intros c s H. unfold interpretDescription. rewrite (trim_blank _ H). reflexivity.
  - intros d H. unfold interpretXml. rewrite H. reflexivity.
Qed.

Lemma description_branch_witness :
  interpretDescription noXml (Some (str "  frame rate: 25")) emptyMeta
  = interpretText (str "  frame rate: 25") emptyMeta.
Proof.
  destruct (description_branch noXml emptyMeta) as (H & _).
  apply (H (str "  ") 102 (str "rame rate: 25")).
  - repeat constructor.
  - reflexivity.
Defined.

(** ** The unit of the pixel size *)

Lemma matcher_literal {R : Type} (l s : jsstring) (caps : list jsstring)
  (k : jsstring -> list jsstring -> option R) :
  matcher false (fold_right (fun c r => Seq (Lit c) r) Empty l) s caps k
  = if startsWith s l then k (skipn (List.length l) s) caps else None.
Proof.
  revert s. induction l as [|c l IH]; intros s.
  - destruct s; reflexivity.
  - cbn [fold_right matcher]. destruct s as [|x s]; [reflexivity|].
    cbn [startsWith List.length skipn]. unfold canonicalize. cbn [andb].
    destruct (x =? c); [apply IH | reflexivity].
Qed.

Lemma startsWith_app (l rest : jsstring) : startsWith (l ++ rest) l = true.
Proof.
  induction l as [|c l IH]; [destruct rest; reflexivity|].
  cbn [app startsWith]. rewrite Z.eqb_refl. exact IH.
Qed.

Lemma matchAt_micro (pre s : jsstring) :
  option_map (fun res => (before res, after res)) (matchAt false microRegex pre s)
  = if microAt s then Some (pre, skipn 5 s) else None.
Proof.
  unfold matchAt, microRegex, microAt, lits. cbn [matcher].
  rewrite !matcher_literal.
  destruct (startsWith s (str "micro")); [reflexivity|].
  destruct (startsWith s (str "Micro")); reflexivity.
Qed.

(** The text after the replacement, the search having reached [s] with
    [pre] behind it. *)
Lemma replace_from (s pre : jsstring) :
  match execFrom false microRegex pre s with
  | Some res => before res ++ microReplacement ++ after res
  | None => pre ++ s
  end
  = pre ++ replaceMicro s.
Proof.
  revert pre. induction s as [|c s IH]; intros pre.
  - reflexivity.
  - assert (E : replaceMicro (c :: s)
                = match execFrom false microRegex [] (c :: s) with
                  | Some res => before res ++ microReplacement ++ after res
                  | None => c :: s
                  end) by reflexivity.
    rewrite E. cbn [execFrom].
    pose proof (matchAt_micro pre (c :: s)) as Hpre.
    pose proof (matchAt_micro [] (c :: s)) as Hnil.
    destruct (microAt (c :: s)).
    + destruct (matchAt false microRegex pre (c :: s)) as [r1|]; [|discriminate].
      destruct (matchAt false microRegex [] (c :: s)) as [r2|]; [|discriminate].
      cbn [option_map] in Hpre, Hnil. injection Hpre as -> ->. injection Hnil as -> ->.
      reflexivity.
    + destruct (matchAt false microRegex pre (c :: s)) as [r1|]; [discriminate|].
      destruct (matchAt false microRegex [] (c :: s)) as [r2|]; [discriminate|].
      pose proof (IH (pre ++ [c])) as I1. pose proof (IH ([] ++ [c])) as I2.
      destruct (execFrom false microRegex (pre ++ [c]) s) as [r|],
        (execFrom false microRegex ([] ++ [c]) s) as [r'|].
      * rewrite I1, I2, <- app_assoc. reflexivity.
      * apply app_inv_head in I2. rewrite I1, <- I2, <- app_assoc. reflexivity.
      * apply app_inv_head in I1. rewrite I2, <- I1. reflexivity.
      * reflexivity.
Qed.

(** X11: the unit of the pixel-size lines is the physicalSizeUnit in which
    the leftmost [micro] or [Micro] is replaced by [μm] and everything before
    and after it is kept: a unit that starts with it becomes [μm] followed by
    the rest of the unit, a character before it is copied, and a unit without
    it is printed unchanged. *)
Theorem unit_replacement :
  (forall rest, replaceMicro (str "micro" ++ rest) = microReplacement ++ rest)
  /\ (forall rest, replaceMicro (str "Micro" ++ rest) = microReplacement ++ rest)
  /\ (forall c s, microAt (c :: s) = false -> replaceMicro (c :: s) = c :: replaceMicro s)
  /\ replaceMicro [] = []
  /\ (forall s, (forall k, microAt (skipn k s) = false) -> replaceMicro s = s)
  /\ (forall meta c s,
        physicalSizeUnit meta = Some (c :: s) ->
        sizeUnit meta = str " " ++ replaceMicro (c :: s)).
Proof.
  assert (Hat : forall s, microAt s = true ->
                          replaceMicro s = microReplacement ++ skipn 5 s).
  { intros s H. rewrite <- (app_nil_l (replaceMicro s)), <- replace_from.
    destruct s as [|c s]; [discriminate|]. cbn [execFrom].
    pose proof (matchAt_micro [] (c :: s)) as Hm. rewrite H in Hm.
    destruct (matchAt false microRegex [] (c :: s)) as [r|]; [|discriminate].
    cbn [option_map] in Hm. injection Hm as -> ->. reflexivity. }
  assert (Hskip : forall c s, microAt (c :: s) = false ->
                              replaceMicro (c :: s) = c :: replaceMicro s).
  { intros c s H. rewrite <- (app_nil_l (replaceMicro (c :: s))), <- replace_from.
    cbn [execFrom].
    pose proof (matchAt_micro [] (c :: s)) as Hm. rewrite H in Hm.
    destruct (matchAt false microRegex [] (c :: s)) as [r|]; [discriminate|].
    apply (replace_from s [c]). }
  split; [|split; [|split; [|split; [|split]]]].
  - intros rest. rewrite (Hat (str "micro" ++ rest)); [reflexivity|].
    unfold microAt. rewrite startsWith_app. reflexivity.
  - intros rest. rewrite (Hat (str "Micro" ++ rest)); [reflexivity|].
    unfold microAt. rewrite (startsWith_app (str "Micro")). apply orb_true_r.
  - exact Hskip.
  - reflexivity.
  - intros s. induction s as [|c s IH]; intros H; [reflexivity|].
    rewrite Hskip by (apply (H 0%nat)). f_equal. apply IH.
    intros k. apply (H (S k)).
  - intros meta c s H. unfold sizeUnit. rewrite H. reflexivity.
Qed.

Lemma unit_replacement_witness :
  replaceMicro (str "nm") = str "nm".
Proof.
  destruct unit_replacement as (_ & _ & _ & _ & H & _).
  apply H. intros k. destruct k as [|[|[|k]]]; reflexivity.
Defined.

(** ** The attributes of the Pixels element *)


(** ** Key, separator and number *)

Section Deterministic.
Context {R : Type}.
Variable k : jsstring -> list jsstring -> option R.

Lemma matcher_lits_fold (w u t : jsstring) (caps : list jsstring) :
  sameLetters u w ->
  matcher true (fold_right (fun c r => Seq (Lit c) r) Empty w) (u ++ t) caps k = k t caps.
Proof.
  revert u. induction w as [|c w IH]; intros u H.
  - apply eq_sym, sameLetters_nil_l in H. subst u. reflexivity.
  - assert (H' : sameLetters (c :: w) u) by (symmetry; exact H).
    destruct (sameLetters_cons_l _ _ _ H') as (x & u' & -> & Hx & Hu).
    cbn [fold_right matcher app]. rewrite <- Hx, Z.eqb_refl.
    apply IH. symmetry. exact Hu.
Qed.

(** A greedy repetition takes the whole run when the continuation accepts
    what follows it. *)
Lemma matcher_star_run (set : Z -> bool) (u t : jsstring) (caps : list jsstring) (res : R) :
  Forall (fun x => set x = true) u ->
  k t caps = Some res ->
  match t with [] => True | x :: _ => set x = false end ->
  matcher true (StarOf set) (u ++ t) caps k = Some res.
Proof.
  intros Hu Hk Ht. induction Hu as [|x u Hx _ IH].
  - cbn [app matcher]. destruct t as [|y t]; [exact Hk|]. rewrite Ht. exact Hk.
  - cbn [app matcher] in *. rewrite Hx, IH. reflexivity.
Qed.
End Deterministic.

Lemma blank_not_digit (c : Z) : isDigitOrDot c = true -> isWhiteSpace c = false.
Proof.
  unfold isDigitOrDot, isDigit, isWhiteSpace. cbn [existsb]. intros H.
  assert (Hc : 46 <= c <= 57).
  { apply orb_true_iff in H as [H|H]; [apply andb_true_iff in H as [H1 H2]|]; lia. }
  repeat match goal with
         | |- context [c =? ?x] => replace (c =? x) with false by (symmetry; apply Z.eqb_neq; lia)
         end.
  replace (8192 <=? c) with false by (symmetry; apply Z.leb_gt; lia). reflexivity.
Qed.

Lemma matcher_number_head {R : Type} (k : jsstring -> list jsstring -> option R)
  (x : Z) (s : jsstring) (caps : list jsstring) :
  matcher true number (x :: s) caps k
  = if isDigitOrDot x then
      matcher true (StarOf isDigitOrDot) s caps
        (fun t c => k t (c ++ [firstn (List.length (x :: s) - List.length t) (x :: s)]))
    else None.
Proof. reflexivity. Qed.

Lemma matcher_Seq {R : Type} (k : jsstring -> list jsstring -> option R)
  (r1 r2 : regex) (s : jsstring) (caps : list jsstring) :
  matcher true (Seq r1 r2) s caps k
  = matcher true r1 s caps (fun s' caps' => matcher true r2 s' caps' k).
Proof. reflexivity. Qed.

(** The number group at the head of [num ++ rest]. *)
Lemma matcher_number {R : Type} (k : jsstring -> list jsstring -> option R)
  (d : Z) (ds rest : jsstring) (caps : list jsstring) (res : R) :
  Forall (fun x => isDigitOrDot x = true) (d :: ds) ->
  endsNumber rest = true ->
  k rest (caps ++ [d :: ds]) = Some res ->
  matcher true number ((d :: ds) ++ rest) caps k = Some res.
Proof.
  intros Hnum Hend Hk. inversion Hnum as [|? ? Hd Hds]; subst.
  change ((d :: ds) ++ rest) with (d :: ds ++ rest).
  rewrite matcher_number_head, Hd.
  apply (matcher_star_run _ isDigitOrDot); [exact Hds | |].
  - replace (List.length (d :: ds ++ rest) - List.length rest)%nat
      with (List.length (d :: ds)) by (cbn [List.length]; rewrite length_app; lia).
    change (d :: ds ++ rest) with ((d :: ds) ++ rest).
    rewrite firstn_app, Nat.sub_diag, firstn_all. cbn [firstn]. rewrite app_nil_r.
    exact Hk.
  - destruct rest as [|x rest]; [exact I|]. cbn [endsNumber] in Hend.
    apply negb_true_iff in Hend. exact Hend.
Qed.

(** [ws] then a number, the tail shared by the four patterns. *)
Lemma matcher_blanks_number {R : Type} (k : jsstring -> list jsstring -> option R)
  (blanks : jsstring) (d : Z) (ds rest : jsstring) (caps : list jsstring) (res : R) :
  Forall (fun x => isWhiteSpace x = true) blanks ->
  Forall (fun x => isDigitOrDot x = true) (d :: ds) ->
  endsNumber rest = true ->
  k rest (caps ++ [d :: ds]) = Some res ->
  matcher true (Seq ws (Seq number Empty)) (blanks ++ (d :: ds) ++ rest) caps k = Some res.
Proof.
  intros Hb Hnum Hend Hk. rewrite matcher_Seq. unfold ws.
  apply (matcher_star_run _ isWhiteSpace); [exact Hb | |].
  - rewrite matcher_Seq. apply matcher_number; assumption.
  - cbn [app]. apply blank_not_digit. inversion Hnum; assumption.
Qed.

Lemma letter_not_blank (x c : Z) :
  65 <= c <= 122 -> canonicalize true x = canonicalize true c -> isWhiteSpace x = false.
Proof.
  intros Hc H. apply isWhiteSpace_letter.
  destruct (canonicalize_cases x) as [Ex|[Hx Ex]], (canonicalize_cases c) as [Ec|[Hc' Ec]];
    rewrite Ex, Ec in H; lia.
Qed.

(** The search steps over characters that cannot start the key. *)
Lemma execFrom_skip (c0 : Z) (r1 r2 : regex) (skipped s pre : jsstring) :
  without c0 skipped ->
  execFrom true (Seq (Seq (Lit c0) r1) r2) pre (skipped ++ s)
  = execFrom true (Seq (Seq (Lit c0) r1) r2) (pre ++ skipped) s.
Proof.
  intros H. revert pre. induction H as [|x skipped Hx _ IH]; intros pre.
  - rewrite app_nil_r. reflexivity.
  - cbn [app execFrom]. unfold matchAt at 1. cbn [matcher].
    apply Z.eqb_neq in Hx. rewrite Hx.
    rewrite IH, <- app_assoc. reflexivity.
Qed.

Lemma capture_of_match (r : regex) (old : option float) (s pre : jsstring)
  (res : matchResult) (num : jsstring) :
  matchAt true r pre s = Some res -> captures res = [num] ->
  match execFrom true r pre s with
  | Some m => Some (parseFloat (capture1 m))
  | None => old
  end = Some (parseFloat num).
Proof.
  intros Hm Hc. destruct s; cbn [execFrom]; rewrite Hm; unfold capture1; rewrite Hc;
    reflexivity.
Qed.

(** [key = number]: the shape of the two pixel-size patterns. *)
Lemma key_equals_number (c0 : Z) (w : jsstring) (old : option float)
  (skipped key b1 b2 : jsstring) (d : Z) (ds rest : jsstring) :
  without c0 skipped ->
  sameLetters key (c0 :: w) ->
  Forall (fun x => isWhiteSpace x = true) b1 ->
  Forall (fun x => isWhiteSpace x = true) b2 ->
  Forall (fun x => isDigitOrDot x = true) (d :: ds) ->
  endsNumber rest = true ->
  match execFrom true
          (seqs [fold_right (fun c r => Seq (Lit c) r) Empty (c0 :: w);
                 ws; Lit 61; ws; number]) []
          (skipped ++ key ++ b1 ++ 61 :: b2 ++ (d :: ds) ++ rest) with
  | Some m => Some (parseFloat (capture1 m))
  | None => old
  end = Some (parseFloat (d :: ds)).
Proof.
  intros Hskip Hkey Hb1 Hb2 Hnum Hend.
  unfold seqs. cbn [fold_right]. rewrite execFrom_skip by exact Hskip.
  assert (M : matchAt true
                (Seq (fold_right (fun c r => Seq (Lit c) r) Empty (c0 :: w))
                   (Seq ws (Seq (Lit 61) (Seq ws (Seq number Empty)))))
                ([] ++ skipped) (key ++ b1 ++ 61 :: b2 ++ (d :: ds) ++ rest)
              = Some {| before := [] ++ skipped;
                        matched :=
                          firstn (List.length (key ++ b1 ++ 61 :: b2 ++ (d :: ds) ++ rest)
                                  - List.length rest)
                            (key ++ b1 ++ 61 :: b2 ++ (d :: ds) ++ rest);
                        after := rest;
                        captures := [] ++ [d :: ds] |}).
  { unfold matchAt. rewrite matcher_Seq.
    rewrite (matcher_lits_fold _ (c0 :: w) key) by exact Hkey.
    rewrite matcher_Seq. unfold ws at 1.
    apply (matcher_star_run _ isWhiteSpace); [exact Hb1 | | reflexivity].
    rewrite matcher_Seq. cbn [matcher]. rewrite Z.eqb_refl.
    apply matcher_blanks_number; try assumption. reflexivity. }
  apply (capture_of_match _ _ _ _ _ _ M). reflexivity.
Qed.

(** [word word : number]: the shape of the frame-rate and time-increment
    patterns. *)
Lemma words_separator_number (c0 c1 : Z) (w1 w2 : jsstring) (old : option float)
  (skipped key1 b0 key2 b1 b2 : jsstring) (sep d : Z) (ds rest : jsstring) :
  without c0 skipped ->
  sameLetters key1 (c0 :: w1) ->
  sameLetters key2 (c1 :: w2) -> 65 <= c1 <= 122 ->
  isColonOrEquals sep = true ->
  Forall (fun x => isWhiteSpace x = true) b0 ->
  Forall (fun x => isWhiteSpace x = true) b1 ->
  Forall (fun x => isWhiteSpace x = true) b2 ->
  Forall (fun x => isDigitOrDot x = true) (d :: ds) ->
  endsNumber rest = true ->
  match execFrom true
          (seqs [fold_right (fun c r => Seq (Lit c) r) Empty (c0 :: w1); ws;
                 fold_right (fun c r => Seq (Lit c) r) Empty (c1 :: w2); ws;
                 OneOf isColonOrEquals; ws; number]) []
          (skipped ++ key1 ++ b0 ++ key2 ++ b1 ++ sep :: b2 ++ (d :: ds) ++ rest) with
  | Some m => Some (parseFloat (capture1 m))
  | None => old
  end = Some (parseFloat (d :: ds)).
Proof.
  intros Hskip Hk1 Hk2 Hc1 Hsep Hb0 Hb1 Hb2 Hnum Hend.
  unfold seqs. cbn [fold_right]. rewrite execFrom_skip by exact Hskip.
  assert (M : exists res,
             matchAt true
               (Seq (fold_right (fun c r => Seq (Lit c) r) Empty (c0 :: w1))
                  (Seq ws
                     (Seq (fold_right (fun c r => Seq (Lit c) r) Empty (c1 :: w2))
                        (Seq ws (Seq (OneOf isColonOrEquals) (Seq ws (Seq number Empty)))))))
               ([] ++ skipped)
               (key1 ++ b0 ++ key2 ++ b1 ++ sep :: b2 ++ (d :: ds) ++ rest)
             = Some res /\ captures res = [d :: ds]);
    [|destruct M as (res & M & Hc); apply (capture_of_match _ _ _ _ _ _ M Hc)].
  eexists. split; [|shelve].
  unfold matchAt. rewrite matcher_Seq.
  rewrite (matcher_lits_fold _ (c0 :: w1) key1) by exact Hk1.
  rewrite matcher_Seq. unfold ws at 1.
  assert (Hk2' : sameLetters (c1 :: w2) key2) by (symmetry; exact Hk2).
  destruct (sameLetters_cons_l _ _ _ Hk2') as (x & key2' & E & Hx & _).
  apply (matcher_star_run _ isWhiteSpace); [exact Hb0 | |].
  2:{ rewrite E. cbn [app]. apply (letter_not_blank x c1); [exact Hc1 | symmetry; exact Hx]. }
  rewrite matcher_Seq.
  rewrite (matcher_lits_fold _ (c1 :: w2) key2) by exact Hk2.
  rewrite matcher_Seq. unfold ws at 1.
  assert (Hsep' : isWhiteSpace sep = false).
  { unfold isColonOrEquals in Hsep. apply orb_true_iff in Hsep as [H|H];
      apply Z.eqb_eq in H; subst sep; reflexivity. }
  apply (matcher_star_run _ isWhiteSpace); [exact Hb1 | | exact Hsep'].
  rewrite matcher_Seq. cbn [matcher]. rewrite Hsep.
  apply matcher_blanks_number; try assumption. reflexivity.
  Unshelve. reflexivity.
Qed.

(** X13: in a text description, the key [micronsPerPixelX] in any letter
    case, optional white space, [=], optional white space and a run of digits
    and dots that ends the text or is followed by another character set
    physicalSizeX to [parseFloat] of the whole run, when no [m] or [M] comes
    before the key; likewise [micronsPerPixelY] for physicalSizeY, and
    [frame rate] and [time increment] (white space between the words
    optional, [:] or [=] as separator) for frameRate and timeIncrement, when
    no [f] or [F], respectively [t] or [T], comes before. *)
Theorem key_value_text (meta : Meta)
  (skipped b0 b1 b2 : jsstring) (d : Z) (ds rest : jsstring) :
  Forall (fun x => isWhiteSpace x = true) b0 ->
  Forall (fun x => isWhiteSpace x = true) b1 ->
  Forall (fun x => isWhiteSpace x = true) b2 ->
  Forall (fun x => isDigitOrDot x = true) (d :: ds) ->
  endsNumber rest = true ->
  (forall key,
     without 109 skipped -> sameLetters key (str "micronsPerPixelX") ->
     physicalSizeX
       (interpretText (skipped ++ key ++ b1 ++ 61 :: b2 ++ (d :: ds) ++ rest) meta)
     = Some (parseFloat (d :: ds)))
  /\ (forall key,
        without 109 skipped -> sameLetters key (str "micronsPerPixelY") ->
        physicalSizeY
          (interpretText (skipped ++ key ++ b1 ++ 61 :: b2 ++ (d :: ds) ++ rest) meta)
        = Some (parseFloat (d :: ds)))
  /\ (forall key1 key2 sep,
        without 102 skipped -> sameLetters key1 (str "frame") ->
        sameLetters key2 (str "rate") -> isColonOrEquals sep = true ->
        frameRate
          (interpretText
             (skipped ++ key1 ++ b0 ++ key2 ++ b1 ++ sep :: b2 ++ (d :: ds) ++ rest) meta)
        = Some (parseFloat (d :: ds)))
  /\ (forall key1 key2 sep,
        without 116 skipped -> sameLetters key1 (str "time") ->
        sameLetters key2 (str "increment") -> isColonOrEquals sep = true ->
        timeIncrement
          (interpretText
             (skipped ++ key1 ++ b0 ++ key2 ++ b1 ++ sep :: b2 ++ (d :: ds) ++ rest) meta)
        = Some (parseFloat (d :: ds))).
Proof.
  intros Hb0 Hb1 Hb2 Hnum Hend.
  split; [|split; [|split]]; intros; rewrite interpretText_fields;
    cbn [physicalSizeX physicalSizeY frameRate timeIncrement]; unfold fieldAfter, exec.
  - apply (key_equals_number 109 (tl (str "micronsPerPixelX"))); assumption.
  - apply (key_equals_number 109 (tl (str "micronsPerPixelY"))); assumption.
  - apply (words_separator_number 102 114 (tl (str "frame")) (tl (str "rate")));
      try assumption. lia.
  - apply (words_separator_number 116 105 (tl (str "time")) (tl (str "increment")));
      try assumption. lia.
Qed.

Lemma key_value_text_witness :
  frameRate (interpretText (str "laser 920; Frame Rate :  29.97 Hz") emptyMeta)
  = Some (parseFloat (str "29.97")).
Proof.
  destruct (key_value_text emptyMeta (str "laser 920; ") (str " ") (str " ") (str "  ")
              50 (str "9.97") (str " Hz")) as (_ & _ & H & _).
  - repeat constructor.
  - repeat constructor.
  - repeat constructor.
  - repeat constructor.
  - reflexivity.
  - apply (H (str "Frame") (str "Rate") 58).
    + repeat constructor; vm_compute; discriminate.
    + reflexivity.
    + reflexivity.
    + reflexivity.
Defined.

(** * Properties of the theme toggle *)

Lemma jsstring_eqb_eq (a b : jsstring) : jsstring_eqb a b = true <-> a = b.
Proof.
  unfold jsstring_eqb. rewrite andb_true_iff, Nat.eqb_eq. split.
  - intros [Hl Hs]. revert b Hl Hs. induction a as [|x a IH]; intros b Hl Hs.
    + destruct b; [reflexivity | discriminate].
    + destruct b as [|y b]; [discriminate|]. cbn [startsWith] in Hs.
      apply andb_true_iff in Hs as [Hxy Hs]. apply Z.eqb_eq in Hxy. subst y.
      f_equal. apply IH; [simpl in Hl; lia | exact Hs].
  - intros <-. split; [reflexivity|].
    induction a as [|x a IH]; [reflexivity|]. cbn [startsWith].
    rewrite Z.eqb_refl. exact IH.
Qed.

Lemma jsstring_eqb_refl (a : jsstring) : jsstring_eqb a a = true.
Proof. apply jsstring_eqb_eq. reflexivity. Qed.

Lemma jsstring_eqb_neq (a b : jsstring) : a <> b -> jsstring_eqb a b = false.
Proof.
  intros H. destruct (jsstring_eqb a b) eqn:E; [|reflexivity].
  apply jsstring_eqb_eq in E. contradiction.
Qed.

Lemma contains_app (cs cs' : list jsstring) (t : jsstring) :
  contains (cs ++ cs') t = contains cs t || contains cs' t.
Proof. apply existsb_app. Qed.

Lemma contains_add (cs : list jsstring) (t t' : jsstring) :
  contains (add cs t) t' = contains cs t' || jsstring_eqb t' t.
Proof.
  unfold add. destruct (contains cs t) eqn:E.
  - destruct (jsstring_eqb t' t) eqn:Et; [|rewrite orb_false_r; reflexivity].
    apply jsstring_eqb_eq in Et. subst t'. rewrite E. reflexivity.
  - rewrite contains_app. cbn [contains existsb]. rewrite orb_false_r. reflexivity.
Qed.

Lemma contains_remove (cs : list jsstring) (t t' : jsstring) :
  contains (remove cs t) t' = contains cs t' && negb (jsstring_eqb t' t).
Proof.
  unfold remove, contains. induction cs as [|c cs IH]; [reflexivity|].
  cbn [filter existsb]. destruct (jsstring_eqb c t) eqn:Ec; cbn [negb existsb].
  - apply jsstring_eqb_eq in Ec. subst c. rewrite IH.
    destruct (jsstring_eqb t' t); cbn; [rewrite !andb_false_r|rewrite !andb_true_r];
      reflexivity.
  - rewrite IH. destruct (jsstring_eqb t' c) eqn:Et; [|reflexivity].
    apply jsstring_eqb_eq in Et. subst t'. rewrite Ec. reflexivity.
Qed.

(** The class list after [applyTheme]. *)
Lemma applyTheme_contains (theme : jsstring) (p : page) (t : jsstring) :
  contains (classList (applyTheme theme p)) t
  = if jsstring_eqb t (str "dark") then jsstring_eqb theme (str "dark")
    else contains (classList p) t.
Proof.
  unfold applyTheme. cbn [classList].
  destruct (jsstring_eqb theme (str "dark")).
  - rewrite contains_add. destruct (jsstring_eqb t (str "dark"));
      [apply orb_true_r | apply orb_false_r].
  - rewrite contains_remove. destruct (jsstring_eqb t (str "dark"));
      [apply andb_false_r | apply andb_true_r].
Qed.

Lemma nextTheme_dark (p : page) :
  jsstring_eqb (nextTheme p) (str "dark") = negb (contains (classList p) (str "dark")).
Proof. unfold nextTheme. destruct (contains _ _); reflexivity. Qed.

Lemma updateIcon_classes (p : page) :
  classList (updateIcon p) = classList p /\ themeItem (updateIcon p) = themeItem p
  /\ storageWorks (updateIcon p) = storageWorks p.
Proof. unfold updateIcon. destruct (buttonText p); repeat split. Qed.

Lemma setItem_classes (v : jsstring) (p : page) :
  classList (setItem v p) = classList p /\ buttonText (setItem v p) = buttonText p
  /\ storageWorks (setItem v p) = storageWorks p
  /\ themeItem (setItem v p) = if storageWorks p then Some v else themeItem p.
Proof. unfold setItem. destruct (storageWorks p) eqn:E; repeat split; auto. Qed.

(** The two click listeners do the same. *)
Lemma click_same (p : page) : Sync.click p = Placeholder.click p.
Proof.
  unfold Sync.click, Placeholder.click. destruct (buttonText p) eqn:B; [|reflexivity].
  cbv zeta. f_equal. unfold setItem, applyTheme. cbn [storageWorks classList themeItem].
  destruct (storageWorks p) eqn:E; cbn [classList themeItem storageWorks buttonText];
    rewrite ?E; reflexivity.
Qed.

(** X14: a click on the toggle button flips the [dark] class of the root
    element and touches no other class; afterwards the button shows the sun
    in dark mode and the moon in light mode, and the stored theme names the
    mode now shown, or is left as it was when localStorage cannot be used.
    Both versions of the listener behave so, and without a button there is no
    listener. *)
Theorem click_toggles (p : page) :
  Sync.click p = Placeholder.click p
  /\ (buttonText p = None -> Placeholder.click p = p)
  /\ (forall text, buttonText p = Some text ->
        isDark (Placeholder.click p) = negb (isDark p)
        /\ (forall t, t <> str "dark" ->
              contains (classList (Placeholder.click p)) t = contains (classList p) t)
        /\ buttonText (Placeholder.click p) = Some (shownIcon (Placeholder.click p))
        /\ storageWorks (Placeholder.click p) = storageWorks p
        /\ themeItem (Placeholder.click p)
           = if storageWorks p then Some (shownTheme (Placeholder.click p))
             else themeItem p).
Proof.
  split; [apply click_same|]. split.
  { intros B. unfold Placeholder.click. rewrite B. reflexivity. }
  intros text B. unfold Placeholder.click. rewrite B. cbv zeta.
  set (q := applyTheme (nextTheme p) p).
  assert (Hq : forall t, contains (classList q) t
                         = if jsstring_eqb t (str "dark") then negb (isDark p)
                           else contains (classList p) t).
  { intros t. unfold q. rewrite applyTheme_contains, nextTheme_dark. reflexivity. }
  assert (Bq : buttonText (setItem (nextTheme p) q) = Some text)
    by (destruct (setItem_classes (nextTheme p) q) as (_ & -> & _); exact B).
  destruct (setItem_classes (nextTheme p) q) as (Hc & _ & Hs & Hi).
  assert (Hdark : isDark (updateIcon (setItem (nextTheme p) q)) = negb (isDark p)).
  { unfold isDark at 1. destruct (updateIcon_classes (setItem (nextTheme p) q)) as (-> & _).
    rewrite Hc, Hq. reflexivity. }
  split; [exact Hdark|]. split; [|split; [|split]].
  - intros t Ht. destruct (updateIcon_classes (setItem (nextTheme p) q)) as (-> & _).
    rewrite Hc, Hq, (jsstring_eqb_neq _ _ Ht). reflexivity.
  - unfold shownIcon. rewrite Hdark. unfold updateIcon. rewrite Bq. cbn [buttonText].
    rewrite Hc. fold (isDark q). unfold isDark at 1. rewrite Hq. reflexivity.
  - destruct (updateIcon_classes (setItem (nextTheme p) q)) as (_ & _ & ->).
    rewrite Hs. reflexivity.
  - destruct (updateIcon_classes (setItem (nextTheme p) q)) as (_ & -> & _).
    rewrite Hi. unfold shownTheme. rewrite Hdark.
    change (storageWorks q) with (storageWorks p). change (themeItem q) with (themeItem p).
    unfold nextTheme. fold (isDark p). destruct (storageWorks p), (isDark p); reflexivity.
Qed.

Lemma click_toggles_witness :
  isDark (Placeholder.click (mkPage [str "wide"] None true (Some moon)))
  = negb (isDark (mkPage [str "wide"] None true (Some moon))).
Proof.
  destruct (click_toggles (mkPage [str "wide"] None true (Some moon))) as (_ & _ & H).
  apply (H moon). reflexivity.
Defined.

Lemma applyTheme_isDark (theme : jsstring) (p : page) :
  isDark (applyTheme theme p) = jsstring_eqb theme (str "dark").
Proof. unfold isDark. rewrite applyTheme_contains. reflexivity. Qed.

Lemma updateIcon_isDark (p : page) : isDark (updateIcon p) = isDark p.
Proof. unfold isDark. destruct (updateIcon_classes p) as (-> & _). reflexivity. Qed.

Lemma updateIcon_button (p : page) :
  buttonText (updateIcon p)
  = match buttonText p with Some _ => Some (shownIcon p) | None => None end.
Proof. unfold updateIcon. destruct (buttonText p) eqn:B; [reflexivity | exact B]. Qed.

(** X15: the theme survives a reload.  With a usable localStorage, a page
    that loads with the item a click has stored shows the mode the click
    left, whatever classes the root element starts with; this holds for both
    versions of the loading code.  In general a stored [dark] makes the page
    dark and a stored [light] makes it light. *)
Theorem reload_restores (r : page) :
  storageWorks r = true ->
  (themeItem r = Some (str "dark") ->
   isDark (Placeholder.load r) = true /\ isDark (Sync.load r) = true)
  /\ (themeItem r = Some (str "light") ->
      isDark (Placeholder.load r) = false /\ isDark (Sync.load r) = false)
  /\ (forall p text,
        buttonText p = Some text -> storageWorks p = true ->
        themeItem r = themeItem (Placeholder.click p) ->
        isDark (Placeholder.load r) = isDark (Placeholder.click p)
        /\ isDark (Sync.load r) = isDark (Placeholder.click p)).
Proof.
  intros Hr.
  assert (L : forall v, (v = str "dark" \/ v = str "light") -> themeItem r = Some v ->
                isDark (Placeholder.load r) = jsstring_eqb v (str "dark")
                /\ isDark (Sync.load r) = jsstring_eqb v (str "dark")).
  { intros v Hv Hi. unfold Placeholder.load, Sync.load, getItem. rewrite Hr, Hi. cbv zeta.
    split.
    - rewrite updateIcon_isDark.
      destruct Hv as [-> | ->]; cbn [orb]; apply applyTheme_isDark.
    - assert (E : exists c s, v = c :: s) by (destruct Hv as [-> | ->]; eexists; eexists;
                                               reflexivity).
      destruct E as (c & s & ->).
      change (buttonText (applyTheme (c :: s) r)) with (buttonText r).
      destruct (buttonText r); [rewrite updateIcon_isDark|]; apply applyTheme_isDark. }
  split; [|split].
  - intros Hi. apply (L (str "dark")); [left; reflexivity | exact Hi].
  - intros Hi. apply (L (str "light")); [right; reflexivity | exact Hi].
  - intros p text B Hs Hi.
    assert (Hstored : themeItem (Placeholder.click p) = Some (shownTheme (Placeholder.click p))).
    { unfold Placeholder.click. rewrite B. cbv zeta.
      destruct (updateIcon_classes (setItem (nextTheme p) (applyTheme (nextTheme p) p)))
        as (_ & -> & _).
      destruct (setItem_classes (nextTheme p) (applyTheme (nextTheme p) p))
        as (_ & _ & _ & ->).
      change (storageWorks (applyTheme (nextTheme p) p)) with (storageWorks p). rewrite Hs.
      f_equal. unfold shownTheme. rewrite updateIcon_isDark. unfold isDark.
      destruct (setItem_classes (nextTheme p) (applyTheme (nextTheme p) p)) as (-> & _).
      fold (isDark (applyTheme (nextTheme p) p)). rewrite applyTheme_isDark.
      unfold nextTheme. destruct (contains (classList p) (str "dark")); reflexivity. }
    rewrite Hstored in Hi. unfold shownTheme in Hi.
    destruct (isDark (Placeholder.click p)).
    + apply (L (str "dark")); [left; reflexivity | exact Hi].
    + apply (L (str "light")); [right; reflexivity | exact Hi].
Qed.

Lemma reload_restores_witness :
  isDark (Placeholder.load (mkPage [] (Some (str "dark")) true None)) = true
  /\ isDark (Sync.load (mkPage [] (Some (str "dark")) true None)) = true.
Proof.
  destruct (reload_restores (mkPage [] (Some (str "dark")) true None) eq_refl) as (H & _).
  apply H. reflexivity.
Defined.

Lemma Sync_load_updateIcon (p : page) :
  Sync.load p
  = updateIcon match getItem p with
               | Some (c :: s) => applyTheme (c :: s) p
               | _ => p
               end.
Proof.
  unfold Sync.load, updateIcon. cbv zeta.
  destruct (buttonText _); reflexivity.
Qed.

(** X16: loading with a stored value that is neither [dark] nor [light]:
    the version with the placeholder comment leaves the classes of the root
    element alone, the version that keeps tabs in sync removes [dark] for
    every such value that is not empty.  With no stored value, an empty one
    or an unusable localStorage both leave the classes alone.  Loading never
    writes to localStorage, and a button, when there is one, shows the icon
    of the resulting mode. *)
Theorem load_other_values (p : page) :
  (forall c s,
     getItem p = Some (c :: s) -> c :: s <> str "dark" -> c :: s <> str "light" ->
     classList (Placeholder.load p) = classList p
     /\ isDark (Sync.load p) = false)
  /\ ((getItem p = None \/ getItem p = Some []) ->
      classList (Placeholder.load p) = classList p
      /\ classList (Sync.load p) = classList p)
  /\ (themeItem (Placeholder.load p) = themeItem p
      /\ themeItem (Sync.load p) = themeItem p)
  /\ (buttonText (Placeholder.load p)
      = match buttonText p with
        | Some _ => Some (shownIcon (Placeholder.load p))
        | None => None
        end)
  /\ (buttonText (Sync.load p)
      = match buttonText p with
        | Some _ => Some (shownIcon (Sync.load p))
        | None => None
        end).
Proof.
  split; [|split; [|split; [|split]]].
  - intros c s Hg Hd Hl. unfold Placeholder.load, Sync.load. rewrite Hg. cbv zeta.
    rewrite (jsstring_eqb_neq _ _ Hd), (jsstring_eqb_neq _ _ Hl). cbn [orb].
    split; [apply updateIcon_classes|].
    change (buttonText (applyTheme (c :: s) p)) with (buttonText p).
    destruct (buttonText p); [rewrite updateIcon_isDark|];
      rewrite applyTheme_isDark; apply jsstring_eqb_neq; exact Hd.
  - intros Hg. unfold Placeholder.load, Sync.load.
    destruct Hg as [-> | ->]; cbv zeta; cbn [jsstring_eqb orb];
      (split; [apply updateIcon_classes|]);
      destruct (buttonText p); try reflexivity; apply updateIcon_classes.
  - unfold Placeholder.load, Sync.load. cbv zeta. split.
    + destruct (updateIcon_classes
                  match getItem p with
                  | Some t =>
                      if jsstring_eqb t (str "dark") || jsstring_eqb t (str "light")
                      then applyTheme t p else p
                  | None => p
                  end) as (_ & -> & _).
      destruct (getItem p) as [t|]; [|reflexivity].
      destruct (_ || _); reflexivity.
    + destruct (getItem p) as [[|c s]|]; cbn [buttonText applyTheme];
        destruct (buttonText p) eqn:B; try reflexivity;
        match goal with
        | |- themeItem (updateIcon ?q) = _ =>
            destruct (updateIcon_classes q) as (_ & -> & _); reflexivity
        end.
  - unfold Placeholder.load. cbv zeta. rewrite updateIcon_button. unfold shownIcon.
    rewrite updateIcon_isDark.
    replace (buttonText match getItem p with
                        | Some t =>
                            if jsstring_eqb t (str "dark") || jsstring_eqb t (str "light")
                            then applyTheme t p else p
                        | None => p
                        end) with (buttonText p); [reflexivity|].
    destruct (getItem p) as [t|]; [|reflexivity]. destruct (_ || _); reflexivity.
  - rewrite Sync_load_updateIcon, updateIcon_button. unfold shownIcon.
    rewrite updateIcon_isDark.
    replace (buttonText match getItem p with
                        | Some (c :: s) => applyTheme (c :: s) p
                        | _ => p
                        end) with (buttonText p); [reflexivity|].
    destruct (getItem p) as [[|c s]|]; reflexivity.
Qed.

Lemma load_other_values_witness :
  classList (Placeholder.load (mkPage [str "dark"] (Some (str "blue")) true None))
  = [str "dark"]
  /\ isDark (Sync.load (mkPage [str "dark"] (Some (str "blue")) true None)) = false.
Proof.
  destruct (load_other_values (mkPage [str "dark"] (Some (str "blue")) true None))
    as (H & _).
  apply (H 98 (str "lue")); [reflexivity | |]; vm_compute; discriminate.
Defined.

(** X17: the [storage] listener reacts only to the key [theme] with the new
    value [dark] or [light]: the page then shows that theme and the button
    its icon.  Any other key or value, a removed item included, leaves the
    page as it is.  The listener never writes to localStorage. *)
Theorem storage_event (key newValue : option jsstring) (p : page) :
  (key = Some (str "theme") ->
   (newValue = Some (str "dark") ->
    isDark (Sync.storage key newValue p) = true
    /\ buttonText (Sync.storage key newValue p)
       = match buttonText p with Some _ => Some sun | None => None end)
   /\ (newValue = Some (str "light") ->
       isDark (Sync.storage key newValue p) = false
       /\ buttonText (Sync.storage key newValue p)
          = match buttonText p with Some _ => Some moon | None => None end))
  /\ (key <> Some (str "theme") -> Sync.storage key newValue p = p)
  /\ (newValue <> Some (str "dark") -> newValue <> Some (str "light") ->
      Sync.storage key newValue p = p)
  /\ themeItem (Sync.storage key newValue p) = themeItem p
  /\ (forall t, t <> str "dark" ->
        contains (classList (Sync.storage key newValue p)) t = contains (classList p) t).
Proof.
  split; [|split; [|split; [|split]]].
  - intros ->. split; intros ->; unfold Sync.storage;
      rewrite !jsstring_eqb_refl, ?orb_true_r; cbn [andb orb];
      rewrite updateIcon_isDark, updateIcon_button;
      (split; [apply applyTheme_isDark|]);
      change (buttonText (applyTheme _ p)) with (buttonText p);
      destruct (buttonText p); try reflexivity;
      unfold shownIcon; rewrite applyTheme_isDark; reflexivity.
  - intros Hk. unfold Sync.storage. destruct key as [k|]; [|reflexivity].
    destruct newValue as [v|]; [|reflexivity].
    rewrite (jsstring_eqb_neq k (str "theme")) by congruence. reflexivity.
  - intros Hd Hl. unfold Sync.storage. destruct key as [k|]; [|reflexivity].
    destruct newValue as [v|]; [|reflexivity].
    rewrite (jsstring_eqb_neq v (str "dark")), (jsstring_eqb_neq v (str "light"))
      by congruence.
    rewrite andb_false_r. reflexivity.
  - unfold Sync.storage. destruct key as [k|]; [|reflexivity].
    destruct newValue as [v|]; [|reflexivity].
    destruct (_ && _); [|reflexivity].
    destruct (updateIcon_classes (applyTheme v p)) as (_ & -> & _). reflexivity.
  - intros t Ht. unfold Sync.storage. destruct key as [k|]; [|reflexivity].
    destruct newValue as [v|]; [|reflexivity].
    destruct (_ && _); [|reflexivity].
    destruct (updateIcon_classes (applyTheme v p)) as (-> & _).
    rewrite applyTheme_contains, (jsstring_eqb_neq _ _ Ht). reflexivity.
Qed.

Lemma storage_event_witness :
  Sync.storage (Some (str "lang")) (Some (str "dark")) (mkPage [] None true (Some moon))
  = mkPage [] None true (Some moon).
Proof.
  destruct (storage_event (Some (str "lang")) (Some (str "dark"))
              (mkPage [] None true (Some moon))) as (_ & H & _).
  apply H. vm_compute. discriminate.
Defined.
